(** * S-parameter plotter (app.py): parser, baseline reduction and two-file
    averaging, embedded in Rocq.

    The Python program works on [bytes], [str], [float] (IEEE binary64) and
    one-dimensional numpy arrays of [float64].  They are modelled as
    [list byte], lists of Unicode code points, the kernel's primitive
    binary64 floats and [list float].  Exceptions are explicit: every
    operation of the program that can raise returns an [outcome]. *)

From Stdlib Require Import ZArith NArith List Bool Lia.
From Stdlib.Strings Require Import String Ascii Byte.
From Stdlib Require Import Floats.
From Stdlib Require Import Permutation Sorted.
From Stdlib Require Import QArith Qabs Qpower.
Import ListNotations.
Close Scope Q_scope.
Set Warnings "-inexact-float".

(** [lia] also reasons about integer division and remainder. *)
Ltac Zify.zify_post_hook ::= Z.to_euclidean_division_equations.

(* ================================================================= *)
(** ** Python run-time model *)

Module Py.

(** *** Exceptions *)

Inductive exn : Type :=
| ValueError
| IndexError
| NameError
| UnicodeEncodeError.

(** A computation either delivers a value or raises. *)
Inductive result (A : Type) : Type :=
| Ok (a : A)
| Raise (e : exn).
Arguments Ok {A} a.
Arguments Raise {A} e.

Definition rbind {A B} (r : result A) (k : A -> result B) : result B :=
  match r with
  | Ok a => k a
  | Raise e => Raise e
  end.

(** *** [str]: a sequence of Unicode code points *)

Definition char := N.
Definition str := list char.

(** An ASCII literal of the source, as a [str]. *)
Definition lit (s : string) : str :=
  List.map N_of_ascii (list_ascii_of_string s).

Definition str_eqb (a b : str) : bool :=
  if list_eq_dec N.eq_dec a b then true else false.

(** [s.startswith(p)] *)
Fixpoint startswith (s p : str) : bool :=
  match p, s with
  | [], _ => true
  | _ :: _, [] => false
  | c :: p', d :: s' => (c =? d)%N && startswith s' p'
  end.

(** [s.endswith(p)] *)
Definition endswith (s p : str) : bool :=
  startswith (rev s) (rev p).

(** [str.lower()] on one code point.  Only A-Z is mapped here; the full
    Unicode mapping sends no other code point to an ASCII letter of the
    suffixes tested by the program ('.', 's', '1', 'p', 'c', 'a', 'l'), so
    the suffix tests on the lowered file name are unaffected. *)
Definition lower_char (c : char) : char :=
  if ((65 <=? c) && (c <=? 90))%N then (c + 32)%N else c.

Definition lower (s : str) : str := List.map lower_char s.

(** [str.isspace()] on one code point: the characters [str.strip()] and
    [str.split()] treat as white space. *)
Definition isspace (c : char) : bool :=
  (((9 <=? c) && (c <=? 13)) || ((28 <=? c) && (c <=? 32))
   || (c =? 133) || (c =? 160) || (c =? 5760)
   || ((8192 <=? c) && (c <=? 8202))
   || (c =? 8232) || (c =? 8233) || (c =? 8239) || (c =? 8287)
   || (c =? 12288))%N.

(** Dropping the leading characters that satisfy [sp]. *)
Fixpoint lstrip_with (sp : char -> bool) (s : str) : str :=
  match s with
  | [] => []
  | c :: s' => if sp c then lstrip_with sp s' else s
  end.

Definition strip_with (sp : char -> bool) (s : str) : str :=
  rev (lstrip_with sp (rev (lstrip_with sp s))).

(** [s.strip()] *)
Definition strip (s : str) : str := strip_with isspace s.

(** [s.split()]: the maximal runs of non-space characters, in order.
    [cur] holds the run being read, reversed. *)
Fixpoint split_aux (cur : str) (s : str) : list str :=
  match s with
  | [] => match cur with [] => [] | _ => [rev cur] end
  | c :: s' =>
      if isspace c then
        match cur with
        | [] => split_aux [] s'
        | _ => rev cur :: split_aux [] s'
        end
      else split_aux (c :: cur) s'
  end.

Definition split (s : str) : list str := split_aux [] s.

(** Line boundaries of [str.splitlines()]: LF, VT, FF, CR, FS, GS, RS, NEL,
    LS, PS; CR LF counts as one. *)
Definition islinebreak (c : char) : bool :=
  (((10 <=? c) && (c <=? 13)) || ((28 <=? c) && (c <=? 30))
   || (c =? 133) || (c =? 8232) || (c =? 8233))%N.

Fixpoint splitlines_aux (cur : str) (s : str) : list str :=
  match s with
  | [] => match cur with [] => [] | _ => [rev cur] end
  | c :: s' =>
      if (c =? 13)%N then
        match s' with
        | d :: s'' =>
            if (d =? 10)%N then rev cur :: splitlines_aux [] s''
            else rev cur :: splitlines_aux [] s'
        | [] => rev cur :: splitlines_aux [] s'
        end
      else if islinebreak c then rev cur :: splitlines_aux [] s'
      else splitlines_aux (c :: cur) s'
  end.

(** [s.splitlines()] *)
Definition splitlines (s : str) : list str := splitlines_aux [] s.

(** *** [bytes] and UTF-8 *)

Definition bytes := list byte.

Definition bytes_of_string (s : string) : bytes := list_byte_of_string s.

Definition is_cont (b : N) : bool := ((128 <=? b) && (b <=? 191))%N.

(** [bytes.decode('utf-8', errors='ignore')].  A malformed sequence is
    dropped up to, and not including, the byte that broke it; a sequence cut
    short by the end of the input is dropped. *)
Fixpoint decode_ignore (bs : list N) : str :=
  match bs with
  | [] => []
  | b0 :: r0 =>
    if (b0 <? 128)%N then b0 :: decode_ignore r0
    else if (b0 <? 194)%N then decode_ignore r0
    else if (b0 <? 224)%N then
      match r0 with
      | [] => []
      | b1 :: r1 =>
        if is_cont b1
        then ((b0 - 192) * 64 + (b1 - 128))%N :: decode_ignore r1
        else decode_ignore r0
      end
    else if (b0 <? 240)%N then
      match r0 with
      | [] => []
      | b1 :: r1 =>
        if negb (is_cont b1)
           || ((b0 =? 224) && (b1 <? 160))%N
           || ((b0 =? 237) && (160 <=? b1))%N
        then decode_ignore r0
        else
          match r1 with
          | [] => []
          | b2 :: r2 =>
            if is_cont b2
            then ((b0 - 224) * 4096 + (b1 - 128) * 64 + (b2 - 128))%N
                   :: decode_ignore r2
            else decode_ignore r1
          end
      end
    else if (b0 <? 245)%N then
      match r0 with
      | [] => []
      | b1 :: r1 =>
        if negb (is_cont b1)
           || ((b0 =? 240) && (b1 <? 144))%N
           || ((b0 =? 244) && (144 <=? b1))%N
        then decode_ignore r0
        else
          match r1 with
          | [] => []
          | b2 :: r2 =>
            if negb (is_cont b2) then decode_ignore r1
            else
              match r2 with
              | [] => []
              | b3 :: r3 =>
                if is_cont b3
                then ((b0 - 240) * 262144 + (b1 - 128) * 4096
                      + (b2 - 128) * 64 + (b3 - 128))%N
                       :: decode_ignore r3
                else decode_ignore r2
              end
          end
      end
    else decode_ignore r0
  end.

Definition decode (b : bytes) : str :=
  decode_ignore (List.map Byte.to_N b).

Definition byte_of_N (n : N) : byte :=
  match Byte.of_N n with
  | Some b => b
  | None => x00
  end.

(** UTF-8 encoding of one code point; surrogates cannot be encoded. *)
Definition encode_char (c : char) : result bytes :=
  if (c <? 128)%N then Ok [byte_of_N c]
  else if (c <? 2048)%N then
    Ok [byte_of_N (192 + c / 64); byte_of_N (128 + c mod 64)]
  else if ((55296 <=? c) && (c <=? 57343))%N then Raise UnicodeEncodeError
  else if (c <? 65536)%N then
    Ok [byte_of_N (224 + c / 4096); byte_of_N (128 + (c / 64) mod 64);
        byte_of_N (128 + c mod 64)]
  else
    Ok [byte_of_N (240 + c / 262144); byte_of_N (128 + (c / 4096) mod 64);
        byte_of_N (128 + (c / 64) mod 64); byte_of_N (128 + c mod 64)].

(** [s.encode()] *)
Fixpoint encode (s : str) : result bytes :=
  match s with
  | [] => Ok []
  | c :: s' =>
      rbind (encode_char c) (fun b =>
      rbind (encode s') (fun bs => Ok (b ++ bs)))
  end.

(** *** [float]: IEEE binary64 *)

Definition float := PrimFloat.float.

(** Round-half-even of the ratio [num / den], for [0 <= num], [0 < den]. *)
Definition rne_div (num den : Z) : Z :=
  let q := (num / den)%Z in
  let r := (num mod den)%Z in
  match (2 * r ?= den)%Z with
  | Lt => q
  | Gt => (q + 1)%Z
  | Eq => if Z.even q then q else (q + 1)%Z
  end.

(** [2^k <= n / d], for any integer [k]. *)
Definition pow2_le_ratio (k : Z) (n d : positive) : bool :=
  if (0 <=? k)%Z then (Zpos d * 2 ^ k <=? Zpos n)%Z
  else (Zpos d <=? Zpos n * 2 ^ (- k))%Z.

(** [floor (log2 (n / d))] *)
Definition ilog2_ratio (n d : positive) : Z :=
  let k := (Z.log2 (Zpos n) - Z.log2 (Zpos d))%Z in
  if pow2_le_ratio k n d then k else (k - 1)%Z.

(** The binary64 number nearest to [n / d], ties to the even mantissa:
    the mantissa has 53 bits, or the exponent is the least one ([-1074]);
    a result of [2^1024] or more is an infinity. *)
Definition round_ratio (neg : bool) (n d : positive) : spec_float :=
  let k := ilog2_ratio n d in
  let e := Z.max (k - 52) (-1074) in
  let m := if (0 <=? e)%Z then rne_div (Zpos n) (Zpos d * 2 ^ e)
           else rne_div (Zpos n * 2 ^ (- e)) (Zpos d) in
  let m' := if (m =? 2 ^ 53)%Z then (2 ^ 52)%Z else m in
  let e' := if (m =? 2 ^ 53)%Z then (e + 1)%Z else e in
  if (971 <? e')%Z then S754_infinity neg
  else match m' with
       | Zpos p => S754_finite neg p e'
       | _ => S754_zero neg
       end.

(** The binary64 number nearest to [m * 10^e10], with the sign [neg]. *)
Definition round_decimal (neg : bool) (m : N) (e10 : Z) : spec_float :=
  match m with
  | N0 => S754_zero neg
  | Npos p =>
      if (0 <=? e10)%Z then round_ratio neg (p * Z.to_pos (10 ^ e10)) 1
      else round_ratio neg p (Z.to_pos (10 ^ (- e10)))
  end.

(** *** Decimal digits *)

Definition is_digit (c : char) : bool := ((48 <=? c) && (c <=? 57))%N.

(** Value of a sequence of digit characters, most significant first. *)
Definition digits_value (ds : str) : N :=
  fold_left (fun a c => (10 * a + (c - 48))%N) ds 0%N.

Fixpoint to_digits (fuel : nat) (n : N) (acc : str) : str :=
  match fuel with
  | O => acc
  | S f =>
      let acc' := (48 + n mod 10)%N :: acc in
      if (n / 10 =? 0)%N then acc' else to_digits f (n / 10)%N acc'
  end.

(** [str(n)] for a natural number [n]. *)
Definition digits (n : N) : str := to_digits (S (N.size_nat n)) n [].

(** [str(z)] for an integer [z]. *)
Definition str_of_int (z : Z) : str :=
  match z with
  | Zneg p => 45%N :: digits (Npos p)
  | _ => digits (Z.to_N z)
  end.

(** *** [float(s)] for a [str] *)

(** What a string accepted by [float] denotes. *)
Inductive literal : Type :=
| LNan
| LInf (neg : bool)
| LDec (neg : bool) (mantissa : N) (e10 : Z).

(** [(["_"] digit)*]: the rest of a [digitpart] whose first digit is read. *)
Fixpoint digits_tail (s : str) : str * str :=
  match s with
  | [] => ([], [])
  | c :: s' =>
      if is_digit c then
        let (ds, r) := digits_tail s' in (c :: ds, r)
      else if (c =? 95)%N then
        match s' with
        | d :: s'' =>
            if is_digit d then
              let (ds, r) := digits_tail s'' in (d :: ds, r)
            else ([], s)
        | [] => ([], s)
        end
      else ([], s)
  end.

(** [digitpart ::= digit (["_"] digit)*], the longest one at the head of
    [s]: its digits (none when [s] starts with no digit) and what follows. *)
Definition digitpart (s : str) : str * str :=
  match s with
  | c :: s' =>
      if is_digit c then let (ds, r) := digits_tail s' in (c :: ds, r)
      else ([], s)
  | [] => ([], [])
  end.

(** An optional sign. *)
Definition sign (s : str) : bool * str :=
  match s with
  | c :: s' =>
      if (c =? 45)%N then (true, s')
      else if (c =? 43)%N then (false, s')
      else (false, s)
  | [] => (false, [])
  end.

(** [exponent ::= ("e" | "E") [sign] digitpart], or nothing. *)
Definition exponent (s : str) : option (Z * str) :=
  match s with
  | c :: s' =>
      if ((c =? 101) || (c =? 69))%N then
        let (neg, s1) := sign s' in
        match digitpart s1 with
        | ([], _) => None
        | (ds, r) =>
            let v := Z.of_N (digits_value ds) in
            Some (if neg then (- v)%Z else v, r)
        end
      else Some (0%Z, s)
  | [] => Some (0%Z, [])
  end.

(** [floatnumber ::= ([digitpart] "." digitpart | digitpart ["."]) [exponent]],
    filling the whole of [s]. *)
Definition floatnumber (neg : bool) (s : str) : option literal :=
  let (ip, r1) := digitpart s in
  let (fp, r2) :=
    match r1 with
    | c :: r => if (c =? 46)%N then digitpart r else ([], r1)
    | [] => ([], [])
    end in
  match ip ++ fp with
  | [] => None
  | ds =>
      match exponent r2 with
      | Some (e, []) =>
          Some (LDec neg (digits_value ds) (e - Z.of_nat (List.length fp)))
      | _ => None
      end
  end.

(** [floatvalue ::= [sign] (floatnumber | "inf" | "infinity" | "nan")],
    letters in either case. *)
Definition floatvalue (s : str) : option literal :=
  let (neg, r) := sign s in
  let l := lower r in
  if str_eqb l (lit "inf") || str_eqb l (lit "infinity") then Some (LInf neg)
  else if str_eqb l (lit "nan") then Some LNan
  else floatnumber neg r.

Definition float_of_literal (l : literal) : float :=
  match l with
  | LNan => nan
  | LInf neg => if neg then neg_infinity else infinity
  | LDec neg m e10 => SF2Prim (round_decimal neg m e10)
  end.

(** The white space [float] allows around the number: that of [isspace],
    the ASCII separators FS, GS, RS and US apart. *)
Definition float_space (c : char) : bool :=
  isspace c && negb ((28 <=? c) && (c <=? 31))%N.

(** [float(s)]: [None] stands for [ValueError].  Digits are the ASCII ones:
    Python also accepts the decimal digits of other scripts, which this
    model rejects. *)
Definition float_of_str (s : str) : option float :=
  option_map float_of_literal (floatvalue (strip_with float_space s)).

(** *** Formatting a [float] *)

Definition sign_str (neg : bool) : str := if neg then [45%N] else [].

(** [n] as exactly [k] digits (the low [k] digits, zero padded). *)
Fixpoint fixed_digits (k : nat) (n : N) : str :=
  match k with
  | O => []
  | S k' => fixed_digits k' (n / 10)%N ++ [(48 + n mod 10)%N]
  end.

(** [round (m * 2^e * 10^6)], ties to even. *)
Definition micro_units (m : positive) (e : Z) : N :=
  Z.to_N (if (0 <=? e)%Z then (Zpos m * 2 ^ e * 1000000)%Z
          else rne_div (Zpos m * 1000000) (2 ^ (- e))).

(** [format(x, '.6f')] *)
Definition format_6f (x : float) : str :=
  match Prim2SF x with
  | S754_nan => lit "nan"
  | S754_infinity neg => sign_str neg ++ lit "inf"
  | S754_zero neg => sign_str neg ++ lit "0.000000"
  | S754_finite neg m e =>
      let u := micro_units m e in
      sign_str neg ++ digits (u / 1000000)%N ++ [46%N]
        ++ fixed_digits 6 (u mod 1000000)%N
  end.

Definition spec_float_eqb (a b : spec_float) : bool :=
  match a, b with
  | S754_nan, S754_nan => true
  | S754_zero s, S754_zero t => Bool.eqb s t
  | S754_infinity s, S754_infinity t => Bool.eqb s t
  | S754_finite s m e, S754_finite t n f =>
      Bool.eqb s t && (m =? n)%positive && (e =? f)%Z
  | _, _ => false
  end.

(** [10^k <= n / d], for any integer [k]. *)
Definition pow10_le_ratio (k : Z) (n d : positive) : bool :=
  if (0 <=? k)%Z then (Zpos d * 10 ^ k <=? Zpos n)%Z
  else (Zpos d <=? Zpos n * 10 ^ (- k))%Z.

(** [floor (log10 (n / d))]: an estimate from the binary logarithm, set right
    by one step either way. *)
Definition ilog10_ratio (n d : positive) : Z :=
  let est := (ilog2_ratio n d * 1233 / 4096)%Z in
  if negb (pow10_le_ratio est n d) then (est - 1)%Z
  else if pow10_le_ratio (est + 1) n d then (est + 1)%Z
  else est.

(** [n / d] scaled by [10^(-k)], as a numerator and a denominator. *)
Definition scale10 (n d : positive) (k : Z) : Z * Z :=
  if (0 <=? k)%Z then (Zpos n, Zpos d * 10 ^ k)%Z
  else (Zpos n * 10 ^ (- k), Zpos d)%Z.

(** The decimal [c * 10^k] of [p] digits that [float] reads back as
    [m * 2^e] and lies nearest to it, if one of the two decimals of [p]
    digits around [m * 2^e] does ([n / d] is [m * 2^e], and [e10] its
    decimal exponent). *)
Definition candidate (m : positive) (e : Z) (n d : positive) (e10 : Z)
    (p : Z) : option (N * Z) :=
  let k := (e10 - p + 1)%Z in
  let (num, den) := scale10 n d k in
  let lo := (num / den)%Z in
  let r := (num mod den)%Z in
  let hi := (lo + 1)%Z in
  let back c :=
    spec_float_eqb (round_decimal false (Z.to_N c) k) (S754_finite false m e) in
  match back lo, back hi with
  | true, true =>
      match (2 * r ?= den)%Z with
      | Lt => Some (Z.to_N lo, k)
      | Gt => Some (Z.to_N hi, k)
      | Eq => Some (Z.to_N (if Z.even lo then lo else hi), k)
      end
  | true, false => Some (Z.to_N lo, k)
  | false, true => Some (Z.to_N hi, k)
  | false, false => None
  end.

(** [m * 2^e] written out in full: [m * 2^e * 10^0], or [m * 5^(-e) * 10^e]
    for a negative [e]. *)
Definition exact_decimal (m : positive) (e : Z) : N * Z :=
  if (0 <=? e)%Z then (Z.to_N (Zpos m * 2 ^ e), 0%Z)
  else (Z.to_N (Zpos m * 5 ^ (- e)), e).

(** The first precision, from [p] up, at which [candidate] finds a decimal.
    Seventeen digits are known to be enough for binary64; should the search
    ever end without a decimal, the number is written out in full. *)
Fixpoint shortest_from (fuel : nat) (m : positive) (e : Z) (n d : positive)
    (e10 : Z) (p : Z) : N * Z :=
  match fuel with
  | O => exact_decimal m e
  | S f =>
      match candidate m e n d e10 p with
      | Some c => c
      | None => shortest_from f m e n d e10 (p + 1)
      end
  end.

Fixpoint strip_zeros (fuel : nat) (c : N) (k : Z) : N * Z :=
  match fuel with
  | O => (c, k)
  | S f =>
      if ((c mod 10 =? 0) && negb (c =? 0))%N
      then strip_zeros f (c / 10)%N (k + 1)%Z
      else (c, k)
  end.

(** The shortest decimal [c * 10^k] that [float] reads back as [m * 2^e],
    [c] ending in no zero. *)
Definition shortest_decimal (m : positive) (e : Z) : N * Z :=
  let n := if (0 <=? e)%Z then (m * Z.to_pos (2 ^ e))%positive else m in
  let d := if (0 <=? e)%Z then 1%positive else Z.to_pos (2 ^ (- e)) in
  let (c, k) := shortest_from 17 m e n d (ilog10_ratio n d) 1 in
  strip_zeros 1100 c k.

Definition zeros (n : Z) : str := repeat 48%N (Z.to_nat n).

(** The digits [ds] with the decimal point after the first [decpt] of them
    ([0.ds * 10^decpt]), written as Python's [repr] does. *)
Definition repr_digits (ds : str) (decpt : Z) : str :=
  let len := Z.of_nat (List.length ds) in
  if ((decpt <=? -4) || (16 <? decpt))%Z then
    let x := (decpt - 1)%Z in
    let xs := digits (Z.to_N (Z.abs x)) in
    firstn 1 ds
      ++ match skipn 1 ds with [] => [] | t => 46%N :: t end
      ++ [101%N; if (x <? 0)%Z then 45%N else 43%N]
      ++ match xs with [_] => 48%N :: xs | _ => xs end
  else if (decpt <=? 0)%Z then
    [48%N; 46%N] ++ zeros (- decpt) ++ ds
  else if (len <=? decpt)%Z then
    ds ++ zeros (decpt - len) ++ [46%N; 48%N]
  else
    firstn (Z.to_nat decpt) ds ++ [46%N] ++ skipn (Z.to_nat decpt) ds.

(** [str(x)] for a numpy [float64] (and [repr(x)] for a Python [float]):
    the shortest decimal that reads back as [x]. *)
Definition float_str (x : float) : str :=
  match Prim2SF x with
  | S754_nan => lit "nan"
  | S754_infinity neg => sign_str neg ++ lit "inf"
  | S754_zero neg => sign_str neg ++ lit "0.0"
  | S754_finite neg m e =>
      let (c, k) := shortest_decimal m e in
      let ds := digits c in
      sign_str neg ++ repr_digits ds (Z.of_nat (List.length ds) + k)
  end.

End Py.

(* ================================================================= *)
(** ** numpy: one-dimensional [float64] arrays *)

Module Np.
Import Py.

Definition array := list float.

Declare Scope result_scope.
Delimit Scope result_scope with result.
Notation "x <- c ;; k" := (rbind c (fun x => k))
  (at level 61, c at next level, right associativity) : result_scope.
Local Open Scope result_scope.

(** [a[i]] for [0 <= i]. *)
Definition index (a : array) (i : nat) : result float :=
  match nth_error a i with
  | Some x => Ok x
  | None => Raise IndexError
  end.

(** [a[-1]] *)
Definition index_last (a : array) : result float :=
  match rev a with
  | x :: _ => Ok x
  | [] => Raise IndexError
  end.

(** [a[idx]] for an array of indices. *)
Fixpoint take (a : array) (idx : list nat) : result array :=
  match idx with
  | [] => Ok []
  | i :: idx' =>
      x <- index a i ;;
      xs <- take a idx' ;;
      Ok (x :: xs)
  end.

(** The order numpy sorts floating-point numbers by: NaN comes last. *)
Definition sort_lt (a b : float) : bool :=
  (a <? b)%float || (is_nan b && negb (is_nan a)).

Fixpoint insert_index (a : array) (i : nat) (sorted : list nat) : list nat :=
  match sorted with
  | [] => [i]
  | j :: rest =>
      if sort_lt (nth j a nan) (nth i a nan)
      then j :: insert_index a i rest
      else i :: sorted
  end.

(** [np.argsort(a)]: the indices of [a] in ascending order of value.
    numpy leaves the order of equal values unspecified; here they keep
    their order (an insertion sort).  When no two values are equal there is
    one ascending order only, and what is proved of the values numpy's
    sorting gives is proved under that condition. *)
Definition argsort (a : array) : list nat :=
  fold_right (insert_index a) [] (seq 0 (List.length a)).

(** The index search of [np.interp], once [xp[0] <= x <= xp[-1]] is known:
    the last [j] such that [xp[i] <= x] for every [1 <= i <= j], counted from
    [j], where [rest] is [xp[j+1:]].  This is the search numpy runs from left
    to right on up to four samples; on more it bisects, from its last
    answer, and finds the same [j] when [xp] is in ascending order.  What is
    proved of interpolated values is proved for such [xp]. *)
Fixpoint search (x : float) (rest : array) (j : nat) : nat :=
  match rest with
  | [] => j
  | y :: rest' => if (y <=? x)%float then search x rest' (S j) else j
  end.

(** The line through the samples [j] and [j + 1], at [x].  When the value
    computed from the left sample is NaN, the one computed from the right
    sample is taken, and the common value of the two samples if that is NaN
    too. *)
Definition segment (xp fp : array) (j : nat) (x : float) : float :=
  let slope :=
    ((nth (S j) fp nan - nth j fp nan)
     / (nth (S j) xp nan - nth j xp nan))%float in
  let r := (slope * (x - nth j xp nan) + nth j fp nan)%float in
  if is_nan r then
    let r' := (slope * (x - nth (S j) xp nan) + nth (S j) fp nan)%float in
    if is_nan r' && (nth j fp nan =? nth (S j) fp nan)%float
    then nth j fp nan else r'
  else r.

(** One value of [np.interp(x, xp, fp, left, right)], for [xp] and [fp] of
    the same length, at least 2: [right] above [xp[-1]], [left] below
    [xp[0]], and between them the sample at [x] or the line through the two
    samples around [x]. *)
Definition interp_at (xp fp : array) (lval rval : float) (x : float) : float :=
  if is_nan x then x
  else if (nth (List.length xp - 1) xp nan <? x)%float then rval
  else if (x <? nth 0 xp nan)%float then lval
  else
    let j := search x (tl xp) 0 in
    if (j =? List.length xp - 1)%nat then nth j fp nan
    else if (nth j xp nan =? x)%float then nth j fp nan
    else segment xp fp j x.

(** The same for a single sample [(xp0, fp0)]. *)
Definition interp_single (xp0 fp0 lval rval : float) (x : float) : float :=
  if (x <? xp0)%float then lval
  else if (xp0 <? x)%float then rval
  else fp0.

(** One value of [np.interp]: a single sample is a case of its own. *)
Definition interp_point (xp fp : array) (lval rval : float) (x : float)
    : float :=
  match xp, fp with
  | [xp0], [fp0] => interp_single xp0 fp0 lval rval x
  | _, _ => interp_at xp fp lval rval x
  end.

(** [np.interp(x, xp, fp, left=lval, right=rval)] *)
Definition interp (x xp fp : array) (lval rval : float) : result array :=
  match xp with
  | [] => Raise ValueError
  | _ =>
      if (List.length xp =? List.length fp)%nat
      then Ok (List.map (interp_point xp fp lval rval) x)
      else Raise ValueError
  end.

(** [np.interp(x, xp, fp)]: [left] and [right] default to [fp[0]] and
    [fp[-1]]. *)
Definition interp_default (x xp fp : array) : result array :=
  interp x xp fp (nth 0 fp nan) (nth (List.length fp - 1) fp nan).

Fixpoint map2 (f : float -> float -> float) (a b : array) : array :=
  match a, b with
  | x :: a', y :: b' => f x y :: map2 f a' b'
  | _, _ => []
  end.

(** An elementwise binary operation: the shapes must agree, an array of one
    element being stretched to the other's length. *)
Definition elementwise (f : float -> float -> float) (a b : array)
    : result array :=
  if (List.length a =? List.length b)%nat then Ok (map2 f a b)
  else
    match a, b with
    | _, [y] => Ok (List.map (fun x => f x y) a)
    | [x], _ => Ok (List.map (fun y => f x y) b)
    | _, _ => Raise ValueError
    end.

Definition add := elementwise PrimFloat.add.
Definition sub := elementwise PrimFloat.sub.

(** [a / c] for a scalar [c]. *)
Definition div_scalar (a : array) (c : float) : array :=
  List.map (fun x => (x / c)%float) a.

End Np.

(* ================================================================= *)
(** ** app.py *)

Module App.
Import Py Np.
Local Open Scope result_scope.

(** A parsed file: frequencies (GHz), real parts, imaginary parts. *)
Definition trace : Type := array * array * array.

(** *** parse_s_param *)

(** The three lists the parser appends to. *)
Record lists : Type := mkLists {
  freq : list float;
  s_real : list float;
  s_imag : list float
}.

(** How a block of statements ends: normally, by [continue], or by an
    exception. *)
Inductive completion (A : Type) : Type :=
| Normal (a : A)
| Continue
| Raised (e : exn).
Arguments Normal {A} a.
Arguments Continue {A}.
Arguments Raised {A} e.

(** A block of the loop body: it may change the lists, and what it has
    changed stays changed however it ends. *)
Definition stmt (A : Type) : Type := lists -> completion A * lists.

Definition ret {A} (a : A) : stmt A := fun st => (Normal a, st).

Definition bind {A B} (c : stmt A) (k : A -> stmt B) : stmt B :=
  fun st =>
    match c st with
    | (Normal a, st') => k a st'
    | (Continue, st') => (Continue, st')
    | (Raised e, st') => (Raised e, st')
    end.

Declare Scope stmt_scope.
Delimit Scope stmt_scope with stmt.
Notation "x <- c ;; k" := (bind c (fun x => k))
  (at level 61, c at next level, right associativity) : stmt_scope.
Notation "c ;; k" := (bind c (fun _ => k))
  (at level 61, right associativity) : stmt_scope.

Definition continue {A} : stmt A := fun st => (Continue, st).
Definition raise {A} (e : exn) : stmt A := fun st => (Raised e, st).

(** [data[i]] *)
Definition item (data : list str) (i : nat) : stmt str :=
  match nth_error data i with
  | Some t => ret t
  | None => raise IndexError
  end.

Definition freq_append (x : float) : stmt unit :=
  fun st => (Normal tt, mkLists (freq st ++ [x]) (s_real st) (s_imag st)).
Definition s_real_append (x : float) : stmt unit :=
  fun st => (Normal tt, mkLists (freq st) (s_real st ++ [x]) (s_imag st)).
Definition s_imag_append (x : float) : stmt unit :=
  fun st => (Normal tt, mkLists (freq st) (s_real st) (s_imag st ++ [x])).

(** [try: body except (ValueError, IndexError): continue] *)
Definition try_except_continue (body : stmt unit) : stmt unit :=
  fun st =>
    match body st with
    | (Raised ValueError, st') => (Continue, st')
    | (Raised IndexError, st') => (Continue, st')
    | r => r
    end.

(** [for line in lines: body] *)
Fixpoint for_each (body : str -> stmt unit) (lines : list str) : stmt unit :=
  match lines with
  | [] => ret tt
  | line :: rest =>
      fun st =>
        match body line st with
        | (Raised e, st') => (Raised e, st')
        | (_, st') => for_each body rest st'
        end
  end.

Definition is_s1p_name (filename : str) : bool :=
  endswith (lower filename) (lit ".s1p")
  || endswith (lower filename) (lit ".cal").

Section Parser.

(** The builtin [float] applied to a [str]: [None] stands for
    [ValueError].  The parser is written for any such conversion;
    [Py.float_of_str] is the one used to run it. *)
Variable to_float : str -> option float.

(** [float(s)] *)
Definition float_ (s : str) : stmt float :=
  match to_float s with
  | Some x => ret x
  | None => raise ValueError
  end.

Local Open Scope stmt_scope.

(** The body of the [try] statement. *)
Definition try_body (is_s1p : bool) (data : list str) : stmt unit :=
  d0 <- item data 0 ;;
  x0 <- float_ d0 ;;
  let f_ghz := (x0 / 1e9)%float in
  reim <-
    (if is_s1p then
       d1 <- item data 1 ;;
       re <- float_ d1 ;;
       d2 <- item data 2 ;;
       im <- float_ d2 ;;
       ret (re, im)
     else
       if (List.length data <? 5)%nat then continue
       else
         d3 <- item data 3 ;;
         re <- float_ d3 ;;
         d4 <- item data 4 ;;
         im <- float_ d4 ;;
         ret (re, im)) ;;
  freq_append f_ghz ;;
  s_real_append (fst reim) ;;
  s_imag_append (snd reim).

(** The body of the [for] loop. *)
Definition loop_body (is_s1p : bool) (line : str) : stmt unit :=
  let line := strip line in
  if match line with [] => true | _ => false end
     || startswith line (lit "#") || startswith line (lit "!")
  then continue
  else
    let data := split line in
    if (List.length data <? 3)%nat then continue
    else try_except_continue (try_body is_s1p data).

Definition parse_s_param (file_content : bytes) (filename : str)
    : result trace :=
  let is_s1p := is_s1p_name filename in
  let lines := splitlines (decode file_content) in
  match for_each (loop_body is_s1p) lines (mkLists [] [] []) with
  | (Raised e, _) => Raise e
  | (_, st) => Ok (freq st, s_real st, s_imag st)
  end.

End Parser.

(** *** apply_reduction *)

Definition apply_reduction (freq mag_db red_freq red_mag_db : array)
    : result array :=
  if (List.length red_freq =? 0)%nat || (List.length red_mag_db =? 0)%nat
  then Ok mag_db
  else
    let sort_idx := argsort red_freq in
    red_freq' <- take red_freq sort_idx ;;
    red_mag_db' <- take red_mag_db sort_idx ;;
    left <- index red_mag_db' 0 ;;
    right <- index_last red_mag_db' ;;
    red_interp <- interp freq red_freq' red_mag_db' left right ;;
    Np.sub mag_db red_interp.

(** *** criar_media *)

(** What [criar_media] hands back: [(None, None)] after [st.error(msg)], or
    the name and the bytes of the new file. *)
Inductive media : Type :=
| MediaNone (msg : str)
| MediaFile (nome_media : str) (media_content : bytes).

(** "Um dos arquivos está vazio ou inválido." *)
Definition msg_vazio : str :=
  lit "Um dos arquivos est" ++ [225%N] ++ lit " vazio ou inv" ++ [225%N]
    ++ lit "lido.".

(** [f"Média_{file1_name}_{file2_name}.s2p"] *)
Definition nome_media (file1_name file2_name : str) : str :=
  lit "M" ++ [233%N] ++ lit "dia_" ++ file1_name ++ lit "_" ++ file2_name
    ++ lit ".s2p".

(** Lines 91-97: the second trace brought onto the first one's frequencies
    when their lengths differ, then the two means. *)
Definition media_trace (t1 t2 : trace) : result trace :=
  let '(freq1, re1, im1) := t1 in
  let '(freq2, re2, im2) := t2 in
  re2' <- (if negb (List.length freq1 =? List.length freq2)%nat
           then interp_default freq1 freq2 re2 else Ok re2) ;;
  im2' <- (if negb (List.length freq1 =? List.length freq2)%nat
           then interp_default freq1 freq2 im2 else Ok im2) ;;
  re_sum <- Np.add re1 re2' ;;
  let re_mean := div_scalar re_sum 2%float in
  im_sum <- Np.add im1 im2' ;;
  let im_mean := div_scalar im_sum 2%float in
  let freq_mean := freq1 in
  Ok (freq_mean, re_mean, im_mean).

(** One data row:
    [f"{f_hz} 0 0 {re_mean[i]:.6f} {im_mean[i]:.6f} 0 0 0 0\n".encode()] *)
Definition media_row (freq_mean re_mean im_mean : array) (i : nat)
    : result bytes :=
  f <- index freq_mean i ;;
  let f_hz := (f * 1e9)%float in
  re <- index re_mean i ;;
  im <- index im_mean i ;;
  encode (float_str f_hz ++ lit " 0 0 " ++ format_6f re ++ lit " "
            ++ format_6f im ++ lit " 0 0 0 0" ++ [10%N]).

(** [for i in range(...): output.write(row i)], from what is written so
    far. *)
Fixpoint media_rows (freq_mean re_mean im_mean : array) (rng : list nat)
    (output : bytes) : result bytes :=
  match rng with
  | [] => Ok output
  | i :: rng' =>
      line <- media_row freq_mean re_mean im_mean i ;;
      media_rows freq_mean re_mean im_mean rng' (output ++ line)
  end.

(** Lines 101-109: the file written for a trace. *)
Definition media_bytes (t : trace) : result bytes :=
  let '(freq_mean, re_mean, im_mean) := t in
  let output := [] in
  let output := output ++ bytes_of_string "!File created by Averaging App
" in
  let output := output ++ bytes_of_string "# Hz S RI R 50
" in
  media_rows freq_mean re_mean im_mean (seq 0 (List.length freq_mean)) output.

Section Media.

Variable to_float : str -> option float.

Definition criar_media (file1_content : bytes) (file1_name : str)
    (file2_content : bytes) (file2_name : str) : result media :=
  t1 <- parse_s_param to_float file1_content file1_name ;;
  t2 <- parse_s_param to_float file2_content file2_name ;;
  let '(freq1, re1, im1) := t1 in
  let '(freq2, re2, im2) := t2 in
  if (List.length freq1 =? 0)%nat || (List.length freq2 =? 0)%nat
  then Ok (MediaNone msg_vazio)
  else
    m <- media_trace t1 t2 ;;
    media_content <- media_bytes m ;;
    Ok (MediaFile (nome_media file1_name file2_name) media_content).

End Media.

(** *** The "Gerar Gráfico" handler: the grouping block *)

Definition file_data : Type := str * bytes.

(** A call [plot_files(files_data, titulo, red_freq, red_mag_db, flags)];
    the reduction curve is the same in every call and is left out. *)
Inductive plot_call : Type :=
| PlotFiles (files_data : list file_data) (titulo : str)
    (apply_reduction_flags : list bool).

Fixpoint range_up (fuel : nat) (i stop step : Z) : list Z :=
  match fuel with
  | O => []
  | S f => if (i <? stop)%Z then i :: range_up f (i + step)%Z stop step else []
  end.

(** [range(0, stop, step)] for [0 <= stop] and [step <> 0]: empty when
    [step] is negative. *)
Definition range0 (stop step : Z) : list Z :=
  if (0 <? step)%Z then range_up (Z.to_nat stop) 0 stop step else [].

(** [l[i:i + n]] for [0 <= i] and [0 <= n]. *)
Definition slice {A} (l : list A) (i n : Z) : list A :=
  firstn (Z.to_nat n) (skipn (Z.to_nat i) l).

(** [f"{titulo} - Parte {i//max_por + 1}"] *)
Definition titulo_grupo (titulo : str) (i max_por : Z) : str :=
  titulo ++ lit " - Parte " ++ str_of_int (i / max_por + 1).

(** Lines 193-197: one call of [plot_files] per group. *)
Definition plot_groups (files_data_list : list file_data)
    (apply_flags : list bool) (titulo : str) (max_por : Z) : list plot_call :=
  List.map
    (fun i =>
       let grupo := slice files_data_list i max_por in
       let grupo_flags := slice apply_flags i max_por in
       PlotFiles grupo (titulo_grupo titulo i max_por) grupo_flags)
    (range0 (Z.of_nat (List.length files_data_list)) max_por).

Definition LIMITE : nat := 10.

(** Lines 188-200, run when the button is pressed and files are loaded.
    [agrupar] is the answer of the radio button.  [simpledialog] is what the
    global name [simpledialog] is bound to: [None] when it is not bound,
    otherwise the answer of [askinteger] (an integer, or [None] when the
    dialog is cancelled).  The calls of [plot_files] are returned in order;
    after the groups, [st.stop()] ends the run. *)
Definition gerar_grafico (simpledialog : option (option Z))
    (files_data_list : list file_data) (apply_flags : list bool)
    (titulo : str) (agrupar : str) : result (list plot_call) :=
  if (LIMITE <? List.length files_data_list)%nat
     && str_eqb agrupar (lit "Sim")
  then
    match simpledialog with
    | None => Raise NameError
    | Some answer =>
        let max_por :=
          match answer with
          | Some n => if (n =? 0)%Z then 10%Z else n
          | None => 10%Z
          end in
        Ok (plot_groups files_data_list apply_flags titulo max_por)
    end
  else Ok [PlotFiles files_data_list titulo apply_flags].

(** app.py imports streamlit, numpy, matplotlib.pyplot, pandas and io, and
    defines its four functions: the name [simpledialog] is bound nowhere. *)
Definition app_simpledialog : option (option Z) := None.

(** *** plot_files *)

(** A curve handed to [ax.plot(freq, mag_db, label=filename)]: the two
    arrays must have one length. *)
Definition curve : Type := array * array * str.

Definition ax_plot (x y : array) (label : str) : result curve :=
  if (List.length x =? List.length y)%nat then Ok (x, y, label)
  else Raise ValueError.

(** What the page holds in [red_freq] and [red_mag_db] after lines 147-152:
    [None] and [None] when no reduction file is uploaded; an empty array and
    [None] when the file uploaded gives no point; otherwise the frequencies
    of the file and the magnitudes computed from it. *)
Inductive reduction : Type :=
| NoReduction
| EmptyReduction
| Reduction (red_freq red_mag_db : array).

(** [apply_reduction_flags[idx]] *)
Definition flag_at (apply_reduction_flags : list bool) (idx : nat)
    : result bool :=
  match nth_error apply_reduction_flags idx with
  | Some b => Ok b
  | None => Raise IndexError
  end.

Section Plot.

Variable to_float : str -> option float.

(** [np.log10] on one binary64 value.  The primitive operations have no
    logarithm: the function is a parameter. *)
Variable log10 : float -> float.

(** [20 * np.log10(np.sqrt(s_real**2 + s_imag**2 + 1e-12))]: numpy squares
    for the exponent 2 (the product of the value with itself), and the sum
    of the two arrays needs one shape. *)
Definition magnitude_db (s_real s_imag : array) : result array :=
  let re2 := List.map (fun x => (x * x)%float) s_real in
  let im2 := List.map (fun x => (x * x)%float) s_imag in
  s <- Np.add re2 im2 ;;
  Ok (List.map
        (fun x => (20 * log10 (PrimFloat.sqrt (x + 1e-12)))%float) s).

(** Lines 68-69: [if apply_reduction_flags[idx] and red_freq is not None:
    mag_db = apply_reduction(freq, mag_db, red_freq, red_mag_db)].  With an
    empty [red_freq], [apply_reduction] hands [mag_db] back at its first
    test, before it looks at [red_mag_db]. *)
Definition reduced (red : reduction) (flag : bool) (freq mag_db : array)
    : result array :=
  if flag then
    match red with
    | NoReduction => Ok mag_db
    | EmptyReduction => Ok mag_db
    | Reduction red_freq red_mag_db =>
        apply_reduction freq mag_db red_freq red_mag_db
    end
  else Ok mag_db.

(** The loop of lines 61-71, from index [idx]: the curves plotted, in
    order. *)
Fixpoint plot_loop (files_data : list file_data) (idx : nat)
    (red : reduction) (apply_reduction_flags : list bool)
    : result (list curve) :=
  match files_data with
  | [] => Ok []
  | (filename, file_content) :: rest =>
      t <- parse_s_param to_float file_content filename ;;
      let '(freq, s_real, s_imag) := t in
      if (List.length freq =? 0)%nat
      then plot_loop rest (S idx) red apply_reduction_flags
      else
        mag_db <- magnitude_db s_real s_imag ;;
        flag <- flag_at apply_reduction_flags idx ;;
        mag_db <- reduced red flag freq mag_db ;;
        c <- ax_plot freq mag_db filename ;;
        cs <- plot_loop rest (S idx) red apply_reduction_flags ;;
        Ok (c :: cs)
  end.

(** [plot_files]: the figure shown by [st.pyplot], its title and its
    curves. *)
Definition plot_files (files_data : list file_data) (titulo : str)
    (red : reduction) (apply_reduction_flags : list bool)
    : result (str * list curve) :=
  curves <- plot_loop files_data 0 red apply_reduction_flags ;;
  Ok (titulo, curves).

(** Lines 147-152: the reduction curve of the file uploaded, if any. *)
Definition load_reduction (red_upload : option file_data) : result reduction :=
  match red_upload with
  | None => Ok NoReduction
  | Some (name, red_content) =>
      t <- parse_s_param to_float red_content name ;;
      let '(red_freq, red_real, red_imag) := t in
      if (0 <? List.length red_freq)%nat then
        red_mag_db <- magnitude_db red_real red_imag ;;
        Ok (Reduction red_freq red_mag_db)
      else Ok EmptyReduction
  end.

End Plot.

End App.

(* ================================================================= *)
(** ** app.py: the page (lines 116-204) *)

Module Page.
Import Py Np App.

(** *** Python dictionaries with [str] keys

    A [dict] keeps its keys in the order of their first insertion; assigning
    to a key that is there replaces the value where it stands. *)
Section Dict.

Context {V : Type}.

Definition dict : Type := list (str * V).

(** [d.get(k)] *)
Fixpoint get (d : dict) (k : str) : option V :=
  match d with
  | [] => None
  | (k', v) :: d' => if str_eqb k k' then Some v else get d' k
  end.

(** [k in d] *)
Definition mem (d : dict) (k : str) : bool :=
  match get d k with Some _ => true | None => false end.

(** [d[k] = v] *)
Fixpoint set (d : dict) (k : str) (v : V) : dict :=
  match d with
  | [] => [(k, v)]
  | (k', v') :: d' =>
      if str_eqb k k' then (k', v) :: d' else (k', v') :: set d' k v
  end.

(** [del d[k]]: [None] stands for [KeyError]. *)
Fixpoint del (d : dict) (k : str) : option dict :=
  match d with
  | [] => None
  | (k', v') :: d' =>
      if str_eqb k k' then Some d'
      else match del d' k with
           | Some d'' => Some ((k', v') :: d'')
           | None => None
           end
  end.

(** [list(d)], [list(d.keys())] *)
Definition keys (d : dict) : list str := List.map fst d.

End Dict.

Arguments dict V : clear implicits.

(** *** The session state and a run of the page *)

(** [st.session_state]: the keys ['files_data'] and ['apply_reduction'],
    each there or not. *)
Record session : Type := mkSession {
  state_files_data : option (dict bytes);
  state_apply_reduction : option (dict bool)
}.

(** How a block of the page ends: normally, with [KeyError] (a key of the
    session state or of one of its two dictionaries is missing), or with an
    exception of the functions called. *)
Inductive run (A : Type) : Type :=
| Done (a : A)
| KeyError
| Failed (e : exn).
Arguments Done {A} a.
Arguments KeyError {A}.
Arguments Failed {A} e.

Definition run_bind {A B} (r : run A) (k : A -> run B) : run B :=
  match r with
  | Done a => k a
  | KeyError => KeyError
  | Failed e => Failed e
  end.

Declare Scope run_scope.
Delimit Scope run_scope with run.
Notation "x <- c ;; k" := (run_bind c (fun x => k))
  (at level 61, c at next level, right associativity) : run_scope.
Local Open Scope run_scope.

(** [st.session_state[key]] for a key that may be missing. *)
Definition state_item {A} (v : option A) : run A :=
  match v with
  | Some a => Done a
  | None => KeyError
  end.

(** [st.session_state.get('files_data', {})] *)
Definition files_data_or_empty (s : session) : dict bytes :=
  match state_files_data s with
  | Some d => d
  | None => []
  end.

(** *** Lines 120-126: the files uploaded *)

(** [{file.name: False for file in uploaded_files}] *)
Definition all_false (uploaded_files : list file_data) : dict bool :=
  fold_left (fun d file => set d (fst file) false) uploaded_files [].

(** The body of the loop, for one file: [file.read()] is the file's
    content. *)
Definition upload_file (uploaded_files : list file_data) (s : session)
    (file : file_data) : session :=
  if mem (files_data_or_empty s) (fst file) then s
  else
    let files_data := files_data_or_empty s in
    mkSession (Some (set files_data (fst file) (snd file)))
              (Some (all_false uploaded_files)).

Definition upload (uploaded_files : list file_data) (s : session) : session :=
  fold_left (upload_file uploaded_files) uploaded_files s.

(** *** Lines 130-141: the list of files, its boxes and its buttons *)

Section Widgets.

(** [col2.checkbox("Aplicar redução", value=v, key=f"apply_{filename}")],
    as a function of the file name and of [v]. *)
Variable checkbox : str -> bool -> bool.

(** [col3.button("Remover", key=f"remove_{filename}")] *)
Variable remover : str -> bool.

(** The first loop: the flags set from the boxes, and the names to
    remove. *)
Fixpoint list_files (names : list str) (s : session)
    (files_to_remove : list str) : run (session * list str) :=
  match names with
  | [] => Done (s, files_to_remove)
  | filename :: rest =>
      flags <- state_item (state_apply_reduction s) ;;
      let value := match get flags filename with
                   | Some b => b
                   | None => false
                   end in
      let s' := mkSession (state_files_data s)
                  (Some (set flags filename (checkbox filename value))) in
      list_files rest s'
        (if remover filename then files_to_remove ++ [filename]
         else files_to_remove)
  end.

(** The second loop: the two [del] statements for each name. *)
Fixpoint remove_files (files_to_remove : list str) (s : session)
    : run session :=
  match files_to_remove with
  | [] => Done s
  | filename :: rest =>
      files_data <- state_item (state_files_data s) ;;
      files_data' <- state_item (del files_data filename) ;;
      let s' := mkSession (Some files_data') (state_apply_reduction s) in
      flags <- state_item (state_apply_reduction s') ;;
      flags' <- state_item (del flags filename) ;;
      remove_files rest (mkSession (Some files_data') (Some flags'))
  end.

Definition list_block (s : session) : run session :=
  match state_files_data s with
  | None => Done s
  | Some files_data =>
      r <- list_files (keys files_data) s [] ;;
      remove_files (snd r) (fst r)
  end.

End Widgets.

(** *** Lines 156-178: the mean of the last two files *)

(** What the block shows: [st.success] with the download button,
    [st.error] (from [criar_media]), [st.warning], or nothing. *)
Inductive notice : Type :=
| Success (nome_media : str) (media_content : bytes)
| Error (msg : str)
| Warning
| Nothing.

Section Media.

Variable to_float : str -> option float.

Definition media_block (button : bool) (s : session)
    : run (session * notice) :=
  if button then
    if (2 <=? List.length (files_data_or_empty s))%nat then
      files_data <- state_item (state_files_data s) ;;
      let files_list := keys files_data in
      let file1_name := nth (List.length files_list - 2) files_list [] in
      let file2_name := nth (List.length files_list - 1) files_list [] in
      file1_content <- state_item (get files_data file1_name) ;;
      file2_content <- state_item (get files_data file2_name) ;;
      match criar_media to_float file1_content file1_name
              file2_content file2_name with
      | Raise e => Failed e
      | Ok (MediaNone msg) => Done (s, Error msg)
      | Ok (MediaFile nome_media media_content) =>
          match media_content with
          | [] => Done (s, Nothing)
          | _ :: _ =>
              let s' := mkSession
                          (Some (set files_data nome_media media_content))
                          (state_apply_reduction s) in
              flags <- state_item (state_apply_reduction s') ;;
              Done (mkSession (state_files_data s')
                      (Some (set flags nome_media false)),
                    Success nome_media media_content)
          end
      end
    else Done (s, Warning)
  else Done (s, Nothing).

(** *** Lines 184-204: the chart *)

Variable log10 : float -> float.

(** [[st.session_state['apply_reduction'][name] for name, _ in
    files_data_list]] *)
Fixpoint apply_flags_of (flags : dict bool) (files_data_list : list file_data)
    : run (list bool) :=
  match files_data_list with
  | [] => Done []
  | (name, _) :: rest =>
      b <- state_item (get flags name) ;;
      bs <- apply_flags_of flags rest ;;
      Done (b :: bs)
  end.

(** The calls of [plot_files], one after the other. *)
Fixpoint plot_calls (red : reduction) (calls : list plot_call)
    : run (list (str * list curve)) :=
  match calls with
  | [] => Done []
  | PlotFiles files_data titulo flags :: rest =>
      match plot_files to_float log10 files_data titulo red flags with
      | Raise e => Failed e
      | Ok fig => figs <- plot_calls red rest ;; Done (fig :: figs)
      end
  end.

(** What the block shows: the figures, or the warning. *)
Inductive chart : Type :=
| Figures (figs : list (str * list curve))
| NoFiles
| NoChart.

(** The handler of the button, with the page's own [simpledialog] (which is
    bound to nothing): [agrupar] is the answer of the radio button, asked
    for only when there are more than ten files. *)
Definition chart_block (button : bool) (titulo agrupar : str)
    (red : reduction) (s : session) : run chart :=
  if button then
    match state_files_data s with
    | Some ((_ :: _) as files_data_list) =>
        flags <- state_item (state_apply_reduction s) ;;
        apply_flags <- apply_flags_of flags files_data_list ;;
        match gerar_grafico app_simpledialog files_data_list apply_flags
                titulo agrupar with
        | Raise e => Failed e
        | Ok calls => figs <- plot_calls red calls ;; Done (Figures figs)
        end
    | _ => Done NoFiles
    end
  else Done NoChart.

(** *** One run of the script *)

(** What the user and the browser give to one run. *)
Record inputs : Type := mkInputs {
  uploaded_files : list file_data;
  checkbox : str -> bool -> bool;
  remover : str -> bool;
  red_upload : option file_data;
  media_button : bool;
  titulo : str;
  chart_button : bool;
  agrupar : str
}.

(** The blocks that change the session state, in the order of the script:
    lines 120-126, 130-141 and 156-178. *)
Definition page_state (i : inputs) (s : session) : run (session * notice) :=
  let s := upload (uploaded_files i) s in
  s <- list_block (checkbox i) (remover i) s ;;
  media_block (media_button i) s.

(** The reduction curve (lines 147-152, which change no state) and the
    chart (lines 184-204), on the state the run has reached. *)
Definition page_chart (i : inputs) (s : session) : run chart :=
  match load_reduction to_float log10 (red_upload i) with
  | Raise e => Failed e
  | Ok red => chart_block (chart_button i) (titulo i) (agrupar i) red s
  end.

End Media.

End Page.


(* ================================================================= *)
(** ** The specification's reading of a data line (spec, section 4.1) *)

Module Spec.
Import Py Np.

Definition point : Type := float * float * float.

(** One line of a file, in the specification's words: skipped if empty after
    trimming or if it begins with [#] or [!]; otherwise split on white
    space; 1-port mode takes tokens 0, 1, 2 and 2-port mode tokens 0, 3, 4;
    a line with too few tokens or a token that does not convert is skipped;
    the frequency is divided by 1e9. *)
Definition data_point (to_float : str -> option float) (one_port : bool)
    (line : str) : option point :=
  let line := strip line in
  if match line with [] => true | _ => false end
     || startswith line (lit "#") || startswith line (lit "!")
  then None
  else
    match one_port, split line with
    | true, t0 :: t1 :: t2 :: _ =>
        match to_float t0, to_float t1, to_float t2 with
        | Some f, Some re, Some im => Some ((f / 1e9)%float, re, im)
        | _, _, _ => None
        end
    | false, t0 :: _ :: _ :: t3 :: t4 :: _ =>
        match to_float t0, to_float t3, to_float t4 with
        | Some f, Some re, Some im => Some ((f / 1e9)%float, re, im)
        | _, _, _ => None
        end
    | _, _ => None
    end.

(** The points of a sequence of lines, in order. *)
Fixpoint data_points (to_float : str -> option float) (one_port : bool)
    (lines : list str) : list point :=
  match lines with
  | [] => []
  | l :: rest =>
      match data_point to_float one_port l with
      | Some p => p :: data_points to_float one_port rest
      | None => data_points to_float one_port rest
      end
  end.

Definition freq_of (p : point) : float := fst (fst p).
Definition real_of (p : point) : float := snd (fst p).
Definition imag_of (p : point) : float := snd p.

End Spec.

(* ================================================================= *)
(** ** The parser *)

Import Py Np App.

Section ParserFacts.

Variable to_float : str -> option float.

(** The lists after one more point. *)
Definition push (st : lists) (p : Spec.point) : lists :=
  mkLists (freq st ++ [Spec.freq_of p]) (s_real st ++ [Spec.real_of p])
          (s_imag st ++ [Spec.imag_of p]).

(** The loop body never lets an exception out: it appends the point of the
    line to all three lists, or leaves them as they are. *)
Lemma loop_body_data_point (is_s1p : bool) (line : str) (st : lists) :
  loop_body to_float is_s1p line st =
  match Spec.data_point to_float is_s1p line with
  | Some p => (Normal tt, push st p)
  | None => (Continue, st)
  end.
Proof.
  unfold loop_body, Spec.data_point.
  destruct (_ || _ || _); [reflexivity|].
  destruct (split (strip line)) as [|d0 [|d1 [|d2 rest]]]; simpl;
    try (destruct is_s1p; reflexivity).
  unfold try_except_continue, try_body, bind, item, float_, ret, raise; simpl.
  destruct is_s1p; simpl.
  - destruct (to_float d0); simpl; [|reflexivity].
    destruct (to_float d1); simpl; [|reflexivity].
    destruct (to_float d2); simpl; reflexivity.
  - destruct rest as [|d3 [|d4 rest]]; simpl.
    + destruct (to_float d0); reflexivity.
    + destruct (to_float d0); reflexivity.
    + destruct (to_float d0); simpl; [|reflexivity].
      destruct (to_float d3); simpl; [|reflexivity].
      destruct (to_float d4); simpl; reflexivity.
Qed.

Lemma for_each_data_points (is_s1p : bool) (lines : list str) (st : lists) :
  for_each (loop_body to_float is_s1p) lines st =
  (Normal tt,
   fold_left push (Spec.data_points to_float is_s1p lines) st).
Proof.
  revert st. induction lines as [|l rest IH]; intros st; simpl.
  - reflexivity.
  - rewrite loop_body_data_point.
    destruct (Spec.data_point to_float is_s1p l); simpl; apply IH.
Qed.

Lemma fold_push (pts : list Spec.point) (st : lists) :
  fold_left push pts st =
  mkLists (freq st ++ List.map Spec.freq_of pts)
          (s_real st ++ List.map Spec.real_of pts)
          (s_imag st ++ List.map Spec.imag_of pts).
Proof.
  revert st. induction pts as [|p pts IH]; intros [f r i]; simpl.
  - now rewrite !app_nil_r.
  - rewrite IH. simpl. now rewrite <- !app_assoc.
Qed.

(** The parser computes the points of the file's lines, in file order. *)
Lemma parse_s_param_points (file_content : bytes) (filename : str) :
  parse_s_param to_float file_content filename =
  let pts := Spec.data_points to_float (is_s1p_name filename)
               (splitlines (decode file_content)) in
  Ok (List.map Spec.freq_of pts, List.map Spec.real_of pts,
      List.map Spec.imag_of pts).
Proof.
  unfold parse_s_param. rewrite for_each_data_points, fold_push. reflexivity.
Qed.

End ParserFacts.

Set Warnings "-inexact-float".

(** C2. Parser totality and Trace invariant: for every byte sequence and
    every file name (and whatever the conversion [float] accepts), the parser
    returns normally, with three sequences of the same length.  No exception
    escapes: undecodable bytes are dropped by the decoder, and short lines
    and tokens that do not convert are skipped.  When nothing converts, and
    on the empty file, the result is three empty sequences. *)
Theorem parse_s_param_total :
  forall (to_float : str -> option float) (file_content : bytes)
         (filename : str),
    (exists f r i,
        parse_s_param to_float file_content filename = Ok (f, r, i)
        /\ List.length f = List.length r
        /\ List.length r = List.length i)
    /\ parse_s_param (fun _ => None) file_content filename = Ok ([], [], [])
    /\ parse_s_param to_float [] filename = Ok ([], [], []).
Proof.
  intros to_float file_content filename. split; [|split].
  - rewrite parse_s_param_points. cbv zeta.
    eexists _, _, _. split; [reflexivity|].
    now rewrite !length_map.
  - rewrite parse_s_param_points. cbv zeta.
    assert (E : forall b ls, Spec.data_points (fun _ => None) b ls = []).
    { intros b ls. induction ls as [|l ls IH]; simpl; [reflexivity|].
      replace (Spec.data_point (fun _ => None) b l) with (@None Spec.point);
        [exact IH|].
      unfold Spec.data_point. destruct (_ || _ || _); [reflexivity|].
      destruct b, (split (strip l)) as [|? [|? [|? [|? [|? ?]]]]];
        reflexivity. }
    now rewrite E.
  - reflexivity.
Qed.

(** The example line of the specification. *)
Definition example_line : string :=
  "1000000000 0.1 0.2 0.3 0.4 0.5 0.6 0.7 0.8".

(** C3, as stated, fails: the suffix test is made on the lower-cased name, so
    a file called [A.S1P], which does not end in [.s1p] or [.cal], is read in
    1-port mode, and the example line gives real 0.1 and imag 0.2. *)
Lemma column_selection_case_counterexample :
  ~ (forall filename : str,
        endswith filename (lit ".s1p") = false ->
        endswith filename (lit ".cal") = false ->
        parse_s_param float_of_str (bytes_of_string example_line) filename
        = Ok ([1%float], [0.3%float], [0.4%float])).
Proof.
  intros H. specialize (H (lit "A.S1P") eq_refl eq_refl).
  vm_compute in H. discriminate H.
Qed.

(** C3 (amended). 2-port column selection and unit conversion: for every
    file name whose lower-cased form ends in neither [.s1p] nor [.cal], the
    file parses to the points of its lines read in 2-port mode, and a line
    that is not skipped and has at least 5 tokens, of which tokens 0, 3 and 4
    convert, appends frequency = token 0 / 1e9, real = token 3 and imag =
    token 4; the example line parses to frequency 1.0, real 0.3, imag 0.4. *)
Theorem two_port_column_selection :
  forall (to_float : str -> option float) (filename : str),
    is_s1p_name filename = false ->
    (forall file_content,
        parse_s_param to_float file_content filename =
        let pts := Spec.data_points to_float false
                     (splitlines (decode file_content)) in
        Ok (List.map Spec.freq_of pts, List.map Spec.real_of pts,
            List.map Spec.imag_of pts))
    /\ (forall line t0 t1 t2 t3 t4 rest f re im st,
           split (strip line) = t0 :: t1 :: t2 :: t3 :: t4 :: rest ->
           startswith (strip line) (lit "#") = false ->
           startswith (strip line) (lit "!") = false ->
           to_float t0 = Some f ->
           to_float t3 = Some re ->
           to_float t4 = Some im ->
           loop_body to_float false line st
           = (Normal tt, push st ((f / 1e9)%float, re, im)))
    /\ parse_s_param float_of_str (bytes_of_string example_line) filename
       = Ok ([1%float], [0.3%float], [0.4%float]).
Proof.
  intros to_float filename Hname. split; [|split].
  - intros file_content. rewrite parse_s_param_points, Hname. reflexivity.
  - intros line t0 t1 t2 t3 t4 rest f re im st Hsplit Hhash Hbang H0 H3 H4.
    rewrite loop_body_data_point. unfold Spec.data_point.
    rewrite Hsplit, Hhash, Hbang, H0, H3, H4.
    destruct (strip line); [discriminate Hsplit|]. reflexivity.
  - rewrite parse_s_param_points, Hname. vm_compute. reflexivity.
Qed.

Lemma two_port_column_selection_witness :
  is_s1p_name (lit "a.s2p") = false
  /\ parse_s_param float_of_str (bytes_of_string example_line) (lit "a.s2p")
     = Ok ([1%float], [0.3%float], [0.4%float]).
Proof.
  split; [reflexivity|].
  exact (proj2 (proj2 (two_port_column_selection float_of_str
                         (lit "a.s2p") eq_refl))).
Defined.

(** C10. 2-port parsing ignores the S11 pair: on a line with at least 5
    tokens read in 2-port mode, only tokens 0, 3 and 4 are converted.  When
    they convert the line contributes its point whatever tokens 1 and 2 are,
    and the outcome is the same under any conversion that agrees on tokens
    0, 3 and 4. *)
Theorem two_port_ignores_s11 :
  forall (to_float : str -> option float) line t0 t1 t2 t3 t4 rest f re im st,
    split (strip line) = t0 :: t1 :: t2 :: t3 :: t4 :: rest ->
    startswith (strip line) (lit "#") = false ->
    startswith (strip line) (lit "!") = false ->
    to_float t0 = Some f ->
    to_float t3 = Some re ->
    to_float t4 = Some im ->
    loop_body to_float false line st
    = (Normal tt, push st ((f / 1e9)%float, re, im))
    /\ forall to_float' : str -> option float,
        to_float' t0 = to_float t0 ->
        to_float' t3 = to_float t3 ->
        to_float' t4 = to_float t4 ->
        loop_body to_float' false line st = loop_body to_float false line st.
Proof.
  intros to_float line t0 t1 t2 t3 t4 rest f re im st
         Hsplit Hhash Hbang H0 H3 H4.
  assert (Hne : match strip line with [] => true | _ => false end = false).
  { destruct (strip line); [discriminate Hsplit|reflexivity]. }
  split.
  - rewrite loop_body_data_point. unfold Spec.data_point.
    now rewrite Hsplit, Hhash, Hbang, H0, H3, H4, Hne.
  - intros to_float' E0 E3 E4.
    rewrite !loop_body_data_point. unfold Spec.data_point.
    now rewrite Hsplit, Hhash, Hbang, Hne, E0, E3, E4.
Qed.

Lemma two_port_ignores_s11_witness :
  loop_body float_of_str false (lit "1e9 abc def 0.3 0.4") (mkLists [] [] [])
  = (Normal tt, mkLists [1%float] [0.3%float] [0.4%float]).
Proof.
  exact (proj1 (two_port_ignores_s11 float_of_str
                  (lit "1e9 abc def 0.3 0.4")
                  (lit "1e9") (lit "abc") (lit "def") (lit "0.3") (lit "0.4")
                  [] 1e9%float 0.3%float 0.4%float (mkLists [] [] [])
                  eq_refl eq_refl eq_refl eq_refl eq_refl eq_refl)).
Defined.

(* ================================================================= *)
(** ** Baseline reduction: the no-op *)

(** C7. Reduction no-op identity: with empty reference sequences the target
    magnitudes come back unchanged, for every target; one empty reference
    sequence is enough. *)
Theorem apply_reduction_empty_reference :
  forall freq mag_db : array,
    apply_reduction freq mag_db [] [] = Ok mag_db
    /\ (forall red_mag_db, apply_reduction freq mag_db [] red_mag_db = Ok mag_db)
    /\ (forall red_freq, apply_reduction freq mag_db red_freq [] = Ok mag_db).
Proof.
  intros freq mag_db. split; [reflexivity|]. split.
  - intros red_mag_db. reflexivity.
  - intros red_freq. unfold apply_reduction.
    now rewrite Bool.orb_true_r.
Qed.

(* ================================================================= *)
(** ** Averaging: the two means *)

(** The arithmetic mean of two numbers, as the program computes it. *)
Definition mean (a b : float) : float := ((a + b) / 2)%float.

Lemma elementwise_same_length (f : float -> float -> float) (a b : array) :
  List.length a = List.length b ->
  elementwise f a b = Ok (map2 f a b).
Proof.
  intros H. unfold elementwise. now rewrite H, Nat.eqb_refl.
Qed.

Lemma div_scalar_map2_add (a b : array) :
  div_scalar (map2 PrimFloat.add a b) 2%float = map2 mean a b.
Proof.
  unfold div_scalar.
  revert b. induction a as [|x a IH]; intros [|y b]; simpl; try reflexivity.
  now rewrite IH.
Qed.

Lemma map2_length (f : float -> float -> float) (a b : array) :
  List.length a = List.length b ->
  List.length (map2 f a b) = List.length a.
Proof.
  revert b. induction a as [|x a IH]; intros [|y b] H; simpl in *;
    try reflexivity; try discriminate.
  f_equal. apply IH. now injection H.
Qed.

Lemma map2_nth (f : float -> float -> float) (a b : array) (k : nat) (d : float) :
  List.length a = List.length b ->
  (k < List.length a)%nat ->
  nth k (map2 f a b) d = f (nth k a d) (nth k b d).
Proof.
  revert b k. induction a as [|x a IH]; intros [|y b] k H Hk; simpl in *;
    try lia; try discriminate.
  destruct k as [|k]; [reflexivity|]. apply IH; [now injection H | lia].
Qed.

(** With as many points in both traces, the second trace is used as it is:
    the means are taken index by index. *)
Lemma media_trace_same_length (f1 r1 i1 f2 r2 i2 : array) :
  List.length f1 = List.length f2 ->
  List.length r1 = List.length r2 ->
  List.length i1 = List.length i2 ->
  media_trace (f1, r1, i1) (f2, r2, i2)
  = Ok (f1, map2 mean r1 r2, map2 mean i1 i2).
Proof.
  intros Hf Hr Hi. unfold media_trace.
  rewrite Hf, Nat.eqb_refl. simpl.
  unfold Np.add. rewrite (elementwise_same_length _ _ _ Hr). simpl.
  rewrite (elementwise_same_length _ _ _ Hi). simpl.
  now rewrite !div_scalar_map2_add.
Qed.

(** C4. Averaging on equal grids: for two traces on the same frequency grid
    the result keeps that grid, and its real and imaginary sequences are the
    elementwise means [(a + b) / 2] of the two real and of the two imaginary
    sequences, each on its own (no magnitude is computed). *)
Theorem media_equal_grids :
  forall freq re1 im1 re2 im2 : array,
    List.length re1 = List.length freq ->
    List.length im1 = List.length freq ->
    List.length re2 = List.length freq ->
    List.length im2 = List.length freq ->
    media_trace (freq, re1, im1) (freq, re2, im2)
    = Ok (freq, map2 mean re1 re2, map2 mean im1 im2)
    /\ forall k, (k < List.length freq)%nat ->
         nth k (map2 mean re1 re2) nan
         = ((nth k re1 nan + nth k re2 nan) / 2)%float
         /\ nth k (map2 mean im1 im2) nan
            = ((nth k im1 nan + nth k im2 nan) / 2)%float.
Proof.
  intros freq re1 im1 re2 im2 H1 H2 H3 H4. split.
  - apply media_trace_same_length; congruence.
  - intros k Hk. split; apply map2_nth; congruence || lia.
Qed.

(** The example of the specification: A = (freq [1,2], re [1,2], im [0,0])
    and B = (freq [1,2], re [3,4], im [0,0]) average to re [2,3], im [0,0]
    on the grid [1,2]. *)
Lemma media_equal_grids_witness :
  media_trace ([1; 2], [1; 2], [0; 0])%float ([1; 2], [3; 4], [0; 0])%float
  = Ok ([1; 2], [2; 3], [0; 0])%float.
Proof.
  exact (proj1 (media_equal_grids [1; 2]%float [1; 2]%float [0; 0]%float
                  [3; 4]%float [0; 0]%float
                  eq_refl eq_refl eq_refl eq_refl)).
Defined.

(** [np.interp] with the default end values, as a list of its values. *)
Definition interp_values (x xp fp : array) : array :=
  List.map (interp_point xp fp (nth 0 fp nan) (nth (List.length fp - 1) fp nan)) x.

Lemma interp_default_ok (x xp fp : array) :
  xp <> [] ->
  List.length fp = List.length xp ->
  interp_default x xp fp = Ok (interp_values x xp fp).
Proof.
  intros Hne Hlen. unfold interp_default, interp.
  destruct xp as [|x0 xp]; [contradiction|].
  now rewrite <- Hlen, Nat.eqb_refl.
Qed.

Lemma interp_values_length (x xp fp : array) :
  List.length (interp_values x xp fp) = List.length x.
Proof. unfold interp_values. apply length_map. Qed.

(** With different numbers of points, the second trace is first brought onto
    the first one's frequencies. *)
Lemma media_trace_other_length (f1 r1 i1 f2 r2 i2 : array) :
  List.length r1 = List.length f1 ->
  List.length i1 = List.length f1 ->
  List.length r2 = List.length f2 ->
  List.length i2 = List.length f2 ->
  List.length f1 <> List.length f2 ->
  f2 <> [] ->
  media_trace (f1, r1, i1) (f2, r2, i2)
  = Ok (f1, map2 mean r1 (interp_values f1 f2 r2),
        map2 mean i1 (interp_values f1 f2 i2)).
Proof.
  intros Hr1 Hi1 Hr2 Hi2 Hne Hf2. unfold media_trace.
  apply Nat.eqb_neq in Hne. rewrite Hne. simpl.
  rewrite (interp_default_ok f1 f2 r2 Hf2 Hr2).
  rewrite (interp_default_ok f1 f2 i2 Hf2 Hi2).
  simpl. unfold Np.add.
  rewrite elementwise_same_length
    by (now rewrite interp_values_length).
  simpl.
  rewrite elementwise_same_length
    by (now rewrite interp_values_length).
  simpl. now rewrite !div_scalar_map2_add.
Qed.

(** Frequencies in ascending order, as [<=] compares binary64 numbers: no
    frequency is followed, anywhere later, by a smaller one or by a NaN,
    and none but the last can be a NaN. *)
Definition increasing (a : array) : Prop :=
  forall i j : nat,
    (i < j < List.length a)%nat ->
    (nth i a nan <=? nth j a nan)%float = true.

(** C9. Equal-length averaging performs no interpolation: when the two
    traces have as many points, the real and imaginary sequences are
    averaged index by index whatever the frequencies of trace B are, on the
    frequency grid of trace A.  Trace B is interpolated onto A's frequencies
    when the numbers of points differ; the interpolated values are stated
    for a trace B of at most four points, where [np.interp] looks for the
    samples around a frequency from left to right as [Np.search] does, and
    for a trace B whose frequencies are in ascending order, where every way
    of looking finds the same samples. *)
Theorem media_no_interpolation_on_equal_length :
  forall f1 r1 i1 f2 r2 i2 : array,
    List.length r1 = List.length f1 ->
    List.length i1 = List.length f1 ->
    List.length r2 = List.length f2 ->
    List.length i2 = List.length f2 ->
    (List.length f1 = List.length f2 ->
     media_trace (f1, r1, i1) (f2, r2, i2)
     = Ok (f1, map2 mean r1 r2, map2 mean i1 i2))
    /\ (List.length f1 <> List.length f2 -> f2 <> [] ->
        (List.length f2 <= 4)%nat \/ increasing f2 ->
        media_trace (f1, r1, i1) (f2, r2, i2)
        = Ok (f1, map2 mean r1 (interp_values f1 f2 r2),
              map2 mean i1 (interp_values f1 f2 i2))).
Proof.
  intros f1 r1 i1 f2 r2 i2 Hr1 Hi1 Hr2 Hi2. split.
  - intros Hf. apply media_trace_same_length; congruence.
  - intros Hne Hf2 _. now apply media_trace_other_length.
Qed.

(** Two traces of two points on different grids, [1, 2] and [5, 7]: the
    values are averaged index by index, on the grid [1, 2].  A trace of
    three points and one of two, at 1 and 3 GHz: the second is read at 1, 2
    and 3 GHz before the means are taken. *)
Lemma media_no_interpolation_witness :
  media_trace ([1; 2], [1; 2], [0; 0])%float ([5; 7], [3; 4], [0; 0])%float
  = Ok ([1; 2], [2; 3], [0; 0])%float
  /\ media_trace ([1; 2; 3], [0; 0; 0], [0; 0; 0])%float
       ([1; 3], [10; 30], [0; 0])%float
     = Ok ([1; 2; 3], [5; 10; 15], [0; 0; 0])%float.
Proof.
  split.
  - exact (proj1 (media_no_interpolation_on_equal_length
                    [1; 2]%float [1; 2]%float [0; 0]%float
                    [5; 7]%float [3; 4]%float [0; 0]%float
                    eq_refl eq_refl eq_refl eq_refl) eq_refl).
  - refine (proj2 (media_no_interpolation_on_equal_length
                     [1; 2; 3]%float [0; 0; 0]%float [0; 0; 0]%float
                     [1; 3]%float [10; 30]%float [0; 0]%float
                     eq_refl eq_refl eq_refl eq_refl) _ _ _).
    + discriminate.
    + discriminate.
    + left. cbn [List.length]. lia.
Defined.

(* ================================================================= *)
(** ** Text written by the program and read back by the parser *)

(** The characters of the numbers the program writes: ASCII, visible. *)
Definition printable (c : char) : bool := ((33 <=? c) && (c <=? 126))%N.

(** Printable or a plain space: the characters of a data row. *)
Definition row_char (c : char) : bool := ((32 <=? c) && (c <=? 126))%N.

Ltac bools_in H :=
  repeat first
    [ rewrite Bool.orb_true_iff in H
    | rewrite Bool.andb_true_iff in H
    | rewrite Bool.negb_true_iff in H
    | rewrite N.leb_le in H
    | rewrite N.ltb_lt in H
    | rewrite N.eqb_eq in H
    | rewrite N.leb_gt in H
    | rewrite N.ltb_ge in H
    | rewrite N.eqb_neq in H ].

(** A boolean test on characters is false: by arithmetic on the ranges. *)
Ltac class_false :=
  apply Bool.not_true_is_false;
  let Hs := fresh "Hs" in
  intro Hs;
  repeat match goal with
         | H : printable _ = true |- _ => unfold printable in H; bools_in H
         | H : row_char _ = true |- _ => unfold row_char in H; bools_in H
         | H : is_digit _ = true |- _ => unfold is_digit in H; bools_in H
         end;
  bools_in Hs; lia.

Lemma printable_row_char c : printable c = true -> row_char c = true.
Proof.
  unfold printable, row_char. intros H. bools_in H.
  apply Bool.andb_true_iff. split; apply N.leb_le; lia.
Qed.

Lemma digit_printable c : is_digit c = true -> printable c = true.
Proof.
  unfold printable, is_digit. intros H. bools_in H.
  apply Bool.andb_true_iff. split; apply N.leb_le; lia.
Qed.

Lemma printable_not_space c : printable c = true -> isspace c = false.
Proof. intros H. unfold isspace. class_false. Qed.

Lemma printable_not_float_space c :
  printable c = true -> float_space c = false.
Proof.
  intros H. unfold float_space. now rewrite (printable_not_space c H).
Qed.

Lemma row_char_not_linebreak c : row_char c = true -> islinebreak c = false.
Proof. intros H. unfold islinebreak. class_false. Qed.

Lemma row_char_not_cr c : row_char c = true -> (c =? 13)%N = false.
Proof. intros H. class_false. Qed.

Lemma row_char_ascii c : row_char c = true -> (c <? 128)%N = true.
Proof.
  unfold row_char. intros H. bools_in H. apply N.ltb_lt. lia.
Qed.

(** *** Encoding and decoding ASCII *)

Definition ascii_char (c : char) : bool := (c <? 128)%N.

Lemma to_N_byte_of_N c : ascii_char c = true -> Byte.to_N (byte_of_N c) = c.
Proof.
  unfold ascii_char, byte_of_N. intros H. apply N.ltb_lt in H.
  destruct (Byte.of_N c) as [b|] eqn:E.
  - now apply Byte.to_of_N.
  - apply Byte.of_N_None_iff in E. lia.
Qed.

Lemma encode_ascii (s : str) :
  forallb ascii_char s = true ->
  encode s = Ok (List.map byte_of_N s).
Proof.
  induction s as [|c s IH]; simpl; [reflexivity|].
  intros H. apply Bool.andb_true_iff in H. destruct H as [Hc Hs].
  unfold encode_char. unfold ascii_char in Hc. rewrite Hc. simpl.
  now rewrite (IH Hs).
Qed.

Lemma decode_ignore_ascii_app (a : str) (rest : list N) :
  forallb ascii_char a = true ->
  decode_ignore (a ++ rest) = a ++ decode_ignore rest.
Proof.
  induction a as [|c a IH]; simpl; [reflexivity|].
  intros H. apply Bool.andb_true_iff in H. destruct H as [Hc Hs].
  unfold ascii_char in Hc. rewrite Hc. now rewrite (IH Hs).
Qed.

Lemma decode_ignore_ascii (a : str) :
  forallb ascii_char a = true -> decode_ignore a = a.
Proof.
  intros H. pose proof (decode_ignore_ascii_app a [] H) as E.
  now rewrite !app_nil_r in E.
Qed.

Lemma map_to_N_byte_of_N (s : str) :
  forallb ascii_char s = true ->
  List.map Byte.to_N (List.map byte_of_N s) = s.
Proof.
  induction s as [|c s IH]; simpl; [reflexivity|].
  intros H. apply Bool.andb_true_iff in H. destruct H as [Hc Hs].
  now rewrite (to_N_byte_of_N c Hc), (IH Hs).
Qed.

(** *** Lines *)

Lemma forallb_impl {A} (p q : A -> bool) (l : list A) :
  (forall x, p x = true -> q x = true) ->
  forallb p l = true -> forallb q l = true.
Proof.
  intros Hpq. induction l as [|x l IH]; simpl; [reflexivity|].
  intros H. apply Bool.andb_true_iff in H. destruct H as [Hx Hl].
  now rewrite (Hpq x Hx), (IH Hl).
Qed.

Lemma forallb_app_intro {A} (p : A -> bool) (a b : list A) :
  forallb p a = true -> forallb p b = true -> forallb p (a ++ b) = true.
Proof. intros Ha Hb. now rewrite forallb_app, Ha, Hb. Qed.

Lemma forallb_cons_intro {A} (p : A -> bool) (c : A) (l : list A) :
  p c = true -> forallb p l = true -> forallb p (c :: l) = true.
Proof. intros Hc Hl. cbn [forallb]. now rewrite Hc, Hl. Qed.

(** A run of row characters closed by a line feed is one line. *)
Lemma splitlines_aux_row (s cur rest : str) :
  forallb row_char s = true ->
  splitlines_aux cur (s ++ 10%N :: rest)
  = (rev cur ++ s) :: splitlines_aux [] rest.
Proof.
  revert cur. induction s as [|c s IH]; intros cur H; simpl.
  - now rewrite app_nil_r.
  - simpl in H. apply Bool.andb_true_iff in H. destruct H as [Hc Hs].
    rewrite (row_char_not_cr c Hc), (row_char_not_linebreak c Hc).
    rewrite (IH (c :: cur) Hs). simpl. now rewrite <- app_assoc.
Qed.

(** *** Tokens *)

(** A printable run followed by a space is one token. *)
Lemma split_aux_token (t cur rest : str) :
  forallb printable t = true ->
  rev cur ++ t <> [] ->
  split_aux cur (t ++ 32%N :: rest) = (rev cur ++ t) :: split_aux [] rest.
Proof.
  revert cur. induction t as [|c t IH]; intros cur H Hne; simpl.
  - rewrite app_nil_r in *.
    destruct cur as [|d cur]; [now elim Hne|]. reflexivity.
  - simpl in H. apply Bool.andb_true_iff in H. destruct H as [Hc Ht].
    rewrite (printable_not_space c Hc).
    rewrite (IH (c :: cur) Ht); simpl; rewrite <- app_assoc; simpl.
    + reflexivity.
    + intros E. now destruct (rev cur).
Qed.

(** A printable run at the end of the line is the last token. *)
Lemma split_aux_last (t cur : str) :
  forallb printable t = true ->
  rev cur ++ t <> [] ->
  split_aux cur t = [rev cur ++ t].
Proof.
  revert cur. induction t as [|c t IH]; intros cur H Hne; simpl.
  - rewrite app_nil_r in *.
    destruct cur as [|d cur]; [now elim Hne|]. reflexivity.
  - simpl in H. apply Bool.andb_true_iff in H. destruct H as [Hc Ht].
    rewrite (printable_not_space c Hc).
    rewrite (IH (c :: cur) Ht); simpl; rewrite <- app_assoc; simpl.
    + reflexivity.
    + intros E. now destruct (rev cur).
Qed.

(** Nothing is stripped from a text that begins and ends with a character
    that is no white space. *)
Lemma lstrip_with_head (sp : char -> bool) (c : char) (s : str) :
  sp c = false -> lstrip_with sp (c :: s) = c :: s.
Proof. intros H. simpl. now rewrite H. Qed.

Lemma strip_with_id (sp : char -> bool) (c d : char) (s : str) :
  sp c = false -> sp d = false ->
  strip_with sp (c :: s ++ [d]) = c :: s ++ [d].
Proof.
  intros Hc Hd. unfold strip_with.
  rewrite (lstrip_with_head sp c _ Hc).
  replace (rev (c :: s ++ [d])) with (d :: rev (c :: s)).
  - rewrite (lstrip_with_head sp d _ Hd).
    change (d :: rev (c :: s)) with ([d] ++ rev (c :: s)).
    rewrite rev_app_distr, rev_involutive. reflexivity.
  - change (c :: s ++ [d]) with ((c :: s) ++ [d]).
    now rewrite rev_app_distr.
Qed.

Lemma strip_with_single (sp : char -> bool) (c : char) :
  sp c = false -> strip_with sp [c] = [c].
Proof. intros Hc. unfold strip_with. simpl. rewrite Hc. simpl. now rewrite Hc. Qed.

(** A non-empty printable text is unchanged by [strip]. *)
Lemma strip_with_printable (sp : char -> bool) (t : str) :
  (forall c, printable c = true -> sp c = false) ->
  forallb printable t = true ->
  strip_with sp t = t.
Proof.
  intros Hsp H.
  destruct t as [|c t]; [reflexivity|].
  simpl in H. apply Bool.andb_true_iff in H. destruct H as [Hc Ht].
  destruct (rev t) as [|d u] eqn:E.
  - apply (f_equal (@rev _)) in E. rewrite rev_involutive in E. subst t.
    apply strip_with_single. now apply Hsp.
  - apply (f_equal (@rev _)) in E. rewrite rev_involutive in E. simpl in E.
    subst t. apply strip_with_id; [now apply Hsp|].
    apply Hsp. rewrite forallb_app in Ht.
    apply Bool.andb_true_iff in Ht. destruct Ht as [_ Hd].
    simpl in Hd. now rewrite Bool.andb_true_r in Hd.
Qed.

(** *** Decimal digits written and read *)

Lemma digits_value_app (a b : str) :
  digits_value (a ++ b)
  = (digits_value a * 10 ^ N.of_nat (List.length b) + digits_value b)%N.
Proof.
  unfold digits_value.
  assert (G : forall (l : str) (x : N),
             fold_left (fun a c => (10 * a + (c - 48))%N) l x
             = (x * 10 ^ N.of_nat (List.length l)
                + fold_left (fun a c => (10 * a + (c - 48))%N) l 0)%N).
  { induction l as [|c l IH]; intros x.
    - simpl. lia.
    - cbn [fold_left List.length]. rewrite (IH (10 * x + (c - 48))%N).
      rewrite (IH (10 * 0 + (c - 48))%N).
      rewrite Nat2N.inj_succ, N.pow_succ_r'. lia. }
  rewrite fold_left_app. apply G.
Qed.

Lemma ten_neq_0 : 10%N <> 0%N.
Proof. discriminate. Qed.

Lemma size_nat_bound (n : N) : (n < 2 ^ N.of_nat (N.size_nat n))%N.
Proof.
  destruct n as [|p]; [reflexivity|]. simpl N.size_nat.
  induction p as [p IH|p IH|]; cbn [Pos.size_nat];
    try rewrite Nat2N.inj_succ, N.pow_succ_r'; try reflexivity; lia.
Qed.

Lemma to_digits_spec (fuel : nat) :
  forall (n : N) (acc : str),
    (n < 2 ^ N.of_nat fuel)%N -> fuel <> O ->
    exists ds,
      to_digits fuel n acc = ds ++ acc
      /\ forallb is_digit ds = true
      /\ ds <> []
      /\ digits_value ds = n.
Proof.
  induction fuel as [|f IH]; intros n acc Hn Hf; [now elim Hf|].
  cbn [to_digits].
  assert (Hd : is_digit (48 + n mod 10)%N = true).
  { unfold is_digit. apply Bool.andb_true_iff.
    pose proof (N.mod_upper_bound n 10 ten_neq_0).
    split; apply N.leb_le; lia. }
  destruct (N.eqb_spec (n / 10) 0) as [E|E].
  - exists [(48 + n mod 10)%N]. repeat split.
    + cbn [forallb]. now rewrite Hd.
    + discriminate.
    + unfold digits_value. cbn [fold_left]. lia.
  - assert (Hq : (n / 10 < 2 ^ N.of_nat f)%N).
    { rewrite Nat2N.inj_succ, N.pow_succ_r' in Hn.
      apply N.Div0.div_lt_upper_bound. lia. }
    assert (Hf' : f <> O).
    { intros ->. simpl in Hq. lia. }
    destruct (IH (n / 10)%N ((48 + n mod 10)%N :: acc) Hq Hf')
      as (ds & E1 & E2 & E3 & E4).
    exists (ds ++ [(48 + n mod 10)%N]). repeat split.
    + rewrite E1, <- app_assoc. reflexivity.
    + rewrite forallb_app, E2. cbn [forallb andb]. now rewrite Hd.
    + intros X. now destruct ds.
    + rewrite digits_value_app, E4. unfold digits_value.
      cbn [fold_left List.length]. change (N.of_nat 1) with 1%N. lia.
Qed.

(** [digits n] is a non-empty run of digits that reads back as [n]. *)
Lemma digits_spec (n : N) :
  forallb is_digit (digits n) = true
  /\ digits n <> []
  /\ digits_value (digits n) = n.
Proof.
  unfold digits.
  destruct (to_digits_spec (S (N.size_nat n)) n []) as (ds & E1 & E2 & E3 & E4).
  - rewrite Nat2N.inj_succ, N.pow_succ_r'.
    pose proof (size_nat_bound n). lia.
  - discriminate.
  - rewrite E1, app_nil_r. auto.
Qed.

Lemma fixed_digits_spec (k : nat) :
  forall n : N,
    forallb is_digit (fixed_digits k n) = true
    /\ List.length (fixed_digits k n) = k
    /\ digits_value (fixed_digits k n) = (n mod 10 ^ N.of_nat k)%N.
Proof.
  induction k as [|k IH]; intros n.
  - repeat split. simpl. now rewrite N.mod_1_r.
  - cbn [fixed_digits]. destruct (IH (n / 10)%N) as (E1 & E2 & E3).
    repeat split.
    + rewrite forallb_app, E1. cbn [forallb andb]. rewrite Bool.andb_true_r.
      unfold is_digit. apply Bool.andb_true_iff.
      split; apply N.leb_le; lia.
    + rewrite length_app, E2. simpl. lia.
    + rewrite digits_value_app, E3. unfold digits_value.
      cbn [fold_left List.length]. change (N.of_nat 1) with 1%N.
      rewrite Nat2N.inj_succ, N.pow_succ_r'.
      rewrite N.Div0.mod_mul_r. lia.
Qed.

(** *** Numbers read by [float] *)

(** Where a run of digits ends: at the end of the text, or before a
    character that is neither a digit nor an underscore. *)
Definition ends_digits (r : str) : Prop :=
  match r with
  | [] => True
  | c :: _ => is_digit c = false /\ c <> 95%N
  end.

Lemma digits_tail_run (ds r : str) :
  forallb is_digit ds = true -> ends_digits r ->
  digits_tail (ds ++ r) = (ds, r).
Proof.
  intros Hds Hr. induction ds as [|c ds IH].
  - destruct r as [|c r]; [reflexivity|]. destruct Hr as [Hc Hu].
    cbn [app digits_tail]. rewrite Hc.
    apply N.eqb_neq in Hu. now rewrite Hu.
  - cbn [forallb] in Hds. apply Bool.andb_true_iff in Hds.
    destruct Hds as [Hc Hds]. cbn [app digits_tail].
    now rewrite Hc, (IH Hds).
Qed.

Lemma digitpart_run (ds r : str) :
  forallb is_digit ds = true -> ends_digits r ->
  digitpart (ds ++ r) = (ds, r).
Proof.
  intros Hds Hr. destruct ds as [|c ds].
  - destruct r as [|c r]; [reflexivity|]. destruct Hr as [Hc _].
    cbn [app digitpart]. now rewrite Hc.
  - cbn [forallb] in Hds. apply Bool.andb_true_iff in Hds.
    destruct Hds as [Hc Hds]. cbn [app digitpart].
    now rewrite Hc, (digits_tail_run ds r Hds Hr).
Qed.

(** The exponents [repr] writes: [e], a sign, digits. *)
Definition exponent_text (neg : bool) (xs : str) : str :=
  101%N :: (if neg then 45%N else 43%N) :: xs.

Lemma exponent_of_text (neg : bool) (xs : str) :
  forallb is_digit xs = true -> xs <> [] ->
  exponent (exponent_text neg xs)
  = Some (if neg then (- Z.of_N (digits_value xs))%Z
          else Z.of_N (digits_value xs), []).
Proof.
  intros Hxs Hne. unfold exponent, exponent_text.
  change ((101 =? 101)%N || (101 =? 69)%N) with true. cbv iota.
  assert (E : sign ((if neg then 45%N else 43%N) :: xs) = (neg, xs))
    by now destruct neg.
  rewrite E.
  pose proof (digitpart_run xs [] Hxs I) as D. rewrite app_nil_r in D.
  rewrite D. destruct xs; [now elim Hne|]. reflexivity.
Qed.

Lemma ends_digits_exponent neg xs : ends_digits (exponent_text neg xs).
Proof. split; [reflexivity|discriminate]. Qed.

Lemma ends_digits_dot r : ends_digits (46%N :: r).
Proof. split; [reflexivity|discriminate]. Qed.

(** [digits . digits] followed by an exponent, or by nothing. *)
Lemma floatnumber_point (neg : bool) (ip fp ex : str) (e : Z) :
  forallb is_digit ip = true -> forallb is_digit fp = true -> ip <> [] ->
  ends_digits ex -> exponent ex = Some (e, []) ->
  floatnumber neg (ip ++ 46%N :: fp ++ ex)
  = Some (LDec neg (digits_value (ip ++ fp)) (e - Z.of_nat (List.length fp))).
Proof.
  intros Hip Hfp Hne Hex He. unfold floatnumber.
  rewrite (digitpart_run ip _ Hip (ends_digits_dot _)).
  change ((46 =? 46)%N) with true. cbv iota.
  rewrite (digitpart_run fp ex Hfp Hex), He.
  destruct (ip ++ fp) eqn:E; [|reflexivity].
  destruct ip; [now elim Hne|discriminate E].
Qed.

(** [digits] followed by an exponent. *)
Lemma floatnumber_exponent (neg : bool) (ip : str) (eneg : bool) (xs : str) :
  forallb is_digit ip = true -> ip <> [] ->
  forallb is_digit xs = true -> xs <> [] ->
  floatnumber neg (ip ++ exponent_text eneg xs)
  = Some (LDec neg (digits_value ip)
            (if eneg then (- Z.of_N (digits_value xs))%Z
             else Z.of_N (digits_value xs))).
Proof.
  intros Hip Hne Hxs Hxne. unfold floatnumber.
  rewrite (digitpart_run ip _ Hip (ends_digits_exponent _ _)).
  unfold exponent_text at 1.
  change ((101 =? 46)%N) with false. cbv iota.
  rewrite (exponent_of_text eneg xs Hxs Hxne).
  rewrite app_nil_r. cbn [List.length Z.of_nat]. rewrite Z.sub_0_r.
  destruct ip; [now elim Hne|reflexivity].
Qed.

Lemma lower_char_digit c : is_digit c = true -> lower_char c = c.
Proof.
  intros H. unfold lower_char.
  replace ((65 <=? c) && (c <=? 90))%N with false; [reflexivity|].
  symmetry. class_false.
Qed.

(** A text that begins with a digit is no [inf], [infinity] or [nan], and
    carries no sign. *)
Lemma floatvalue_signed_digits (neg : bool) (c : char) (s : str) :
  is_digit c = true ->
  floatvalue (sign_str neg ++ c :: s) = floatnumber neg (c :: s).
Proof.
  intros Hc. unfold floatvalue.
  assert (E : sign (sign_str neg ++ c :: s) = (neg, c :: s)).
  { destruct neg; [reflexivity|]. cbn [sign_str app sign].
    replace (c =? 45)%N with false by (symmetry; class_false).
    replace (c =? 43)%N with false by (symmetry; class_false).
    reflexivity. }
  rewrite E. cbn [lower List.map]. rewrite (lower_char_digit c Hc).
  assert (X : forall t, str_eqb (c :: List.map lower_char s) (105%N :: t) = false).
  { intros t. unfold str_eqb. destruct (list_eq_dec _ _ _) as [Q|Q]; [|reflexivity].
    injection Q as Q _. subst c. discriminate Hc. }
  assert (Y : forall t, str_eqb (c :: List.map lower_char s) (110%N :: t) = false).
  { intros t. unfold str_eqb. destruct (list_eq_dec _ _ _) as [Q|Q]; [|reflexivity].
    injection Q as Q _. subst c. discriminate Hc. }
  change (lit "inf") with (105%N :: lit "nf").
  change (lit "infinity") with (105%N :: lit "nfinity").
  change (lit "nan") with (110%N :: lit "an").
  now rewrite !X, Y.
Qed.

Lemma sign_str_printable neg : forallb printable (sign_str neg) = true.
Proof. now destruct neg. Qed.

Lemma digits_printable (ds : str) :
  forallb is_digit ds = true -> forallb printable ds = true.
Proof. apply forallb_impl, digit_printable. Qed.

(** [float] strips nothing from a printable text. *)
Lemma float_of_str_printable (t : str) :
  forallb printable t = true ->
  float_of_str t = option_map float_of_literal (floatvalue t).
Proof.
  intros H. unfold float_of_str.
  now rewrite (strip_with_printable float_space t printable_not_float_space H).
Qed.

(** *** [format(x, '.6f')] read back *)

(** What [float] makes of [format(x, '.6f')]. *)
Definition read_6f (x : float) : float :=
  match Prim2SF x with
  | S754_nan => nan
  | S754_infinity neg => if neg then neg_infinity else infinity
  | S754_zero neg => SF2Prim (S754_zero neg)
  | S754_finite neg m e => SF2Prim (round_decimal neg (micro_units m e) (-6))
  end.

Lemma cons_of_digits (n : N) :
  exists c s, digits n = c :: s /\ is_digit c = true
              /\ forallb is_digit s = true.
Proof.
  destruct (digits_spec n) as (H1 & H2 & _).
  destruct (digits n) as [|c s]; [now elim H2|].
  cbn [forallb] in H1. apply Bool.andb_true_iff in H1.
  exists c, s. tauto.
Qed.

Lemma format_6f_printable (x : float) :
  forallb printable (format_6f x) = true /\ format_6f x <> [].
Proof.
  unfold format_6f. destruct (Prim2SF x) as [neg|neg| |neg m e]; cbv zeta.
  - now destruct neg.
  - now destruct neg.
  - split; [reflexivity|discriminate].
  - split.
    + destruct (digits_spec (micro_units m e / 1000000)) as (H1 & _).
      destruct (fixed_digits_spec 6 (micro_units m e mod 1000000)) as (H2 & _).
      rewrite !forallb_app.
      apply Bool.andb_true_iff; split; [apply sign_str_printable|].
      apply Bool.andb_true_iff; split; [now apply digits_printable|].
      apply Bool.andb_true_iff; split; [reflexivity|].
      now apply digits_printable.
    + destruct (cons_of_digits (micro_units m e / 1000000)) as (c & s & E & _).
      rewrite E. now destruct neg.
Qed.

(** [float] accepts every text [format(x, '.6f')] produces. *)
Lemma float_of_format_6f (x : float) :
  float_of_str (format_6f x) = Some (read_6f x).
Proof.
  rewrite (float_of_str_printable _ (proj1 (format_6f_printable x))).
  unfold format_6f, read_6f.
  destruct (Prim2SF x) as [neg|neg| |neg m e]; cbv zeta.
  - now destruct neg.
  - now destruct neg.
  - reflexivity.
  - set (u := micro_units m e).
    destruct (cons_of_digits (u / 1000000)) as (c & s & E & Hc & Hs).
    destruct (fixed_digits_spec 6 (u mod 1000000)) as (F1 & F2 & F3).
    rewrite E. cbn [app].
    rewrite (floatvalue_signed_digits neg c _ Hc).
    change (c :: s ++ 46%N :: fixed_digits 6 (u mod 1000000))
      with ((c :: s) ++ 46%N :: fixed_digits 6 (u mod 1000000)).
    rewrite <- (app_nil_r (fixed_digits 6 (u mod 1000000))) at 1.
    rewrite (floatnumber_point neg (c :: s) _ [] 0).
    + cbn [option_map float_of_literal]. rewrite F2. do 3 f_equal.
      rewrite digits_value_app, F2, F3, <- E.
      rewrite (proj2 (proj2 (digits_spec _))).
      change (10 ^ N.of_nat 6)%N with 1000000%N. lia.
    + cbn [forallb]. now rewrite Hc, Hs.
    + exact F1.
    + discriminate.
    + exact I.
    + reflexivity.
Qed.

(** *** [str(x)] read back *)

Lemma zeros_digits (n : Z) : forallb is_digit (zeros n) = true.
Proof.
  unfold zeros. induction (Z.to_nat n) as [|k IH]; [reflexivity|].
  cbn [repeat forallb]. now rewrite IH.
Qed.

Lemma zeros_length (n : Z) : List.length (zeros n) = Z.to_nat n.
Proof. unfold zeros. apply repeat_length. Qed.

Lemma digits_value_zeros (n : Z) : digits_value (zeros n) = 0%N.
Proof.
  unfold zeros. induction (Z.to_nat n) as [|k IH]; [reflexivity|].
  change (repeat 48%N (S k)) with ([48%N] ++ repeat 48%N k).
  rewrite digits_value_app, IH. reflexivity.
Qed.

Lemma digits_value_zeros_app (n : Z) (ds : str) :
  digits_value (zeros n ++ ds) = digits_value ds.
Proof. rewrite digits_value_app, digits_value_zeros. lia. Qed.

Lemma digits_value_app_zeros (ds : str) (n : Z) :
  digits_value (ds ++ zeros n) = (digits_value ds * 10 ^ Z.to_N n)%N.
Proof.
  rewrite digits_value_app, digits_value_zeros, zeros_length.
  rewrite Z_nat_N. lia.
Qed.

Lemma forallb_firstn {A} (p : A -> bool) (k : nat) (l : list A) :
  forallb p l = true -> forallb p (firstn k l) = true.
Proof.
  revert k. induction l as [|x l IH]; intros [|k] H; simpl in *;
    try reflexivity.
  apply Bool.andb_true_iff in H. destruct H as [Hx Hl].
  now rewrite Hx, (IH k Hl).
Qed.

Lemma forallb_skipn {A} (p : A -> bool) (k : nat) (l : list A) :
  forallb p l = true -> forallb p (skipn k l) = true.
Proof.
  revert k. induction l as [|x l IH]; intros [|k] H; simpl in *;
    try reflexivity; try assumption.
  apply Bool.andb_true_iff in H. destruct H as [Hx Hl]. now apply IH.
Qed.

(** The number [float] reads in [repr_digits ds decpt]: a mantissa and a
    power of ten. *)
Definition repr_literal (ds : str) (decpt : Z) : N * Z :=
  let len := Z.of_nat (List.length ds) in
  if ((decpt <=? -4) || (16 <? decpt))%Z then (digits_value ds, decpt - len)%Z
  else if (decpt <=? 0)%Z then (digits_value ds, decpt - len)%Z
  else if (len <=? decpt)%Z
       then ((digits_value ds * 10 ^ Z.to_N (decpt - len + 1))%N, (-1)%Z)
  else (digits_value ds, decpt - len)%Z.

(** The exponent digits of [repr]: at least two. *)
Definition pad2 (xs : str) : str :=
  match xs with [_] => 48%N :: xs | _ => xs end.

Lemma pad2_spec (xs : str) :
  forallb is_digit xs = true -> xs <> [] ->
  forallb is_digit (pad2 xs) = true /\ pad2 xs <> []
  /\ digits_value (pad2 xs) = digits_value xs.
Proof.
  intros H Hne. destruct xs as [|a [|b xs]]; [now elim Hne| |].
  - split; [|split].
    + cbn [pad2 forallb] in *. now rewrite H.
    + discriminate.
    + unfold pad2. change [48%N; a] with (zeros 1 ++ [a]).
      apply digits_value_zeros_app.
  - split; [exact H|split; [discriminate|reflexivity]].
Qed.

(** [repr_digits] in scientific notation. *)
Definition repr_scientific (ds : str) (decpt : Z) : str :=
  firstn 1 ds
    ++ match skipn 1 ds with [] => [] | t => 46%N :: t end
    ++ exponent_text (decpt - 1 <? 0)%Z
         (pad2 (digits (Z.to_N (Z.abs (decpt - 1))))).

Lemma repr_digits_scientific (ds : str) (decpt : Z) :
  ((decpt <=? -4) || (16 <? decpt))%Z = true ->
  repr_digits ds decpt = repr_scientific ds decpt.
Proof. intros H. unfold repr_digits. now rewrite H. Qed.

Lemma exponent_text_printable (eneg : bool) (xs : str) :
  forallb is_digit xs = true ->
  forallb printable (exponent_text eneg xs) = true.
Proof.
  intros H. unfold exponent_text. cbn [forallb].
  rewrite (digits_printable xs H). now destruct eneg.
Qed.

Lemma floatnumber_repr_scientific (neg : bool) (ds : str) (decpt : Z) :
  forallb is_digit ds = true -> ds <> [] ->
  floatnumber neg (repr_scientific ds decpt)
  = Some (LDec neg (digits_value ds) (decpt - Z.of_nat (List.length ds)))
  /\ forallb printable (repr_scientific ds decpt) = true
  /\ exists c s, repr_scientific ds decpt = c :: s /\ is_digit c = true.
Proof.
  intros Hds Hne. unfold repr_scientific.
  set (x := (decpt - 1)%Z).
  destruct (digits_spec (Z.to_N (Z.abs x))) as (X1 & X2 & X3).
  destruct (pad2_spec _ X1 X2) as (P1 & P2 & P3).
  set (xs := pad2 (digits (Z.to_N (Z.abs x)))) in *.
  assert (Hx : (if (x <? 0)%Z then (- Z.of_N (digits_value xs))%Z
                else Z.of_N (digits_value xs)) = x).
  { rewrite P3, X3. destruct (Z.ltb_spec x 0); lia. }
  destruct ds as [|d [|d' t']]; [now elim Hne| |].
  - cbn [forallb] in Hds. rewrite Bool.andb_true_r in Hds.
    cbn [firstn skipn]. rewrite app_nil_l. split; [|split].
    + rewrite floatnumber_exponent; try assumption; try discriminate.
      * rewrite Hx. cbn [List.length]. do 2 f_equal; unfold x; lia.
      * cbn [forallb]. now rewrite Hds.
    + apply forallb_app_intro; [|now apply exponent_text_printable].
      apply forallb_cons_intro; [now apply digit_printable|reflexivity].
    + now exists d, (exponent_text (x <? 0)%Z xs).
  - cbn [forallb] in Hds. apply Bool.andb_true_iff in Hds.
    destruct Hds as [Hd Ht].
    cbn [firstn skipn]. split; [|split].
    + change ([d] ++ (46%N :: d' :: t') ++ exponent_text (x <? 0)%Z xs)
        with ([d] ++ 46%N :: (d' :: t') ++ exponent_text (x <? 0)%Z xs).
      rewrite (floatnumber_point neg [d] (d' :: t') _ x);
        try assumption; try discriminate.
      * cbn [app List.length]. do 2 f_equal;
          unfold x; rewrite ?Nat2Z.inj_succ; lia.
      * cbn [forallb]. now rewrite Hd.
      * apply ends_digits_exponent.
      * rewrite exponent_of_text by assumption. now rewrite Hx.
    + apply forallb_app_intro;
        [apply forallb_cons_intro; [now apply digit_printable|reflexivity]|].
      apply forallb_app_intro; [|now apply exponent_text_printable].
      apply forallb_cons_intro; [reflexivity|].
      now apply (digits_printable (d' :: t')).
    + now exists d, ((46%N :: d' :: t') ++ exponent_text (x <? 0)%Z xs).
Qed.

Lemma floatnumber_repr_digits (neg : bool) (ds : str) (decpt : Z) :
  forallb is_digit ds = true -> ds <> [] ->
  floatnumber neg (repr_digits ds decpt)
  = Some (LDec neg (fst (repr_literal ds decpt)) (snd (repr_literal ds decpt)))
  /\ forallb printable (repr_digits ds decpt) = true
  /\ exists c s, repr_digits ds decpt = c :: s /\ is_digit c = true.
Proof.
  intros Hds Hne.
  destruct ((decpt <=? -4)%Z || (16 <? decpt)%Z) eqn:Eexp.
  { rewrite (repr_digits_scientific ds decpt Eexp).
    unfold repr_literal. rewrite Eexp. cbn [fst snd].
    now apply floatnumber_repr_scientific. }
  unfold repr_digits, repr_literal. cbv zeta. rewrite Eexp.
  destruct ds as [|d t] eqn:Eds; [now elim Hne|]. rewrite <- Eds in *.
  destruct (Z.leb_spec decpt 0) as [Hle|Hgt].
  - (* 0.000ddd *)
    cbn [fst snd]. split; [|split].
    + change ([48%N; 46%N] ++ zeros (- decpt) ++ ds)
        with ([48%N] ++ 46%N :: zeros (- decpt) ++ ds).
      rewrite <- (app_nil_r (zeros (- decpt) ++ ds)).
      rewrite (floatnumber_point neg [48%N] _ [] 0);
        try reflexivity; try discriminate; try exact I.
      * rewrite length_app, zeros_length.
        change ([48%N] ++ zeros (- decpt) ++ ds)
          with (zeros 1 ++ zeros (- decpt) ++ ds).
        rewrite !digits_value_zeros_app. do 2 f_equal; lia.
      * rewrite forallb_app, zeros_digits. exact Hds.
    + apply forallb_app_intro; [reflexivity|].
      apply forallb_app_intro; apply digits_printable;
        [apply zeros_digits|exact Hds].
    + now exists 48%N, (46%N :: zeros (- decpt) ++ ds).
  - destruct (Z.leb_spec (Z.of_nat (List.length ds)) decpt) as [Hlen|Hlen].
    + (* ddd000.0 *)
      cbn [fst snd]. split; [|split].
      * rewrite app_assoc.
        change [46%N; 48%N] with (46%N :: [48%N] ++ []).
        rewrite (floatnumber_point neg _ [48%N] [] 0);
          try reflexivity; try exact I.
        -- do 2 f_equal.
           change [48%N] with (zeros 1).
           rewrite !digits_value_app_zeros.
           rewrite <- N.mul_assoc, <- N.pow_add_r. do 2 f_equal; lia.
        -- rewrite forallb_app, zeros_digits. now rewrite Hds.
        -- rewrite Eds. discriminate.
      * apply forallb_app_intro; [now apply digits_printable|].
        apply forallb_app_intro; [|reflexivity].
        apply digits_printable, zeros_digits.
      * rewrite Eds. cbn [app]. eexists _, _. split; [reflexivity|].
        rewrite Eds in Hds. cbn [forallb] in Hds.
        now apply Bool.andb_true_iff in Hds.
    + (* ddd.ddd *)
      cbn [fst snd].
      assert (Hk : (0 < Z.to_nat decpt < List.length ds)%nat) by lia.
      split; [|split].
      * change ([46%N] ++ skipn (Z.to_nat decpt) ds)
          with (46%N :: skipn (Z.to_nat decpt) ds).
        rewrite <- (app_nil_r (skipn (Z.to_nat decpt) ds)).
        rewrite (floatnumber_point neg _ _ [] 0);
          try reflexivity; try exact I.
        -- rewrite firstn_skipn, length_skipn. do 2 f_equal; lia.
        -- now apply forallb_firstn.
        -- now apply forallb_skipn.
        -- rewrite Eds. destruct (Z.to_nat decpt); [lia|discriminate].
      * apply forallb_app_intro;
          [now apply digits_printable, forallb_firstn|].
        apply forallb_app_intro; [reflexivity|].
        now apply digits_printable, forallb_skipn.
      * rewrite Eds. destruct (Z.to_nat decpt) as [|k]; [lia|].
        cbn [firstn app]. eexists _, _. split; [reflexivity|].
        rewrite Eds in Hds. cbn [forallb] in Hds.
        now apply Bool.andb_true_iff in Hds.
Qed.

(** What [float] makes of [str(x)]. *)
Definition read_str (x : float) : float :=
  match Prim2SF x with
  | S754_nan => nan
  | S754_infinity neg => if neg then neg_infinity else infinity
  | S754_zero neg => SF2Prim (S754_zero neg)
  | S754_finite neg m e =>
      let (c, k) := shortest_decimal m e in
      let ds := digits c in
      let l := repr_literal ds (Z.of_nat (List.length ds) + k) in
      SF2Prim (round_decimal neg (fst l) (snd l))
  end.

Lemma float_str_printable (x : float) :
  forallb printable (float_str x) = true /\ float_str x <> [].
Proof.
  unfold float_str. destruct (Prim2SF x) as [neg|neg| |neg m e].
  - now destruct neg.
  - now destruct neg.
  - split; [reflexivity|discriminate].
  - destruct (shortest_decimal m e) as [c k].
    destruct (digits_spec c) as (H1 & H2 & _).
    destruct (floatnumber_repr_digits neg (digits c)
                (Z.of_nat (List.length (digits c)) + k) H1 H2)
      as (_ & P & (a & s & E & _)).
    split.
    + apply forallb_app_intro; [apply sign_str_printable|exact P].
    + rewrite E. now destruct neg.
Qed.

(** [float] accepts every text [str(x)] produces. *)
Lemma float_of_float_str (x : float) :
  float_of_str (float_str x) = Some (read_str x).
Proof.
  rewrite (float_of_str_printable _ (proj1 (float_str_printable x))).
  unfold float_str, read_str.
  destruct (Prim2SF x) as [neg|neg| |neg m e].
  - now destruct neg.
  - now destruct neg.
  - reflexivity.
  - destruct (shortest_decimal m e) as [c k].
    destruct (digits_spec c) as (H1 & H2 & _).
    destruct (floatnumber_repr_digits neg (digits c)
                (Z.of_nat (List.length (digits c)) + k) H1 H2)
      as (F & _ & (a & s & E & Ha)).
    cbv zeta. rewrite E, (floatvalue_signed_digits neg a s Ha), <- E, F.
    reflexivity.
Qed.

(** *** A data row written and read back *)

(** The text of a data row, without the line feed. *)
Definition row_text (f re im : float) : str :=
  float_str (f * 1e9)%float ++ lit " 0 0 " ++ format_6f re ++ lit " "
    ++ format_6f im ++ lit " 0 0 0 0".

Lemma row_text_row_chars (f re im : float) :
  forallb row_char (row_text f re im) = true.
Proof.
  unfold row_text.
  pose proof (proj1 (float_str_printable (f * 1e9)%float)) as P0.
  pose proof (proj1 (format_6f_printable re)) as P1.
  pose proof (proj1 (format_6f_printable im)) as P2.
  repeat apply forallb_app_intro;
    try reflexivity;
    eapply forallb_impl; try apply printable_row_char; assumption.
Qed.

Lemma split_aux_zero (rest : str) :
  split_aux [] (48%N :: 32%N :: rest) = [48%N] :: split_aux [] rest.
Proof. reflexivity. Qed.

Lemma split_row_text (f re im : float) :
  split (row_text f re im)
  = [float_str (f * 1e9)%float; lit "0"; lit "0"; format_6f re;
     format_6f im; lit "0"; lit "0"; lit "0"; lit "0"].
Proof.
  unfold split, row_text.
  destruct (float_str_printable (f * 1e9)%float) as [P0 N0].
  destruct (format_6f_printable re) as [P1 N1].
  destruct (format_6f_printable im) as [P2 N2].
  change (lit " 0 0 ") with [32%N; 48%N; 32%N; 48%N; 32%N].
  change (lit " ") with [32%N].
  change (lit " 0 0 0 0")
    with [32%N; 48%N; 32%N; 48%N; 32%N; 48%N; 32%N; 48%N].
  change (lit "0") with [48%N].
  repeat rewrite <- app_assoc. cbn [app].
  rewrite (split_aux_token _ [] _ P0 N0). cbn [rev app].
  rewrite !split_aux_zero.
  rewrite (split_aux_token _ [] _ P1 N1). cbn [rev app].
  rewrite (split_aux_token _ [] _ P2 N2). cbn [rev app].
  rewrite !split_aux_zero.
  reflexivity.
Qed.

Lemma strip_with_ends (sp : char -> bool) (s : str) (c d : char) :
  hd_error s = Some c -> hd_error (rev s) = Some d ->
  sp c = false -> sp d = false ->
  strip_with sp s = s.
Proof.
  intros Hc Hd Sc Sd. unfold strip_with.
  destruct s as [|c' s']; [discriminate Hc|]. injection Hc as ->.
  rewrite (lstrip_with_head sp c s' Sc).
  destruct (rev (c :: s')) as [|d' u] eqn:E; [discriminate Hd|].
  injection Hd as ->. rewrite (lstrip_with_head sp d u Sd), <- E.
  apply rev_involutive.
Qed.

(** [str(x)] begins with a digit, a minus sign or a letter. *)
Lemma float_str_head (x : float) :
  exists c s, float_str x = c :: s /\ printable c = true
              /\ c <> 35%N /\ c <> 33%N.
Proof.
  unfold float_str. destruct (Prim2SF x) as [neg|neg| |neg m e].
  - destruct neg; eexists _, _; (split; [reflexivity|]);
      (split; [reflexivity|split; discriminate]).
  - destruct neg; eexists _, _; (split; [reflexivity|]);
      (split; [reflexivity|split; discriminate]).
  - eexists _, _; (split; [reflexivity|]);
      (split; [reflexivity|split; discriminate]).
  - destruct (shortest_decimal m e) as [c k].
    destruct (digits_spec c) as (H1 & H2 & _).
    destruct (floatnumber_repr_digits neg (digits c)
                (Z.of_nat (List.length (digits c)) + k) H1 H2)
      as (_ & _ & (a & s & E & Ha)).
    cbv zeta. rewrite E. destruct neg.
    + eexists _, _; (split; [reflexivity|]);
        (split; [reflexivity|split; discriminate]).
    + exists a, s. split; [reflexivity|].
      split; [now apply digit_printable|].
      split; intros ->; discriminate Ha.
Qed.

(** A data row read back by the parser's loop, in 2-port mode. *)
Lemma data_point_row_text (f re im : float) :
  Spec.data_point float_of_str false (row_text f re im)
  = Some ((read_str (f * 1e9) / 1e9)%float, read_6f re, read_6f im).
Proof.
  unfold Spec.data_point.
  destruct (float_str_head (f * 1e9)%float) as (c & s & E & Pc & N1 & N2).
  assert (S : strip (row_text f re im) = row_text f re im).
  { apply (strip_with_ends isspace _ c 48%N).
    - unfold row_text. now rewrite E.
    - unfold row_text. rewrite !app_assoc, rev_app_distr. reflexivity.
    - now apply printable_not_space.
    - reflexivity. }
  rewrite S, split_row_text.
  replace (row_text f re im) with (c :: s ++ lit " 0 0 " ++ format_6f re
      ++ lit " " ++ format_6f im ++ lit " 0 0 0 0")
    by (unfold row_text; now rewrite E).
  cbn [startswith lit List.map list_ascii_of_string].
  apply N.eqb_neq in N1, N2. rewrite N.eqb_sym in N1, N2.
  change (N_of_ascii "#") with 35%N. change (N_of_ascii "!") with 33%N.
  rewrite N1, N2. cbn [andb orb].
  now rewrite float_of_float_str, !float_of_format_6f.
Qed.

(** The rows of a trace. *)
Fixpoint rows_text (F R I : array) : list str :=
  match F, R, I with
  | f :: F', r :: R', i :: I' => row_text f r i :: rows_text F' R' I'
  | _, _, _ => []
  end.

(** What the parser reads in the rows of a trace. *)
Fixpoint rows_points (F R I : array) : list Spec.point :=
  match F, R, I with
  | f :: F', r :: R', i :: I' =>
      ((read_str (f * 1e9) / 1e9)%float, read_6f r, read_6f i)
        :: rows_points F' R' I'
  | _, _, _ => []
  end.

Lemma data_points_rows (F R I : array) :
  Spec.data_points float_of_str false (rows_text F R I) = rows_points F R I.
Proof.
  revert R I. induction F as [|f F IH]; intros [|r R] [|i I]; try reflexivity.
  cbn [rows_text rows_points Spec.data_points].
  now rewrite data_point_row_text, IH.
Qed.

Lemma rows_points_maps (F R I : array) :
  List.length R = List.length F -> List.length I = List.length F ->
  List.map Spec.freq_of (rows_points F R I)
  = List.map (fun f => (read_str (f * 1e9) / 1e9)%float) F
  /\ List.map Spec.real_of (rows_points F R I) = List.map read_6f R
  /\ List.map Spec.imag_of (rows_points F R I) = List.map read_6f I.
Proof.
  revert R I. induction F as [|f F IH]; intros [|r R] [|i I] HR HI;
    try discriminate; [now repeat split|].
  injection HR as HR. injection HI as HI.
  destruct (IH R I HR HI) as (E1 & E2 & E3).
  cbn [rows_points List.map]. rewrite E1, E2, E3. now repeat split.
Qed.

(** *** The file written and read back *)

Definition header_1 : str := lit "!File created by Averaging App".
Definition header_2 : str := lit "# Hz S RI R 50".

Definition lines_text (lines : list str) : str :=
  flat_map (fun l => l ++ [10%N]) lines.

(** The text of the file written for a trace. *)
Definition file_text (F R I : array) : str :=
  lines_text (header_1 :: header_2 :: rows_text F R I).

Lemma nth_error_skipn_cons {A} (l : list A) (k : nat) :
  (k < List.length l)%nat ->
  exists x, nth_error l k = Some x /\ skipn k l = x :: skipn (S k) l.
Proof.
  revert k. induction l as [|a l IH]; intros k Hk; [simpl in Hk; lia|].
  destruct k as [|k].
  - exists a. now split.
  - simpl in Hk. destruct (IH k ltac:(lia)) as (x & E1 & E2).
    exists x. split; [exact E1|]. cbn [skipn] in *. exact E2.
Qed.

Lemma row_chars_ascii (s : str) :
  forallb row_char s = true -> forallb ascii_char (s ++ [10%N]) = true.
Proof.
  intros H. apply forallb_app_intro; [|reflexivity].
  eapply forallb_impl; [|exact H]. intros c Hc. now apply row_char_ascii.
Qed.

Lemma media_row_text (F R I : array) (k : nat) (f r i : float) :
  nth_error F k = Some f -> nth_error R k = Some r -> nth_error I k = Some i ->
  media_row F R I k = Ok (List.map byte_of_N (row_text f r i ++ [10%N])).
Proof.
  intros Hf Hr Hi. unfold media_row, index. rewrite Hf, Hr, Hi.
  cbn [rbind].
  replace (float_str (f * 1e9)%float ++ lit " 0 0 " ++ format_6f r ++ lit " "
             ++ format_6f i ++ lit " 0 0 0 0" ++ [10%N])
    with (row_text f r i ++ [10%N])
    by (unfold row_text; now rewrite <- !app_assoc).
  apply encode_ascii, row_chars_ascii, row_text_row_chars.
Qed.

Lemma media_rows_text (F R I : array) (m : nat) :
  forall (k : nat) (output : bytes),
    List.length R = List.length F -> List.length I = List.length F ->
    (k + m = List.length F)%nat ->
    media_rows F R I (seq k m) output
    = Ok (output ++ List.map byte_of_N
            (lines_text (rows_text (skipn k F) (skipn k R) (skipn k I)))).
Proof.
  induction m as [|m IH]; intros k output HR HI Hk.
  - cbn [seq media_rows].
    rewrite (skipn_all2 F) by lia. now rewrite app_nil_r.
  - cbn [seq media_rows].
    destruct (nth_error_skipn_cons F k ltac:(lia)) as (f & Ef & Sf).
    destruct (nth_error_skipn_cons R k ltac:(lia)) as (r & Er & Sr).
    destruct (nth_error_skipn_cons I k ltac:(lia)) as (i & Ei & Si).
    rewrite (media_row_text F R I k f r i Ef Er Ei). cbn [rbind].
    rewrite (IH (S k) _ HR HI ltac:(lia)).
    rewrite Sf, Sr, Si. cbn [rows_text lines_text flat_map].
    rewrite (map_app byte_of_N (row_text f r i ++ [10%N])).
    now rewrite <- app_assoc.
Qed.

(** The bytes written for a trace are the ASCII bytes of its text. *)
Lemma media_bytes_text (F R I : array) :
  List.length R = List.length F -> List.length I = List.length F ->
  media_bytes (F, R, I) = Ok (List.map byte_of_N (file_text F R I)).
Proof.
  intros HR HI. unfold media_bytes.
  rewrite (media_rows_text F R I (List.length F) 0 _ HR HI eq_refl).
  cbn [skipn]. unfold file_text. cbn [lines_text flat_map].
  rewrite !map_app, !app_assoc. reflexivity.
Qed.

Lemma lines_text_ascii (lines : list str) :
  Forall (fun l => forallb row_char l = true) lines ->
  forallb ascii_char (lines_text lines) = true.
Proof.
  induction 1 as [|l lines Hl _ IH]; [reflexivity|].
  cbn [lines_text flat_map]. apply forallb_app_intro; [|exact IH].
  now apply row_chars_ascii.
Qed.

Lemma splitlines_lines_text (lines : list str) :
  Forall (fun l => forallb row_char l = true) lines ->
  splitlines (lines_text lines) = lines.
Proof.
  unfold splitlines, lines_text.
  induction 1 as [|l lines Hl _ IH]; [reflexivity|].
  cbn [flat_map]. rewrite <- app_assoc. cbn [app].
  rewrite (splitlines_aux_row l [] _ Hl). cbn [rev app]. now rewrite IH.
Qed.

Lemma rows_text_row_chars (F R I : array) :
  Forall (fun l => forallb row_char l = true) (rows_text F R I).
Proof.
  revert R I. induction F as [|f F IH]; intros [|r R] [|i I];
    try constructor.
  - apply row_text_row_chars.
  - apply IH.
Qed.

Lemma file_lines_row_chars (F R I : array) :
  Forall (fun l => forallb row_char l = true)
         (header_1 :: header_2 :: rows_text F R I).
Proof.
  constructor; [reflexivity|]. constructor; [reflexivity|].
  apply rows_text_row_chars.
Qed.

(** The written file decodes to its text, line by line. *)
Lemma splitlines_decode_file (F R I : array) :
  splitlines (decode (List.map byte_of_N (file_text F R I)))
  = header_1 :: header_2 :: rows_text F R I.
Proof.
  unfold decode, file_text.
  pose proof (lines_text_ascii _ (file_lines_row_chars F R I)) as A.
  rewrite (map_to_N_byte_of_N _ A), (decode_ignore_ascii _ A).
  apply splitlines_lines_text, file_lines_row_chars.
Qed.

(** The name of the new file selects 2-port mode. *)
Lemma nome_media_two_port (file1_name file2_name : str) :
  is_s1p_name (nome_media file1_name file2_name) = false.
Proof.
  unfold is_s1p_name, nome_media, endswith, lower.
  rewrite !app_assoc, map_app, rev_app_distr. reflexivity.
Qed.

(** Parsing the file written for a trace, under any name that selects
    2-port mode: one point per row, each number as [float] reads it in the
    row. *)
Lemma parse_written_file (F R I : array) (filename : str) :
  List.length R = List.length F -> List.length I = List.length F ->
  is_s1p_name filename = false ->
  parse_s_param float_of_str (List.map byte_of_N (file_text F R I)) filename
  = Ok (List.map (fun f => (read_str (f * 1e9) / 1e9)%float) F,
        List.map read_6f R, List.map read_6f I).
Proof.
  intros HR HI Hname.
  rewrite parse_s_param_points, Hname, splitlines_decode_file. cbv zeta.
  change (Spec.data_points float_of_str false
            (header_1 :: header_2 :: rows_text F R I))
    with (Spec.data_points float_of_str false (rows_text F R I)).
  rewrite data_points_rows.
  destruct (rows_points_maps F R I HR HI) as (E1 & E2 & E3).
  now rewrite E1, E2, E3.
Qed.

(* ================================================================= *)
(** ** criar_media *)

(** The invariant of a trace: three sequences of one length. *)
Definition well_formed (t : trace) : Prop :=
  let '(f, r, i) := t in
  List.length r = List.length f /\ List.length i = List.length f.

Definition trace_freq (t : trace) : array := fst (fst t).
Definition trace_real (t : trace) : array := snd (fst t).
Definition trace_imag (t : trace) : array := snd t.

Lemma parse_s_param_well_formed (to_float : str -> option float)
    (file_content : bytes) (filename : str) :
  exists t, parse_s_param to_float file_content filename = Ok t
            /\ well_formed t.
Proof.
  rewrite parse_s_param_points. cbv zeta. eexists. split; [reflexivity|].
  unfold well_formed. now rewrite !length_map.
Qed.

(** The averaged trace of two well-formed traces, the second not empty:
    it is well formed, on the first trace's frequencies. *)
Lemma media_trace_ok (t1 t2 : trace) :
  well_formed t1 -> well_formed t2 -> trace_freq t2 <> [] ->
  exists re im,
    media_trace t1 t2 = Ok (trace_freq t1, re, im)
    /\ well_formed (trace_freq t1, re, im).
Proof.
  destruct t1 as [[f1 r1] i1], t2 as [[f2 r2] i2].
  intros [Hr1 Hi1] [Hr2 Hi2] Hne. cbn [trace_freq fst] in *.
  destruct (Nat.eq_dec (List.length f1) (List.length f2)) as [E|E].
  - rewrite media_trace_same_length by congruence.
    eexists _, _. split; [reflexivity|].
    split; rewrite map2_length; congruence.
  - rewrite media_trace_other_length by assumption.
    eexists _, _. split; [reflexivity|].
    split; rewrite map2_length; rewrite ?interp_values_length; congruence.
Qed.

Lemma length_zero_nil {A} (l : list A) :
  (List.length l =? 0)%nat = true <-> l = [].
Proof.
  destruct l; simpl; split; intros H; try reflexivity; discriminate.
Qed.

Section CriarMedia.

Variable to_float : str -> option float.

(** [criar_media] in terms of the two parsed traces. *)
Lemma criar_media_cases (file1_content : bytes) (file1_name : str)
    (file2_content : bytes) (file2_name : str) :
  exists t1 t2,
    parse_s_param to_float file1_content file1_name = Ok t1
    /\ parse_s_param to_float file2_content file2_name = Ok t2
    /\ well_formed t1 /\ well_formed t2
    /\ ((trace_freq t1 = [] \/ trace_freq t2 = []) ->
        criar_media to_float file1_content file1_name file2_content file2_name
        = Ok (MediaNone msg_vazio))
    /\ (trace_freq t1 <> [] -> trace_freq t2 <> [] ->
        exists re im,
          media_trace t1 t2 = Ok (trace_freq t1, re, im)
          /\ well_formed (trace_freq t1, re, im)
          /\ criar_media to_float file1_content file1_name
               file2_content file2_name
             = Ok (MediaFile (nome_media file1_name file2_name)
                     (List.map byte_of_N (file_text (trace_freq t1) re im)))).
Proof.
  destruct (parse_s_param_well_formed to_float file1_content file1_name)
    as (t1 & E1 & W1).
  destruct (parse_s_param_well_formed to_float file2_content file2_name)
    as (t2 & E2 & W2).
  exists t1, t2. repeat (split; [assumption|]).
  unfold criar_media. rewrite E1, E2. cbn [rbind].
  destruct t1 as [[f1 r1] i1] eqn:T1, t2 as [[f2 r2] i2] eqn:T2.
  cbn [trace_freq fst]. split.
  - intros [-> | ->]; [reflexivity|].
    cbn [List.length Nat.eqb]. now rewrite Bool.orb_true_r.
  - intros N1 N2.
    destruct (media_trace_ok (f1, r1, i1) (f2, r2, i2) W1 W2 N2)
      as (re & im & M & W).
    exists re, im. cbn [trace_freq fst] in M, W. split; [exact M|].
    split; [exact W|].
    replace (List.length f1 =? 0)%nat with false
      by (destruct f1; [now elim N1|reflexivity]).
    replace (List.length f2 =? 0)%nat with false
      by (destruct f2; [now elim N2|reflexivity]).
    cbn [orb]. rewrite M. cbn [rbind].
    destruct W as [Wr Wi].
    now rewrite (media_bytes_text f1 re im Wr Wi).
Qed.

End CriarMedia.

(** C5. Averaging error condition: [criar_media] never raises; it hands
    back the error outcome (after [st.error], no file) exactly when one of
    the two parsed traces is empty, and for two non-empty traces it hands
    back a file whose name is [Média_<name1>_<name2>.s2p]. *)
Theorem criar_media_error_iff_empty :
  forall (to_float : str -> option float)
         (file1_content : bytes) (file1_name : str)
         (file2_content : bytes) (file2_name : str),
  exists t1 t2,
    parse_s_param to_float file1_content file1_name = Ok t1
    /\ parse_s_param to_float file2_content file2_name = Ok t2
    /\ ((exists msg,
            criar_media to_float file1_content file1_name
              file2_content file2_name = Ok (MediaNone msg))
        <-> (List.length (trace_freq t1) = 0%nat
             \/ List.length (trace_freq t2) = 0%nat))
    /\ ((List.length (trace_freq t1) <> 0%nat
         /\ List.length (trace_freq t2) <> 0%nat) ->
        exists media_content,
          criar_media to_float file1_content file1_name
            file2_content file2_name
          = Ok (MediaFile
                  (decode (bytes_of_string "Média_") ++ file1_name
                     ++ lit "_" ++ file2_name ++ lit ".s2p")
                  media_content)).
Proof.
  intros to_float c1 n1 c2 n2.
  destruct (criar_media_cases to_float c1 n1 c2 n2)
    as (t1 & t2 & E1 & E2 & W1 & W2 & Hnone & Hfile).
  exists t1, t2. split; [exact E1|]. split; [exact E2|].
  assert (L : forall l : array, List.length l = 0%nat <-> l = [])
    by (intros [|x l]; split; intros H; try reflexivity; discriminate).
  split; [split|].
  - intros [msg Hm].
    destruct (trace_freq t1) as [|x1 l1] eqn:F1; [now left|].
    destruct (trace_freq t2) as [|x2 l2] eqn:F2; [now right|].
    destruct Hfile as (re & im & _ & _ & Hf); try discriminate.
    rewrite Hf in Hm. discriminate Hm.
  - intros H. exists msg_vazio. apply Hnone. rewrite <- !L. exact H.
  - intros [N1 N2]. rewrite L in N1, N2.
    destruct (Hfile N1 N2) as (re & im & _ & _ & Hf).
    eexists. rewrite Hf. reflexivity.
Qed.

(* ================================================================= *)
(** ** The order of binary64 numbers *)


(** A key for comparing: class (negative infinity, negative, zero,
    positive, positive infinity, NaN), then exponent, then mantissa, the
    last two negated for negative numbers.  The two zeros share a key. *)
Definition ord3 (f : spec_float) : Z * Z * Z :=
  match f with
  | S754_nan => (3, 0, 0)%Z
  | S754_infinity true => (-2, 0, 0)%Z
  | S754_finite true m e => (-1, - e, Zneg m)%Z
  | S754_zero _ => (0, 0, 0)%Z
  | S754_finite false m e => (1, e, Zpos m)%Z
  | S754_infinity false => (2, 0, 0)%Z
  end.

Definition key (x : float) : Z * Z * Z := ord3 (Prim2SF x).

(** Lexicographic order on keys. *)
Definition key_lt (a b : Z * Z * Z) : Prop :=
  (fst (fst a) < fst (fst b)
   \/ (fst (fst a) = fst (fst b)
       /\ (snd (fst a) < snd (fst b)
           \/ (snd (fst a) = snd (fst b) /\ snd a < snd b))))%Z.

Definition key_le (a b : Z * Z * Z) : Prop := ~ key_lt b a.

Definition not_nan (x : float) : Prop := Prim2SF x <> S754_nan.



Lemma key_le_lt_trans a b c : key_le a b -> key_lt b c -> key_lt a c.
Proof. unfold key_le, key_lt. destruct a as [[? ?] ?], b as [[? ?] ?], c as [[? ?] ?]. simpl. lia. Qed.


Lemma key_lt_asym a b : key_lt a b -> ~ key_lt b a.
Proof. unfold key_lt. destruct a as [[? ?] ?], b as [[? ?] ?]. simpl. lia. Qed.

(** The comparison of two numbers, neither a NaN, is that of their keys. *)
Lemma SFcompare_keys (x y : spec_float) :
  x <> S754_nan -> y <> S754_nan ->
  match SFcompare x y with
  | Some Lt => key_lt (ord3 x) (ord3 y)
  | Some Eq => ord3 x = ord3 y
  | Some Gt => key_lt (ord3 y) (ord3 x)
  | None => False
  end.
Proof.
  intros Hx Hy. unfold key_lt.
  destruct x as [sx|sx| |sx mx ex], y as [sy|sy| |sy my ey];
    try (now elim Hx); try (now elim Hy);
    try (destruct sx); try (destruct sy); cbn -[Z.lt]; try lia;
    try reflexivity.
  - destruct (Z.compare_spec ex ey) as [E|E|E]; try lia.
    rewrite Pos.compare_cont_spec. cbn [Pos.switch_Eq].
    destruct (Pos.compare_spec mx my) as [F|F|F]; cbn -[Z.lt];
      try lia; subst; reflexivity.
  - destruct (Z.compare_spec ex ey) as [E|E|E]; try lia.
    rewrite Pos.compare_cont_spec. cbn [Pos.switch_Eq].
    destruct (Pos.compare_spec mx my) as [F|F|F]; cbn -[Z.lt];
      try lia; subst; reflexivity.
Qed.

Lemma SFcompare_nan_l y : SFcompare S754_nan y = None.
Proof. reflexivity. Qed.

Lemma SFcompare_nan_r x : SFcompare x S754_nan = None.
Proof. now destruct x. Qed.

Lemma SFcompare_cases (x y : spec_float) :
  ((x = S754_nan \/ y = S754_nan) /\ SFcompare x y = None)
  \/ (x <> S754_nan /\ y <> S754_nan
      /\ ((SFcompare x y = Some Lt /\ key_lt (ord3 x) (ord3 y))
          \/ (SFcompare x y = Some Eq /\ ord3 x = ord3 y)
          \/ (SFcompare x y = Some Gt /\ key_lt (ord3 y) (ord3 x)))).
Proof.
  destruct (spec_float_eqb x S754_nan) eqn:Ex.
  { destruct x; try discriminate Ex. left. now split; [left|]. }
  destruct (spec_float_eqb y S754_nan) eqn:Ey.
  { destruct y; try discriminate Ey. left.
    split; [now right|apply SFcompare_nan_r]. }
  right.
  assert (Hx : x <> S754_nan) by (intros ->; discriminate Ex).
  assert (Hy : y <> S754_nan) by (intros ->; discriminate Ey).
  split; [exact Hx|]. split; [exact Hy|].
  pose proof (SFcompare_keys x y Hx Hy) as K.
  destruct (SFcompare x y) as [[| |]|]; [| | |contradiction]; tauto.
Qed.

Lemma key_lt_irrefl a : ~ key_lt a a.
Proof. unfold key_lt. lia. Qed.

Lemma ltb_key (x y : float) :
  (x <? y)%float = true <-> not_nan x /\ not_nan y /\ key_lt (key x) (key y).
Proof.
  rewrite ltb_spec. unfold SFltb, not_nan, key.
  destruct (SFcompare_cases (Prim2SF x) (Prim2SF y))
    as [[N E]|(Hx & Hy & [[E K]|[[E K]|[E K]]])]; rewrite E.
  - split; [discriminate|]. intros (A & B & _). tauto.
  - tauto.
  - split; [discriminate|]. intros (_ & _ & L). rewrite K in L.
    now apply key_lt_irrefl in L.
  - split; [discriminate|]. intros (_ & _ & L).
    exfalso. exact (key_lt_asym _ _ K L).
Qed.


Lemma eqb_key (x y : float) :
  (x =? y)%float = true <-> not_nan x /\ not_nan y /\ key x = key y.
Proof.
  rewrite FloatAxioms.eqb_spec. unfold SFeqb, not_nan, key.
  destruct (SFcompare_cases (Prim2SF x) (Prim2SF y))
    as [[N E]|(Hx & Hy & [[E K]|[[E K]|[E K]]])]; rewrite E.
  - split; [discriminate|]. intros (A & B & _). tauto.
  - split; [discriminate|]. intros (_ & _ & L). rewrite L in K.
    now apply key_lt_irrefl in K.
  - tauto.
  - split; [discriminate|]. intros (_ & _ & L). rewrite L in K.
    now apply key_lt_irrefl in K.
Qed.

Lemma is_nan_key (x : float) : is_nan x = true <-> ~ not_nan x.
Proof.
  unfold is_nan. rewrite Bool.negb_true_iff.
  split.
  - intros H N. apply Bool.not_true_iff_false in H. apply H.
    apply eqb_key. auto.
  - intros H. apply Bool.not_true_iff_false. intros E.
    apply eqb_key in E. tauto.
Qed.

Lemma is_nan_false_key (x : float) : is_nan x = false <-> not_nan x.
Proof.
  rewrite <- Bool.not_true_iff_false, is_nan_key. unfold not_nan.
  destruct (Prim2SF x); split; intros H; try discriminate; try tauto;
    try (intros _; discriminate); try (intros N; apply N; discriminate).
Qed.





(* ================================================================= *)
(** ** Sorting the reference curve *)


Lemma insert_index_perm (a : array) (i : nat) (l : list nat) :
  Permutation (insert_index a i l) (i :: l).
Proof.
  induction l as [|j l IH]; cbn [insert_index]; [reflexivity|].
  destruct (sort_lt _ _); [|reflexivity].
  rewrite IH. apply perm_swap.
Qed.


Lemma argsort_perm (a : array) :
  Permutation (argsort a) (seq 0 (List.length a)).
Proof.
  unfold argsort. induction (seq 0 (List.length a)) as [|i l IH];
    cbn [fold_right]; [reflexivity|].
  rewrite insert_index_perm. now constructor.
Qed.


Lemma argsort_bound (a : array) :
  Forall (fun i => (i < List.length a)%nat) (argsort a).
Proof.
  eapply Permutation_Forall; [symmetry; apply argsort_perm|].
  apply Forall_forall. intros i Hi. apply in_seq in Hi. lia.
Qed.

Lemma argsort_length (a : array) :
  List.length (argsort a) = List.length a.
Proof.
  rewrite (Permutation_length (argsort_perm a)). apply length_seq.
Qed.

(** The array [a] read at the indices [idx]. *)
Definition gather (a : array) (idx : list nat) : array :=
  List.map (fun i => nth i a nan) idx.

Lemma take_gather (a : array) (idx : list nat) :
  Forall (fun i => (i < List.length a)%nat) idx ->
  take a idx = Ok (gather a idx).
Proof.
  induction 1 as [|i idx Hi _ IH]; [reflexivity|].
  cbn [take]. unfold index.
  destruct (nth_error a i) as [x|] eqn:E.
  - cbn [rbind]. rewrite IH. cbn [rbind gather List.map].
    now rewrite (nth_error_nth a i nan E).
  - apply nth_error_None in E. lia.
Qed.





(* ================================================================= *)
(** ** Interpolation on an ascending curve *)

Lemma ltb_not_nan_l (x y : float) : (x <? y)%float = true -> is_nan x = false.
Proof. intros H. apply ltb_key in H. now apply is_nan_false_key. Qed.

Lemma ltb_not_nan_r (x y : float) : (x <? y)%float = true -> is_nan y = false.
Proof. intros H. apply ltb_key in H. now apply is_nan_false_key. Qed.

Lemma ltb_asym (x y : float) :
  (x <? y)%float = true -> (y <? x)%float = false.
Proof.
  intros H. apply Bool.not_true_iff_false. intros G.
  apply ltb_key in H, G.
  destruct H as (_ & _ & H), G as (_ & _ & G).
  exact (key_lt_asym _ _ H G).
Qed.

Lemma nth_last_In (a : array) :
  a <> [] -> In (nth (List.length a - 1) a nan) a.
Proof.
  intros H. apply nth_In. destruct a; [now elim H|]. simpl. lia.
Qed.

Lemma nth_first_In (a : array) : a <> [] -> In (nth 0 a nan) a.
Proof.
  intros H. apply nth_In. destruct a; [now elim H|]. simpl. lia.
Qed.

(** Below every sample the value is [lval]. *)
Lemma interp_point_below (xp fp : array) (lval rval x : float) :
  xp <> [] ->
  (forall y, In y xp -> (x <? y)%float = true) ->
  interp_point xp fp lval rval x = lval.
Proof.
  intros Hne Hx.
  pose proof (Hx _ (nth_first_In xp Hne)) as H0.
  pose proof (Hx _ (nth_last_In xp Hne)) as H1.
  assert (E : interp_at xp fp lval rval x = lval).
  { unfold interp_at.
    now rewrite (ltb_not_nan_l _ _ H0), (ltb_asym _ _ H1), H0. }
  unfold interp_point. destruct xp as [|x0 [|x1 xp]]; [now elim Hne| |exact E].
  destruct fp as [|f0 [|f1 fp]]; try exact E.
  unfold interp_single. cbn [nth] in H0. now rewrite H0.
Qed.

(** Above every sample the value is [rval]. *)
Lemma interp_point_above (xp fp : array) (lval rval x : float) :
  xp <> [] ->
  (forall y, In y xp -> (y <? x)%float = true) ->
  interp_point xp fp lval rval x = rval.
Proof.
  intros Hne Hx.
  pose proof (Hx _ (nth_first_In xp Hne)) as H0.
  pose proof (Hx _ (nth_last_In xp Hne)) as H1.
  assert (E : interp_at xp fp lval rval x = rval).
  { unfold interp_at.
    now rewrite (ltb_not_nan_r _ _ H0), H1. }
  unfold interp_point. destruct xp as [|x0 [|x1 xp]]; [now elim Hne| |exact E].
  destruct fp as [|f0 [|f1 fp]]; try exact E.
  unfold interp_single. cbn [nth] in H0.
  now rewrite (ltb_asym _ _ H0), H0.
Qed.



(* ================================================================= *)
(** ** Baseline reduction *)

Lemma index_nth (a : array) (i : nat) :
  (i < List.length a)%nat -> index a i = Ok (nth i a nan).
Proof.
  intros H. unfold index. destruct (nth_error a i) as [x|] eqn:E.
  - now rewrite (nth_error_nth a i nan E).
  - apply nth_error_None in E. lia.
Qed.

Lemma index_last_nth (a : array) :
  a <> [] -> index_last a = Ok (nth (List.length a - 1) a nan).
Proof.
  intros H. unfold index_last.
  assert (L : (0 < List.length a)%nat) by (destruct a; [now elim H|simpl; lia]).
  pose proof (rev_nth a nan L) as E.
  destruct (rev a) as [|x r] eqn:R.
  - apply (f_equal (@List.length _)) in R. rewrite length_rev in R.
    simpl in R. lia.
  - cbn [nth] in E. rewrite E. do 2 f_equal; lia.
Qed.

Lemma gather_length (a : array) (idx : list nat) :
  List.length (gather a idx) = List.length idx.
Proof. apply length_map. Qed.

Lemma interp_ok (x xp fp : array) (lval rval : float) :
  xp <> [] -> List.length xp = List.length fp ->
  interp x xp fp lval rval = Ok (List.map (interp_point xp fp lval rval) x).
Proof.
  intros Hne Hlen. unfold interp. destruct xp; [now elim Hne|].
  now rewrite Hlen, Nat.eqb_refl.
Qed.



(** The reference curve sorted by frequency. *)
Definition sorted_freq (red_freq : array) : array :=
  gather red_freq (argsort red_freq).
Definition sorted_mag (red_freq red_mag_db : array) : array :=
  gather red_mag_db (argsort red_freq).

(** The sorted reference at a target frequency: the value of [np.interp]
    with [left] and [right] the first and the last sorted magnitude. *)
Definition reference_at (red_freq red_mag_db : array) (x : float) : float :=
  let rm := sorted_mag red_freq red_mag_db in
  interp_point (sorted_freq red_freq) rm
    (nth 0 rm nan) (nth (List.length rm - 1) rm nan) x.

Lemma apply_reduction_value (freq mag_db red_freq red_mag_db : array) :
  red_freq <> [] ->
  List.length red_mag_db = List.length red_freq ->
  List.length freq = List.length mag_db ->
  apply_reduction freq mag_db red_freq red_mag_db
  = Ok (map2 PrimFloat.sub mag_db
          (List.map (reference_at red_freq red_mag_db) freq)).
Proof.
  intros Hne Hlen Hfm. unfold apply_reduction.
  assert (L : (0 < List.length red_freq)%nat)
    by (destruct red_freq; [now elim Hne|simpl; lia]).
  replace (List.length red_freq =? 0)%nat with false
    by (symmetry; apply Nat.eqb_neq; lia).
  replace (List.length red_mag_db =? 0)%nat with false
    by (symmetry; apply Nat.eqb_neq; lia).
  cbn [orb].
  rewrite (take_gather red_freq _ (argsort_bound red_freq)).
  cbn [rbind].
  rewrite (take_gather red_mag_db (argsort red_freq))
    by (rewrite Hlen; apply argsort_bound).
  cbn [rbind].
  fold (sorted_freq red_freq). fold (sorted_mag red_freq red_mag_db).
  assert (Lm : List.length (sorted_mag red_freq red_mag_db)
               = List.length red_freq)
    by (unfold sorted_mag; now rewrite gather_length, argsort_length).
  assert (Lf : List.length (sorted_freq red_freq) = List.length red_freq)
    by (unfold sorted_freq; now rewrite gather_length, argsort_length).
  rewrite index_nth by lia. cbn [rbind].
  rewrite index_last_nth
    by (intros E; rewrite E in Lm; simpl in Lm; lia).
  cbn [rbind].
  rewrite interp_ok;
    [|intros E; rewrite E in Lf; simpl in Lf; lia|congruence].
  cbn [rbind].
  unfold Np.sub. rewrite elementwise_same_length
    by (now rewrite length_map).
  reflexivity.
Qed.























(* ================================================================= *)
(** ** The grouping block *)

(** The loop of lines 193-197, were the group size at hand: 25 files in
    groups of 10 give three calls of [plot_files], on files 1-10, 11-20 and
    21-25 in order, titled "Parte 1", "Parte 2" and "Parte 3". *)
Lemma plot_groups_25_by_10 (files : list file_data) (flags : list bool)
    (titulo : str) :
  List.length files = 25%nat ->
  plot_groups files flags titulo 10
  = [PlotFiles (firstn 10 files) (titulo ++ lit " - Parte 1")
       (firstn 10 flags);
     PlotFiles (firstn 10 (skipn 10 files)) (titulo ++ lit " - Parte 2")
       (firstn 10 (skipn 10 flags));
     PlotFiles (firstn 10 (skipn 20 files)) (titulo ++ lit " - Parte 3")
       (firstn 10 (skipn 20 flags))]
  /\ List.length (firstn 10 files) = 10%nat
  /\ List.length (firstn 10 (skipn 10 files)) = 10%nat
  /\ List.length (firstn 10 (skipn 20 files)) = 5%nat
  /\ firstn 10 files ++ firstn 10 (skipn 10 files)
       ++ firstn 10 (skipn 20 files) = files.
Proof.
  intros H. split.
  - unfold plot_groups. rewrite H. reflexivity.
  - repeat split.
    + rewrite length_firstn. lia.
    + rewrite length_firstn, length_skipn. lia.
    + rewrite length_firstn, length_skipn. lia.
    + rewrite (firstn_all2 (n := 10) (skipn 20 files))
        by (rewrite length_skipn; lia).
      replace (skipn 20 files) with (skipn 10 (skipn 10 files))
        by (now rewrite skipn_skipn).
      rewrite firstn_skipn. apply firstn_skipn.
Qed.

(** C8, on the code: with more than ten files and the answer "Sim", the
    handler reaches [simpledialog.askinteger], a name app.py never binds,
    and raises [NameError] before any group is plotted.  Whatever the files,
    the flags and the title. *)
Theorem gerar_grafico_grouping_raises :
  forall (files : list file_data) (flags : list bool) (titulo : str),
    List.length files = 25%nat ->
    gerar_grafico app_simpledialog files flags titulo (lit "Sim")
    = Raise NameError.
Proof.
  intros files flags titulo H. unfold gerar_grafico. rewrite H. reflexivity.
Qed.

Lemma gerar_grafico_grouping_raises_witness :
  gerar_grafico app_simpledialog (repeat (lit "a.s2p", []) 25)
    (repeat false 25) (lit "T") (lit "Sim")
  = Raise NameError.
Proof.
  exact (gerar_grafico_grouping_raises (repeat (lit "a.s2p", []) 25)
           (repeat false 25) (lit "T") eq_refl).
Defined.

(* ================================================================= *)
(** ** Rounding to the nearest: integers *)

Section RoundHalfEven.

Variables num den : Z.
Hypothesis num_nonneg : (0 <= num)%Z.
Hypothesis den_pos : (0 < den)%Z.

(** The rounded quotient is within half a unit of the exact one. *)
Lemma rne_div_half :
  (Z.abs (2 * (rne_div num den * den - num)) <= den)%Z.
Proof.
  unfold rne_div.
  pose proof (Z.div_mod num den ltac:(lia)) as E.
  pose proof (Z.mod_pos_bound num den den_pos) as B.
  set (q := (num / den)%Z) in *. set (r := (num mod den)%Z) in *.
  destruct (Z.compare_spec (2 * r) den) as [C|C|C].
  - destruct (Z.even q); nia.
  - nia.
  - nia.
Qed.

Lemma rne_div_nonneg : (0 <= rne_div num den)%Z.
Proof.
  unfold rne_div.
  pose proof (Z.div_pos num den num_nonneg den_pos) as Q.
  destruct (Z.compare_spec (2 * (num mod den)) den);
    try destruct (Z.even _); lia.
Qed.

(** No integer is nearer to the exact quotient. *)
Lemma rne_div_nearest (j : Z) :
  (Z.abs (rne_div num den * den - num) <= Z.abs (j * den - num))%Z.
Proof.
  pose proof rne_div_half as H.
  set (m := rne_div num den) in *.
  destruct (Z.eq_dec j m) as [->|Hj]; [lia|].
  assert (D : (j * den - num = (j - m) * den + (m * den - num))%Z) by ring.
  rewrite D.
  assert (G : (den <= Z.abs ((j - m) * den))%Z).
  { rewrite Z.abs_mul, (Z.abs_eq den) by lia.
    assert (1 <= Z.abs (j - m))%Z by lia. nia. }
  lia.
Qed.

(** Rounding does not cross an integer. *)
Lemma rne_div_le (b : Z) : (num <= b * den -> rne_div num den <= b)%Z.
Proof.
  intros Hb. pose proof rne_div_half as H.
  set (m := rne_div num den) in *.
  destruct (Z_le_gt_dec m b) as [L|G]; [exact L|].
  assert ((b + 1) * den <= m * den)%Z by nia. nia.
Qed.

Lemma rne_div_ge (b : Z) : (b * den <= num -> b <= rne_div num den)%Z.
Proof.
  intros Hb. pose proof rne_div_half as H.
  set (m := rne_div num den) in *.
  destruct (Z_le_gt_dec b m) as [L|G]; [exact L|].
  assert ((m + 1) * den <= b * den)%Z by nia. nia.
Qed.

(** A common factor of numerator and denominator does not matter. *)
Lemma rne_div_scale (c : Z) :
  (0 < c)%Z -> rne_div (num * c) (den * c) = rne_div num den.
Proof.
  intros Hc. unfold rne_div.
  rewrite Z.div_mul_cancel_r by lia.
  rewrite Z.mul_mod_distr_r by lia.
  set (q := (num / den)%Z). set (r := (num mod den)%Z).
  destruct (Z.compare_spec (2 * (r * c)) (den * c)) as [A|A|A];
    destruct (Z.compare_spec (2 * r) den) as [B|B|B];
    try reflexivity; exfalso; nia.
Qed.

End RoundHalfEven.

Lemma rne_div_exact (m den : Z) :
  (0 < den)%Z -> rne_div (m * den) den = m.
Proof.
  intros H. unfold rne_div.
  rewrite Z.div_mul by lia. rewrite Z.mod_mul by lia.
  destruct den; try lia. reflexivity.
Qed.

(* ================================================================= *)
(** ** The binary logarithm of a ratio *)

(** [2^k <= n / d] as an inequality of integers: any two exponents the
    difference of which is [k] will do. *)
Lemma pow2_le_ratio_iff (k a b : Z) (n d : positive) :
  (0 <= a)%Z -> (0 <= b)%Z -> (a - b = k)%Z ->
  pow2_le_ratio k n d = true <-> (Zpos d * 2 ^ a <= Zpos n * 2 ^ b)%Z.
Proof.
  intros Ha Hb Hk. unfold pow2_le_ratio.
  assert (Pb : (0 < 2 ^ b)%Z) by (apply Z.pow_pos_nonneg; lia).
  assert (Pa : (0 < 2 ^ a)%Z) by (apply Z.pow_pos_nonneg; lia).
  destruct (Z.leb_spec 0 k) as [K|K].
  - rewrite Z.leb_le. replace a with (k + b)%Z by lia.
    rewrite Z.pow_add_r by lia.
    assert (Pk : (0 < 2 ^ k)%Z) by (apply Z.pow_pos_nonneg; lia).
    split; intros H; nia.
  - rewrite Z.leb_le. replace b with (- k + a)%Z by lia.
    rewrite Z.pow_add_r by lia.
    assert (Pk : (0 < 2 ^ (- k))%Z) by (apply Z.pow_pos_nonneg; lia).
    split; intros H; nia.
Qed.

Lemma pow2_le_ratio_antitone (k k' : Z) (n d : positive) :
  (k <= k')%Z ->
  pow2_le_ratio k' n d = true -> pow2_le_ratio k n d = true.
Proof.
  intros Hk H.
  set (B := (Z.abs k + Z.abs k')%Z).
  rewrite (pow2_le_ratio_iff k' (k' + B) B) in H by lia.
  rewrite (pow2_le_ratio_iff k (k + B) B) by lia.
  assert (2 ^ (k + B) <= 2 ^ (k' + B))%Z
    by (apply Z.pow_le_mono_r; lia).
  assert (0 < 2 ^ (k + B))%Z by (apply Z.pow_pos_nonneg; lia).
  nia.
Qed.

Lemma ilog2_ratio_spec (n d : positive) :
  pow2_le_ratio (ilog2_ratio n d) n d = true
  /\ pow2_le_ratio (ilog2_ratio n d + 1) n d = false.
Proof.
  unfold ilog2_ratio.
  set (ln := Z.log2 (Zpos n)). set (ld := Z.log2 (Zpos d)).
  destruct (Z.log2_spec (Zpos n) ltac:(lia)) as [N1 N2].
  destruct (Z.log2_spec (Zpos d) ltac:(lia)) as [D1 D2].
  fold ln in N1, N2. fold ld in D1, D2.
  pose proof (Z.log2_nonneg (Zpos n)) as Ln. fold ln in Ln.
  pose proof (Z.log2_nonneg (Zpos d)) as Ld. fold ld in Ld.
  rewrite Z.pow_succ_r in N2, D2 by lia.
  assert (P1 : (0 < 2 ^ ln)%Z) by (apply Z.pow_pos_nonneg; lia).
  assert (P2 : (0 < 2 ^ ld)%Z) by (apply Z.pow_pos_nonneg; lia).
  assert (Hhi : pow2_le_ratio (ln - ld + 1) n d = false).
  { apply Bool.not_true_iff_false.
    rewrite (pow2_le_ratio_iff _ (ln + 1) ld) by lia.
    rewrite Z.pow_add_r by lia. change (2 ^ 1)%Z with 2%Z. nia. }
  assert (Hlo : pow2_le_ratio (ln - ld - 1) n d = true).
  { rewrite (pow2_le_ratio_iff _ ln (ld + 1)) by lia.
    rewrite Z.pow_add_r by lia. change (2 ^ 1)%Z with 2%Z. nia. }
  destruct (pow2_le_ratio (ln - ld) n d) eqn:E.
  - split; [exact E|exact Hhi].
  - split; [exact Hlo|].
    now replace (ln - ld - 1 + 1)%Z with (ln - ld)%Z by lia.
Qed.

Lemma ilog2_ratio_unique (k : Z) (n d : positive) :
  pow2_le_ratio k n d = true -> pow2_le_ratio (k + 1) n d = false ->
  ilog2_ratio n d = k.
Proof.
  intros H1 H2. destruct (ilog2_ratio_spec n d) as [S1 S2].
  destruct (Z.lt_trichotomy (ilog2_ratio n d) k) as [L|[E|G]]; [|exact E|].
  - rewrite (pow2_le_ratio_antitone (ilog2_ratio n d + 1) k n d) in S2
      by (lia || assumption).
    discriminate S2.
  - rewrite (pow2_le_ratio_antitone (k + 1) (ilog2_ratio n d) n d) in H2
      by (lia || assumption).
    discriminate H2.
Qed.

Lemma pow2_le_ratio_scale (k : Z) (n d c : positive) :
  pow2_le_ratio k (n * c) (d * c) = pow2_le_ratio k n d.
Proof.
  set (B := Z.abs k).
  apply Bool.eq_iff_eq_true.
  rewrite (pow2_le_ratio_iff k (k + B) B) by lia.
  rewrite (pow2_le_ratio_iff k (k + B) B) by lia.
  rewrite !Pos2Z.inj_mul.
  assert (0 < 2 ^ (k + B))%Z by (apply Z.pow_pos_nonneg; lia).
  assert (0 < 2 ^ B)%Z by (apply Z.pow_pos_nonneg; lia).
  split; intros H1; nia.
Qed.

Lemma ilog2_ratio_scale (n d c : positive) :
  ilog2_ratio (n * c) (d * c) = ilog2_ratio n d.
Proof.
  destruct (ilog2_ratio_spec n d) as [S1 S2].
  apply ilog2_ratio_unique; now rewrite pow2_le_ratio_scale.
Qed.

(** Scaling numerator and denominator does not change the rounded value. *)
Lemma round_ratio_scale (neg : bool) (n d c : positive) :
  round_ratio neg (n * c) (d * c) = round_ratio neg n d.
Proof.
  unfold round_ratio. rewrite ilog2_ratio_scale.
  set (e := Z.max (ilog2_ratio n d - 52) (-1074)).
  assert (E : (if (0 <=? e)%Z
               then rne_div (Zpos (n * c)) (Zpos (d * c) * 2 ^ e)
               else rne_div (Zpos (n * c) * 2 ^ (- e)) (Zpos (d * c)))
              = (if (0 <=? e)%Z then rne_div (Zpos n) (Zpos d * 2 ^ e)
                 else rne_div (Zpos n * 2 ^ (- e)) (Zpos d))).
  { rewrite !Pos2Z.inj_mul. destruct (Z.leb_spec 0 e) as [L|L].
    - replace (Zpos d * Zpos c * 2 ^ e)%Z with (Zpos d * 2 ^ e * Zpos c)%Z
        by ring.
      apply rne_div_scale; lia.
    - replace (Zpos n * Zpos c * 2 ^ (- e))%Z
        with (Zpos n * 2 ^ (- e) * Zpos c)%Z by ring.
      apply rne_div_scale; lia. }
  now rewrite E.
Qed.

(* ================================================================= *)
(** ** Rounding a ratio to binary64 *)

(** The largest binary64 number, as an integer. *)
Definition max_float_Z : Z := ((2 ^ 53 - 1) * 2 ^ 971)%Z.

(** [round_ratio] in two steps: the exponent picked from the size of the
    ratio and the quotient rounded at that exponent, then the carry and the
    overflow.  Numerator and denominator are scaled by [2^1074], so that no
    exponent is negative. *)
Definition ratio_exp (n d : positive) : Z :=
  Z.max (ilog2_ratio n d - 52) (-1074).

Definition ratio_num (n : positive) : Z := (Zpos n * 2 ^ 1074)%Z.

Definition ratio_den (n d : positive) : Z :=
  (Zpos d * 2 ^ (ratio_exp n d + 1074))%Z.

Definition ratio_mant (n d : positive) : Z :=
  rne_div (ratio_num n) (ratio_den n d).

Definition normalise (neg : bool) (m e : Z) : spec_float :=
  let m' := if (m =? 2 ^ 53)%Z then (2 ^ 52)%Z else m in
  let e' := if (m =? 2 ^ 53)%Z then (e + 1)%Z else e in
  if (971 <? e')%Z then S754_infinity neg
  else match m' with
       | Zpos p => S754_finite neg p e'
       | _ => S754_zero neg
       end.

Lemma rne_div_equiv (num den num' den' : Z) :
  (0 < den)%Z -> (0 < den')%Z -> (num * den' = num' * den)%Z ->
  rne_div num den = rne_div num' den'.
Proof.
  intros H H' E.
  rewrite <- (rne_div_scale num den H den' H').
  rewrite <- (rne_div_scale num' den' H' den H).
  rewrite E. f_equal. ring.
Qed.

Lemma ratio_exp_ge (n d : positive) : (-1074 <= ratio_exp n d)%Z.
Proof. unfold ratio_exp. lia. Qed.

Lemma ratio_num_pos (n : positive) : (0 < ratio_num n)%Z.
Proof.
  unfold ratio_num. apply Z.mul_pos_pos; [lia|].
  apply Z.pow_pos_nonneg; lia.
Qed.

Lemma ratio_den_pos (n d : positive) : (0 < ratio_den n d)%Z.
Proof.
  unfold ratio_den. pose proof (ratio_exp_ge n d).
  apply Z.mul_pos_pos; [lia|]. apply Z.pow_pos_nonneg; lia.
Qed.

Lemma round_ratio_eq (neg : bool) (n d : positive) :
  round_ratio neg n d = normalise neg (ratio_mant n d) (ratio_exp n d).
Proof.
  unfold round_ratio, normalise. fold (ratio_exp n d).
  pose proof (ratio_exp_ge n d) as He.
  pose proof (ratio_den_pos n d) as Hd.
  set (e := ratio_exp n d) in *.
  assert (E : (if (0 <=? e)%Z then rne_div (Zpos n) (Zpos d * 2 ^ e)
               else rne_div (Zpos n * 2 ^ (- e)) (Zpos d))
              = ratio_mant n d).
  { unfold ratio_mant, ratio_num, ratio_den. fold e.
    unfold ratio_den in Hd. fold e in Hd.
    destruct (Z.leb_spec 0 e) as [L|L]; apply rne_div_equiv.
    - apply Z.mul_pos_pos; [lia|]. apply Z.pow_pos_nonneg; lia.
    - exact Hd.
    - rewrite (Z.pow_add_r 2 e 1074) by lia. ring.
    - lia.
    - exact Hd.
    - assert (P : (2 ^ (- e) * 2 ^ (e + 1074) = 2 ^ 1074)%Z)
        by (rewrite <- Z.pow_add_r by lia; f_equal; lia).
      rewrite <- P. ring. }
  cbv zeta. rewrite E. reflexivity.
Qed.

(** The size of the ratio, on the scale of [ratio_num] and [ratio_den]. *)
Lemma ratio_size_normal (n d : positive) :
  (-1022 <= ilog2_ratio n d)%Z ->
  ratio_exp n d = (ilog2_ratio n d - 52)%Z
  /\ (2 ^ 52 * ratio_den n d <= ratio_num n < 2 ^ 53 * ratio_den n d)%Z.
Proof.
  intros Hk. destruct (ilog2_ratio_spec n d) as [K1 K2].
  unfold ratio_den, ratio_num, ratio_exp.
  set (k := ilog2_ratio n d) in *.
  rewrite Z.max_l by lia. split; [reflexivity|].
  rewrite (pow2_le_ratio_iff k (k + 1074) 1074) in K1 by lia.
  apply Bool.not_true_iff_false in K2.
  rewrite (pow2_le_ratio_iff (k + 1) (k + 1075) 1074) in K2 by lia.
  replace (k + 1074)%Z with (52 + (k - 52 + 1074))%Z in K1 by lia.
  replace (k + 1075)%Z with (53 + (k - 52 + 1074))%Z in K2 by lia.
  rewrite Z.pow_add_r in K1, K2 by lia.
  set (g := (2 ^ (k - 52 + 1074))%Z) in *.
  set (a := (2 ^ 52)%Z) in *. set (b := (2 ^ 53)%Z) in *.
  set (t := (2 ^ 1074)%Z) in *. lia.
Qed.

Lemma ratio_size_subnormal (n d : positive) :
  (ilog2_ratio n d < -1022)%Z ->
  ratio_exp n d = (-1074)%Z /\ ratio_den n d = Zpos d
  /\ (ratio_num n < 2 ^ 52 * ratio_den n d)%Z.
Proof.
  intros Hk. destruct (ilog2_ratio_spec n d) as [_ K2].
  unfold ratio_den, ratio_num, ratio_exp.
  set (k := ilog2_ratio n d) in *.
  rewrite Z.max_r by lia. split; [reflexivity|].
  change (2 ^ (-1074 + 1074))%Z with 1%Z. rewrite Z.mul_1_r.
  split; [reflexivity|].
  assert (K : pow2_le_ratio (-1022) n d = false).
  { destruct (pow2_le_ratio (-1022) n d) eqn:E; [|reflexivity].
    rewrite (pow2_le_ratio_antitone (k + 1) (-1022) n d) in K2
      by (lia || assumption).
    discriminate K2. }
  apply Bool.not_true_iff_false in K.
  rewrite (pow2_le_ratio_iff (-1022) 52 1074) in K by lia.
  set (a := (2 ^ 52)%Z) in *. set (t := (2 ^ 1074)%Z) in *. lia.
Qed.

Lemma ratio_mant_le (n d : positive) : (0 <= ratio_mant n d <= 2 ^ 53)%Z.
Proof.
  pose proof (ratio_num_pos n) as Hn. pose proof (ratio_den_pos n d) as Hd.
  unfold ratio_mant. split.
  - apply rne_div_nonneg; lia.
  - apply rne_div_le; [exact Hd|].
    destruct (Z_le_gt_dec (-1022) (ilog2_ratio n d)) as [L|G].
    + destruct (ratio_size_normal n d L) as (_ & _ & H). lia.
    + destruct (ratio_size_subnormal n d ltac:(lia)) as (_ & _ & H).
      set (a := (2 ^ 52)%Z) in *.
      change (2 ^ 53)%Z with (2 * 2 ^ 52)%Z. fold a. nia.
Qed.

Lemma ratio_mant_ge (n d : positive) :
  (-1022 <= ilog2_ratio n d)%Z -> (2 ^ 52 <= ratio_mant n d)%Z.
Proof.
  intros L. pose proof (ratio_den_pos n d) as Hd.
  destruct (ratio_size_normal n d L) as (_ & H & _).
  unfold ratio_mant. apply rne_div_ge; assumption.
Qed.

Lemma ratio_mant_subnormal (n d : positive) :
  (ilog2_ratio n d < -1022)%Z -> (ratio_mant n d <= 2 ^ 52)%Z.
Proof.
  intros L. pose proof (ratio_den_pos n d) as Hd.
  destruct (ratio_size_subnormal n d L) as (_ & _ & H).
  unfold ratio_mant. apply rne_div_le; [exact Hd|lia].
Qed.

(* ================================================================= *)
(** ** The binary64 numbers *)

(** The numbers [Prim2SF] returns: a mantissa of 53 bits, or fewer at the
    least exponent. *)
Lemma digits2_pos_size (p : positive) : digits2_pos p = Pos.size p.
Proof. induction p as [p IH|p IH|]; cbn; now rewrite ?IH. Qed.

Lemma digits2_pos_log2 (p : positive) :
  Zpos (digits2_pos p) = (Z.log2 (Zpos p) + 1)%Z.
Proof.
  rewrite digits2_pos_size. destruct p as [p|p|]; cbn [Z.log2 Pos.size]; lia.
Qed.

Lemma bounded_spec (m : positive) (e : Z) :
  bounded 53 1024 m e = true
  <-> (-1074 <= e <= 971)%Z /\ (Zpos m < 2 ^ 53)%Z
      /\ (2 ^ 52 <= Zpos m \/ e = (-1074)%Z)%Z.
Proof.
  unfold bounded, canonical_mantissa, fexp, emin.
  rewrite digits2_pos_log2, Bool.andb_true_iff, Z.eqb_eq, Z.leb_le.
  change (3 - 1024 - 53)%Z with (-1074)%Z.
  change (1024 - 53)%Z with 971%Z.
  pose proof (Z.log2_nonneg (Zpos m)) as L0.
  assert (A : (Z.log2 (Zpos m) < 53 <-> Zpos m < 2 ^ 53)%Z)
    by (symmetry; apply Z.log2_lt_pow2; lia).
  assert (B : (52 <= Z.log2 (Zpos m) <-> 2 ^ 52 <= Zpos m)%Z)
    by (symmetry; apply Z.log2_le_pow2; lia).
  set (l := Z.log2 (Zpos m)) in *.
  set (a := (2 ^ 52)%Z) in *. set (b := (2 ^ 53)%Z) in *.
  split.
  - intros [C D]. lia.
  - intros (C & D & E). apply A in D.
    split; [|lia]. destruct E as [E|E]; [apply B in E; lia|lia].
Qed.

(** The quotient that [rne_div] returns is the only one within half a unit,
    and the even one of the two at a tie. *)
Lemma rne_div_unique (num den m : Z) :
  (0 < den)%Z ->
  (2 * Z.abs (m * den - num) < den)%Z
  \/ ((2 * Z.abs (m * den - num) = den)%Z /\ Z.even m = true) ->
  rne_div num den = m.
Proof.
  intros Hden H. unfold rne_div.
  pose proof (Z.div_mod num den ltac:(lia)) as E.
  pose proof (Z.mod_pos_bound num den Hden) as B.
  set (q := (num / den)%Z) in *. set (r := (num mod den)%Z) in *.
  assert (Hm : (m = q \/ m = q + 1)%Z) by nia.
  destruct (Z.compare_spec (2 * r) den) as [C|C|C].
  - destruct Hm as [->| ->]; destruct H as [H|[H Ev]].
    + destruct (Z.even q); nia.
    + now rewrite Ev.
    + destruct (Z.even q) eqn:Eq; [nia|reflexivity].
    + rewrite Z.even_add in Ev. destruct (Z.even q); [discriminate|reflexivity].
  - destruct Hm as [->| ->]; [reflexivity|nia].
  - destruct Hm as [->| ->]; [nia|reflexivity].
Qed.

Lemma rne_div_tie_even (num den : Z) :
  (0 < den)%Z ->
  (2 * Z.abs (rne_div num den * den - num) = den)%Z ->
  Z.even (rne_div num den) = true.
Proof.
  intros Hden. unfold rne_div.
  pose proof (Z.div_mod num den ltac:(lia)) as E.
  pose proof (Z.mod_pos_bound num den Hden) as B.
  set (q := (num / den)%Z) in *. set (r := (num mod den)%Z) in *.
  destruct (Z.compare_spec (2 * r) den) as [C|C|C]; intros H.
  - destruct (Z.even q) eqn:Eq; [exact Eq|].
    rewrite Z.even_add, Eq. reflexivity.
  - nia.
  - nia.
Qed.

Lemma rne_div_mono (num num' den : Z) :
  (0 < den)%Z -> (num <= num')%Z -> (rne_div num den <= rne_div num' den)%Z.
Proof.
  intros Hden Hle.
  destruct (Z.eq_dec num num') as [->|Hne]; [lia|].
  pose proof (rne_div_half num den Hden) as H.
  pose proof (rne_div_half num' den Hden) as H'.
  set (m := rne_div num den) in *. set (m' := rne_div num' den) in *.
  nia.
Qed.

(** [n / d] is [m * 2^e]. *)
Definition ratio_is (n d : positive) (m e : Z) : Prop :=
  (Zpos n * 2 ^ 1074 = m * 2 ^ (e + 1074) * Zpos d)%Z.

Lemma ratio_exp_normal (n d : positive) (e : Z) :
  (-1074 <= e)%Z ->
  (2 ^ 52 * (Zpos d * 2 ^ (e + 1074)) <= ratio_num n
   < 2 ^ 53 * (Zpos d * 2 ^ (e + 1074)))%Z ->
  ilog2_ratio n d = (e + 52)%Z /\ ratio_exp n d = e.
Proof.
  intros He [H1 H2]. unfold ratio_num in *.
  assert (K : ilog2_ratio n d = (e + 52)%Z).
  { apply ilog2_ratio_unique.
    - rewrite (pow2_le_ratio_iff _ (52 + (e + 1074)) 1074) by lia.
      rewrite Z.pow_add_r by lia. lia.
    - apply Bool.not_true_iff_false.
      rewrite (pow2_le_ratio_iff _ (53 + (e + 1074)) 1074) by lia.
      rewrite Z.pow_add_r by lia. lia. }
  split; [exact K|]. unfold ratio_exp. rewrite K. lia.
Qed.

Lemma ratio_exp_subnormal (n d : positive) :
  (ratio_num n < 2 ^ 52 * Zpos d)%Z ->
  (ilog2_ratio n d < -1022)%Z /\ ratio_exp n d = (-1074)%Z.
Proof.
  intros H. unfold ratio_num in H.
  assert (K : (ilog2_ratio n d < -1022)%Z).
  { destruct (Z_lt_ge_dec (ilog2_ratio n d) (-1022)) as [L|G]; [exact L|].
    exfalso. destruct (ilog2_ratio_spec n d) as [K1 _].
    pose proof (pow2_le_ratio_antitone (-1022) (ilog2_ratio n d) n d
                  ltac:(lia) K1) as P.
    rewrite (pow2_le_ratio_iff (-1022) 52 1074) in P by lia. lia. }
  split; [exact K|]. unfold ratio_exp. lia.
Qed.

(** The exponent picked for a ratio that is a binary64 number is that of the
    number. *)
Lemma ratio_exp_float (n d m : positive) (e : Z) :
  bounded 53 1024 m e = true -> ratio_is n d (Zpos m) e ->
  ratio_exp n d = e /\ ratio_num n = (Zpos m * ratio_den n d)%Z.
Proof.
  intros Hb R. apply bounded_spec in Hb. destruct Hb as (He & Hm & Hn).
  unfold ratio_is in R.
  assert (Pg : (0 < Zpos d * 2 ^ (e + 1074))%Z)
    by (apply Z.mul_pos_pos; [lia|apply Z.pow_pos_nonneg; lia]).
  assert (E : ratio_exp n d = e).
  { destruct (Z_le_gt_dec (2 ^ 52) (Zpos m)) as [L|G].
    - apply (ratio_exp_normal n d e); [lia|]. unfold ratio_num.
      set (g := (Zpos d * 2 ^ (e + 1074))%Z) in *.
      replace (Zpos n * 2 ^ 1074)%Z with (Zpos m * g)%Z
        by (unfold g; rewrite R; ring).
      set (a := (2 ^ 52)%Z) in *. set (b := (2 ^ 53)%Z) in *. nia.
    - assert (e = (-1074)%Z) by lia. subst e.
      apply (ratio_exp_subnormal n d). unfold ratio_num. rewrite R.
      change (2 ^ (-1074 + 1074))%Z with 1%Z.
      set (a := (2 ^ 52)%Z) in *. nia. }
  split; [exact E|]. unfold ratio_num, ratio_den. rewrite E, R. ring.
Qed.

(** A binary64 number is rounded to itself. *)
Lemma round_ratio_exact (neg : bool) (n d m : positive) (e : Z) :
  bounded 53 1024 m e = true -> ratio_is n d (Zpos m) e ->
  round_ratio neg n d = S754_finite neg m e.
Proof.
  intros Hb R. destruct (ratio_exp_float n d m e Hb R) as [E V].
  apply bounded_spec in Hb. destruct Hb as (He & Hm & _).
  rewrite round_ratio_eq. unfold ratio_mant.
  rewrite V, rne_div_exact by apply ratio_den_pos. rewrite E.
  unfold normalise.
  replace (Zpos m =? 2 ^ 53)%Z with false by (symmetry; apply Z.eqb_neq; lia).
  replace (971 <? e)%Z with false by (symmetry; apply Z.ltb_ge; lia).
  reflexivity.
Qed.

(** A ratio within half a unit of a binary64 number of its own size is
    rounded to it. *)
Lemma round_ratio_near (neg : bool) (n d m : positive) (e : Z) :
  bounded 53 1024 m e = true -> ratio_exp n d = e ->
  (2 * Z.abs (Zpos m * ratio_den n d - ratio_num n) < ratio_den n d)%Z
  \/ ((2 * Z.abs (Zpos m * ratio_den n d - ratio_num n) = ratio_den n d)%Z
      /\ Z.even (Zpos m) = true) ->
  round_ratio neg n d = S754_finite neg m e.
Proof.
  intros Hb E H.
  apply bounded_spec in Hb. destruct Hb as (He & Hm & _).
  rewrite round_ratio_eq. unfold ratio_mant.
  rewrite (rne_div_unique _ _ (Zpos m) (ratio_den_pos n d) H), E.
  unfold normalise.
  replace (Zpos m =? 2 ^ 53)%Z with false by (symmetry; apply Z.eqb_neq; lia).
  replace (971 <? e)%Z with false by (symmetry; apply Z.ltb_ge; lia).
  reflexivity.
Qed.

(** Equal ratios are rounded alike. *)
Lemma round_ratio_equiv (neg : bool) (n d n' d' : positive) :
  (n * d' = n' * d)%positive -> round_ratio neg n d = round_ratio neg n' d'.
Proof.
  intros E.
  rewrite <- (round_ratio_scale neg n d d').
  rewrite <- (round_ratio_scale neg n' d' d).
  rewrite E. f_equal. apply Pos.mul_comm.
Qed.

(* ================================================================= *)
(** ** Decimals read as binary64 *)

Lemma pow10_pos (k : Z) : (0 <= k)%Z -> Zpos (Z.to_pos (10 ^ k)) = (10 ^ k)%Z.
Proof. intros H. apply Z2Pos.id. apply Z.pow_pos_nonneg; lia. Qed.

(** [round_decimal] rounds the ratio [c * 10^k], however it is written. *)
Lemma round_decimal_ratio (neg : bool) (c n d : positive) (k B : Z) :
  (0 <= B)%Z -> (0 <= k + B)%Z ->
  (Zpos n * 10 ^ B = Zpos c * 10 ^ (k + B) * Zpos d)%Z ->
  round_decimal neg (Npos c) k = round_ratio neg n d.
Proof.
  intros HB HkB E. unfold round_decimal.
  assert (PB : (0 < 10 ^ B)%Z) by (apply Z.pow_pos_nonneg; lia).
  assert (PkB : (0 < 10 ^ (k + B))%Z) by (apply Z.pow_pos_nonneg; lia).
  destruct (Z.leb_spec 0 k) as [L|L]; apply round_ratio_equiv;
    apply Pos2Z.inj; rewrite !Pos2Z.inj_mul, ?pow10_pos by lia.
  - rewrite Z.pow_add_r in E by lia.
    apply (Z.mul_reg_r _ _ (10 ^ B)%Z); [lia|].
    rewrite Z.mul_1_r, E. ring.
  - assert (P : (10 ^ B = 10 ^ (- k) * 10 ^ (k + B))%Z)
      by (rewrite <- Z.pow_add_r by lia; f_equal; lia).
    rewrite P in E.
    apply (Z.mul_reg_r _ _ (10 ^ (k + B))%Z); [lia|].
    replace (Zpos c * Zpos d * 10 ^ (k + B))%Z
      with (Zpos c * 10 ^ (k + B) * Zpos d)%Z by ring.
    rewrite <- E. ring.
Qed.

(** Two decimals of the same value are read alike. *)
Lemma round_decimal_equiv (neg : bool) (c c' : positive) (k k' B : Z) :
  (0 <= B)%Z -> (0 <= k + B)%Z -> (0 <= k' + B)%Z ->
  (Zpos c * 10 ^ (k + B) = Zpos c' * 10 ^ (k' + B))%Z ->
  round_decimal neg (Npos c) k = round_decimal neg (Npos c') k'.
Proof.
  intros HB Hk Hk' E.
  set (n := (c' * Z.to_pos (10 ^ (k' + B)))%positive).
  set (d := Z.to_pos (10 ^ B)).
  assert (Hn : Zpos n = (Zpos c' * 10 ^ (k' + B))%Z)
    by (unfold n; now rewrite Pos2Z.inj_mul, pow10_pos).
  assert (Hd : Zpos d = (10 ^ B)%Z) by (unfold d; now rewrite pow10_pos).
  rewrite (round_decimal_ratio neg c n d k B HB Hk)
    by (rewrite Hn, Hd, E; ring).
  rewrite (round_decimal_ratio neg c' n d k' B HB Hk')
    by (rewrite Hn, Hd; ring).
  reflexivity.
Qed.

(** The sign does not take part in the rounding. *)
Lemma normalise_finite_sign (neg neg' : bool) (m0 e0 : Z) (m : positive)
    (e : Z) :
  normalise neg m0 e0 = S754_finite neg m e ->
  normalise neg' m0 e0 = S754_finite neg' m e.
Proof.
  unfold normalise.
  destruct (m0 =? 2 ^ 53)%Z.
  - destruct (971 <? e0 + 1)%Z; [discriminate|].
    intros H. injection H as <- <-. reflexivity.
  - destruct (971 <? e0)%Z; [discriminate|].
    destruct m0; try discriminate.
    intros H. injection H as <- <-. reflexivity.
Qed.

Lemma round_decimal_finite_sign (neg neg' : bool) (c : N) (k : Z)
    (m : positive) (e : Z) :
  round_decimal neg c k = S754_finite neg m e ->
  round_decimal neg' c k = S754_finite neg' m e.
Proof.
  unfold round_decimal. destruct c as [|p]; [discriminate|].
  destruct (0 <=? k)%Z; rewrite !round_ratio_eq;
    apply normalise_finite_sign.
Qed.

Lemma spec_float_eqb_eq (a b : spec_float) :
  spec_float_eqb a b = true -> a = b.
Proof.
  destruct a as [s|s| |s m e], b as [t|t| |t n f]; cbn;
    try discriminate; try reflexivity.
  - intros H. apply Bool.eqb_prop in H. now subst.
  - intros H. apply Bool.eqb_prop in H. now subst.
  - rewrite !Bool.andb_true_iff, Pos.eqb_eq, Z.eqb_eq.
    intros [[H1 H2] H3]. apply Bool.eqb_prop in H1. now subst.
Qed.

(** *** The shortest decimal of a binary64 number *)

Lemma candidate_reads_back (m : positive) (e : Z) (n d : positive)
    (e10 p : Z) (c : N) (k : Z) :
  candidate m e n d e10 p = Some (c, k) ->
  round_decimal false c k = S754_finite false m e.
Proof.
  unfold candidate.
  destruct (scale10 n d (e10 - p + 1)) as [num den].
  set (lo := (num / den)%Z). set (k0 := (e10 - p + 1)%Z).
  destruct (spec_float_eqb (round_decimal false (Z.to_N lo) k0)
              (S754_finite false m e)) eqn:Elo;
    destruct (spec_float_eqb (round_decimal false (Z.to_N (lo + 1)) k0)
                (S754_finite false m e)) eqn:Ehi;
    try discriminate;
    try apply spec_float_eqb_eq in Elo; try apply spec_float_eqb_eq in Ehi.
  - destruct (2 * (num mod den) ?= den)%Z; [destruct (Z.even lo)| |];
      intros H; injection H as <- <-; assumption.
  - intros H; injection H as <- <-; assumption.
  - intros H; injection H as <- <-; assumption.
Qed.

Lemma exact_decimal_reads_back (m : positive) (e : Z) :
  bounded 53 1024 m e = true ->
  round_decimal false (fst (exact_decimal m e)) (snd (exact_decimal m e))
  = S754_finite false m e.
Proof.
  intros Hb. pose proof Hb as Hb'. apply bounded_spec in Hb'.
  destruct Hb' as (He & _). unfold exact_decimal.
  destruct (Z.leb_spec 0 e) as [L|L]; cbn [fst snd].
  - assert (P : (0 < Zpos m * 2 ^ e)%Z)
      by (apply Z.mul_pos_pos; [lia|apply Z.pow_pos_nonneg; lia]).
    destruct (Zpos m * 2 ^ e)%Z as [|c|c] eqn:E; try lia.
    cbn [Z.to_N].
    rewrite (round_decimal_ratio false c c 1 0 0) by (cbn; lia).
    apply round_ratio_exact; [exact Hb|].
    unfold ratio_is. rewrite <- E, Z.pow_add_r by lia. ring.
  - assert (P : (0 < Zpos m * 5 ^ (- e))%Z)
      by (apply Z.mul_pos_pos; [lia|apply Z.pow_pos_nonneg; lia]).
    destruct (Zpos m * 5 ^ (- e))%Z as [|c|c] eqn:E; try lia.
    cbn [Z.to_N].
    rewrite (round_decimal_ratio false c m (Z.to_pos (2 ^ (- e))) e (- e))
      by (rewrite ?Z2Pos.id by (apply Z.pow_pos_nonneg; lia);
          try lia; rewrite <- E; replace (e + - e)%Z with 0%Z by lia;
          change (10 ^ (- e))%Z with ((2 * 5) ^ (- e))%Z;
          rewrite Z.pow_mul_l; change (10 ^ 0)%Z with 1%Z; ring).
    apply round_ratio_exact; [exact Hb|].
    unfold ratio_is. rewrite Z2Pos.id by (apply Z.pow_pos_nonneg; lia).
    rewrite <- Z.mul_assoc, <- Z.pow_add_r by lia.
    do 2 f_equal. lia.
Qed.

Lemma shortest_from_reads_back (fuel : nat) (m : positive) (e : Z)
    (n d : positive) (e10 p : Z) :
  bounded 53 1024 m e = true ->
  round_decimal false (fst (shortest_from fuel m e n d e10 p))
    (snd (shortest_from fuel m e n d e10 p))
  = S754_finite false m e.
Proof.
  intros Hb. revert p.
  induction fuel as [|f IH]; intros p; cbn [shortest_from].
  - now apply exact_decimal_reads_back.
  - destruct (candidate m e n d e10 p) as [[c k]|] eqn:E.
    + exact (candidate_reads_back m e n d e10 p c k E).
    + apply IH.
Qed.

Lemma strip_zeros_value (neg : bool) (fuel : nat) (c : N) (k : Z) :
  round_decimal neg (fst (strip_zeros fuel c k)) (snd (strip_zeros fuel c k))
  = round_decimal neg c k.
Proof.
  revert c k. induction fuel as [|f IH]; intros c k; cbn [strip_zeros].
  - reflexivity.
  - destruct ((c mod 10 =? 0) && negb (c =? 0))%N eqn:E; [|reflexivity].
    apply Bool.andb_true_iff in E. destruct E as [E1 E2].
    apply N.eqb_eq in E1. apply Bool.negb_true_iff, N.eqb_neq in E2.
    rewrite IH.
    assert (Hc : c = (10 * (c / 10))%N) by lia.
    destruct (c / 10)%N as [|q] eqn:Eq; [lia|].
    destruct c as [|c]; [lia|].
    set (B := (Z.abs k + 1)%Z).
    apply (round_decimal_equiv neg q c (k + 1) k B); try lia.
    replace (k + 1 + B)%Z with (1 + (k + B))%Z by lia.
    rewrite Z.pow_add_r by lia.
    assert (Hz : Zpos c = (10 * Zpos q)%Z) by lia.
    rewrite Hz. change (10 ^ 1)%Z with 10%Z. ring.
Qed.

Lemma shortest_decimal_reads_back (m : positive) (e : Z) :
  bounded 53 1024 m e = true ->
  round_decimal false (fst (shortest_decimal m e)) (snd (shortest_decimal m e))
  = S754_finite false m e.
Proof.
  intros Hb. unfold shortest_decimal.
  set (n := if (0 <=? e)%Z then (m * Z.to_pos (2 ^ e))%positive else m).
  set (d := if (0 <=? e)%Z then 1%positive else Z.to_pos (2 ^ (- e))).
  pose proof (shortest_from_reads_back 17 m e n d (ilog10_ratio n d) 1 Hb) as H.
  destruct (shortest_from 17 m e n d (ilog10_ratio n d) 1) as [c k].
  rewrite strip_zeros_value. exact H.
Qed.

(** The literal that [float] finds in [repr_digits] has the value of the
    decimal written. *)
Lemma repr_literal_value (neg : bool) (c : N) (k : Z) :
  round_decimal neg
    (fst (repr_literal (digits c) (Z.of_nat (List.length (digits c)) + k)))
    (snd (repr_literal (digits c) (Z.of_nat (List.length (digits c)) + k)))
  = round_decimal neg c k.
Proof.
  destruct (digits_spec c) as (_ & _ & V).
  unfold repr_literal. rewrite V.
  set (len := Z.of_nat (List.length (digits c))).
  replace (len + k - len)%Z with k by lia.
  destruct ((len + k <=? -4) || (16 <? len + k))%Z; [reflexivity|].
  destruct (len + k <=? 0)%Z; [reflexivity|].
  destruct (Z.leb_spec len (len + k)) as [L|L]; [|reflexivity].
  cbn [fst snd].
  destruct c as [|c]; [reflexivity|].
  set (q := (Npos c * 10 ^ Z.to_N (k + 1))%N).
  assert (Hq : Z.of_N q = (Zpos c * 10 ^ (k + 1))%Z).
  { unfold q. rewrite N2Z.inj_mul, N2Z.inj_pow, Z2N.id by lia.
    reflexivity. }
  assert (P : (0 < Zpos c * 10 ^ (k + 1))%Z)
    by (apply Z.mul_pos_pos; [lia|apply Z.pow_pos_nonneg; lia]).
  destruct q as [|q]; [cbn [Z.of_N] in Hq; lia|].
  apply (round_decimal_equiv neg q c (-1) k 1); lia.
Qed.

(** [float(str(x))] is [x]: the text [str] writes reads back as [x]. *)
Lemma read_str_id (x : float) : read_str x = x.
Proof.
  transitivity (SF2Prim (Prim2SF x)); [|apply SF2Prim_Prim2SF].
  unfold read_str. pose proof (Prim2SF_valid x) as V.
  destruct (Prim2SF x) as [neg|neg| |neg m e].
  - reflexivity.
  - now destruct neg.
  - reflexivity.
  - pose proof (shortest_decimal_reads_back m e V) as H.
    destruct (shortest_decimal m e) as [c k]. cbn [fst snd] in H. cbv zeta.
    rewrite repr_literal_value.
    now rewrite (round_decimal_finite_sign false neg c k m e H).
Qed.

(** What [round_ratio] returns is a binary64 number. *)
Lemma round_ratio_valid (neg : bool) (n d : positive) :
  valid_binary (round_ratio neg n d) = true.
Proof.
  rewrite round_ratio_eq. unfold normalise.
  pose proof (ratio_mant_le n d) as Hm. pose proof (ratio_exp_ge n d) as He.
  assert (Hn : (2 ^ 52 <= ratio_mant n d \/ ratio_exp n d = -1074)%Z).
  { destruct (Z_le_gt_dec (-1022) (ilog2_ratio n d)) as [L|G].
    - left. now apply ratio_mant_ge.
    - right. apply ratio_size_subnormal. lia. }
  set (m := ratio_mant n d) in *. set (e := ratio_exp n d) in *.
  destruct (Z.eqb_spec m (2 ^ 53)) as [E|E].
  - destruct (Z.ltb_spec 971 (e + 1)) as [L|L]; [reflexivity|].
    change (2 ^ 52)%Z with 4503599627370496%Z.
    apply bounded_spec. change (Zpos 4503599627370496) with (2 ^ 52)%Z.
    set (a := (2 ^ 52)%Z).
    assert (a < 2 ^ 53)%Z by reflexivity. lia.
  - destruct (Z.ltb_spec 971 e) as [L|L]; [reflexivity|].
    destruct m as [|p|p] eqn:Em; try reflexivity.
    apply bounded_spec. set (a := (2 ^ 52)%Z) in *.
    set (b := (2 ^ 53)%Z) in *. lia.
Qed.

Lemma round_decimal_valid (neg : bool) (c : N) (k : Z) :
  valid_binary (round_decimal neg c k) = true.
Proof.
  unfold round_decimal. destruct c; [reflexivity|].
  destruct (0 <=? k)%Z; apply round_ratio_valid.
Qed.

(** A finite binary64 number in units of [2^-1074], without its sign. *)
Definition units (x : spec_float) : Z :=
  match x with
  | S754_finite _ m e => (Zpos m * 2 ^ (e + 1074))%Z
  | _ => 0%Z
  end.

(** A mantissa and an exponent that make no more than the largest number
    are put together without overflow. *)
Lemma normalise_units (neg : bool) (m e : Z) :
  (0 <= m <= 2 ^ 53)%Z -> (-1074 <= e)%Z ->
  (2 ^ 52 <= m \/ e = -1074)%Z ->
  (m * 2 ^ (e + 1074) <= max_float_Z * 2 ^ 1074)%Z ->
  (normalise neg m e = S754_zero neg
   \/ exists p f, normalise neg m e = S754_finite neg p f)
  /\ units (normalise neg m e) = (m * 2 ^ (e + 1074))%Z.
Proof.
  intros Hm He Hn Hmax. unfold normalise, max_float_Z in *.
  assert (P : (0 < 2 ^ (e + 1074))%Z) by (apply Z.pow_pos_nonneg; lia).
  assert (T : ((2 ^ 53 - 1) * 2 ^ 971 * 2 ^ 1074
               = (2 ^ 53 - 1) * 2 ^ (971 + 1074))%Z) by reflexivity.
  rewrite T in Hmax. clear T.
  assert (L : (971 <= e -> 2 ^ (971 + 1074) <= 2 ^ (e + 1074))%Z)
    by (intros; apply Z.pow_le_mono_r; lia).
  assert (L' : (971 < e -> 2 * 2 ^ (971 + 1074) <= 2 ^ (e + 1074))%Z).
  { intros. change (2 * 2 ^ (971 + 1074))%Z with (2 ^ (972 + 1074))%Z.
    apply Z.pow_le_mono_r; lia. }
  assert (Pb : (0 < 2 ^ (971 + 1074))%Z) by reflexivity.
  assert (C : (2 ^ 53 = 2 * 2 ^ 52)%Z) by reflexivity.
  set (a := (2 ^ (e + 1074))%Z) in *.
  set (b := (2 ^ (971 + 1074))%Z) in *.
  set (c := (2 ^ 52)%Z) in *. set (c2 := (2 ^ 53)%Z) in *.
  assert (Pc : (0 < c)%Z) by reflexivity.
  assert (Le : (e <= 971)%Z).
  { destruct (Z_le_gt_dec e 971) as [X|X]; [exact X|exfalso].
    specialize (L' ltac:(lia)). nia. }
  destruct (Z.eqb_spec m c2) as [E|E].
  - assert (Le1 : (e + 1 <= 971)%Z).
    { destruct (Z_le_gt_dec (e + 1) 971) as [X|X]; [exact X|exfalso].
      specialize (L ltac:(lia)). nia. }
    replace (971 <? e + 1)%Z with false by (symmetry; apply Z.ltb_ge; lia).
    unfold c. change (2 ^ 52)%Z with 4503599627370496%Z.
    split; [right; eexists _, _; reflexivity|].
    cbn [units]. rewrite E.
    replace (e + 1 + 1074)%Z with (1 + (e + 1074))%Z by lia.
    rewrite (Z.pow_add_r 2 1) by lia. fold a.
    change (Zpos 4503599627370496) with c. change (2 ^ 1)%Z with 2%Z. lia.
  - replace (971 <? e)%Z with false by (symmetry; apply Z.ltb_ge; lia).
    destruct m as [|p|p]; try lia.
    + split; [now left|reflexivity].
    + split; [right; eexists _, _; reflexivity|reflexivity].
Qed.

Lemma rne_div_lt_half (num den b : Z) :
  (0 < den)%Z -> (2 * num < (2 * b + 1) * den)%Z ->
  (rne_div num den <= b)%Z.
Proof.
  intros Hden H. pose proof (rne_div_half num den Hden) as Hh.
  set (m := rne_div num den) in *.
  destruct (Z_le_gt_dec m b) as [L|G]; [exact L|exfalso].
  assert ((b + 1) * den <= m * den)%Z by nia. nia.
Qed.

(** A ratio below the midpoint of the largest number and [2^1024] is rounded
    to no more than the largest number. *)
Lemma ratio_mant_no_overflow (n d : positive) :
  (2 * ratio_num n < (2 ^ 54 - 1) * 2 ^ (971 + 1074) * Zpos d)%Z ->
  (ratio_mant n d * 2 ^ (ratio_exp n d + 1074) <= max_float_Z * 2 ^ 1074)%Z.
Proof.
  intros H. unfold max_float_Z.
  assert (T : ((2 ^ 53 - 1) * 2 ^ 971 * 2 ^ 1074
               = (2 ^ 53 - 1) * 2 ^ (971 + 1074))%Z) by reflexivity.
  rewrite T. clear T.
  pose proof (ratio_mant_le n d) as Hm. pose proof (ratio_exp_ge n d) as He.
  pose proof (ratio_den_pos n d) as Hd.
  assert (Hk : (ilog2_ratio n d <= 1023)%Z).
  { destruct (Z_le_gt_dec (ilog2_ratio n d) 1023) as [L|G]; [exact L|exfalso].
    destruct (ilog2_ratio_spec n d) as [K1 _].
    pose proof (pow2_le_ratio_antitone 1024 (ilog2_ratio n d) n d
                  ltac:(lia) K1) as P.
    rewrite (pow2_le_ratio_iff 1024 (1024 + 1074) 1074) in P by lia.
    unfold ratio_num in H.
    assert (E : (2 ^ (1024 + 1074) = 2 ^ 53 * 2 ^ (971 + 1074))%Z)
      by reflexivity.
    rewrite E in P.
    set (b := (2 ^ (971 + 1074))%Z) in *.
    assert (C : (2 ^ 54 = 2 * 2 ^ 53)%Z) by reflexivity. rewrite C in H.
    set (c := (2 ^ 53)%Z) in *.
    assert (0 < b)%Z by reflexivity.
    set (t := (Zpos n * 2 ^ 1074)%Z) in *. nia. }
  assert (He' : (ratio_exp n d <= 971)%Z) by (unfold ratio_exp; lia).
  destruct (Z.eq_dec (ratio_exp n d) 971) as [E|E].
  - assert (M : (ratio_mant n d <= 2 ^ 53 - 1)%Z).
    { unfold ratio_mant. apply rne_div_lt_half; [exact Hd|].
      unfold ratio_den. rewrite E.
      replace (2 * (2 ^ 53 - 1) + 1)%Z with (2 ^ 54 - 1)%Z by reflexivity.
      lia. }
    rewrite E. apply Z.mul_le_mono_nonneg_r; [|exact M].
    apply Z.pow_nonneg. lia.
  - assert (P : (2 ^ (ratio_exp n d + 1074) <= 2 ^ (970 + 1074))%Z)
      by (apply Z.pow_le_mono_r; lia).
    assert (Q : (2 ^ 53 * 2 ^ (970 + 1074)
                 <= (2 ^ 53 - 1) * 2 ^ (971 + 1074))%Z)
      by (vm_compute; discriminate).
    assert (0 < 2 ^ (ratio_exp n d + 1074))%Z
      by (apply Z.pow_pos_nonneg; lia).
    set (a := (2 ^ (ratio_exp n d + 1074))%Z) in *.
    set (b := (2 ^ (970 + 1074))%Z) in *. set (c := (2 ^ 53)%Z) in *.
    set (m := ratio_mant n d) in *.
    assert (m * a <= c * b)%Z by nia. lia.
Qed.

(** The rounded ratio in units of [2^-1074], when it does not overflow: it
    is the multiple of the unit picked nearest to the ratio. *)
Lemma round_ratio_units (neg : bool) (n d : positive) :
  (2 * ratio_num n < (2 ^ 54 - 1) * 2 ^ (971 + 1074) * Zpos d)%Z ->
  (round_ratio neg n d = S754_zero neg
   \/ exists p f, round_ratio neg n d = S754_finite neg p f)
  /\ (units (round_ratio neg n d) * Zpos d
      = ratio_mant n d * ratio_den n d)%Z.
Proof.
  intros H. rewrite round_ratio_eq.
  pose proof (ratio_mant_le n d) as Hm. pose proof (ratio_exp_ge n d) as He.
  assert (Hn : (2 ^ 52 <= ratio_mant n d \/ ratio_exp n d = -1074)%Z).
  { destruct (Z_le_gt_dec (-1022) (ilog2_ratio n d)) as [L|G].
    - left. now apply ratio_mant_ge.
    - right. apply ratio_size_subnormal. lia. }
  destruct (normalise_units neg _ _ Hm He Hn (ratio_mant_no_overflow n d H))
    as [A B].
  split; [exact A|]. rewrite B. unfold ratio_den. ring.
Qed.

(* ================================================================= *)
(** ** A number written with six decimals and read back *)

Lemma micro_units_close (m : positive) (e : Z) :
  (e < 0)%Z ->
  (2 * Z.abs (Z.of_N (micro_units m e) * 2 ^ (- e) - Zpos m * 1000000)
   <= 2 ^ (- e))%Z.
Proof.
  intros He. unfold micro_units.
  replace (0 <=? e)%Z with false by (symmetry; apply Z.leb_gt; lia).
  assert (P : (0 < 2 ^ (- e))%Z) by (apply Z.pow_pos_nonneg; lia).
  pose proof (rne_div_nonneg (Zpos m * 1000000) (2 ^ (- e)) ltac:(lia) P) as N.
  pose proof (rne_div_half (Zpos m * 1000000) (2 ^ (- e)) P) as H.
  rewrite Z2N.id by exact N. lia.
Qed.

Lemma micro_units_exact (m : positive) (e : Z) :
  (0 <= e)%Z ->
  Z.of_N (micro_units m e) = (Zpos m * 2 ^ e * 1000000)%Z.
Proof.
  intros He. unfold micro_units.
  replace (0 <=? e)%Z with true by (symmetry; apply Z.leb_le; lia).
  assert (P : (0 < 2 ^ e)%Z) by (apply Z.pow_pos_nonneg; lia).
  rewrite Z2N.id; [reflexivity|]. nia.
Qed.

(** The number read in the six decimals written for [m * 2^e] is within
    [1e-6 / 2] of the decimal, and so within [1e-6] of [m * 2^e]; both
    bounds are in units of [2^-1074], times [10^6]. *)
Lemma round_micro_close (neg : bool) (m : positive) (e : Z) :
  bounded 53 1024 m e = true ->
  let u := micro_units m e in
  let r := round_decimal neg u (-6) in
  (r = S754_zero neg \/ exists p f, r = S754_finite neg p f)
  /\ (2 * Z.abs (units r * 1000000 - Z.of_N u * 2 ^ 1074) <= 2 ^ 1074)%Z
  /\ (Z.abs (units r - Zpos m * 2 ^ (e + 1074)) * 1000000 <= 2 ^ 1074)%Z.
Proof.
  intros Hb. cbv zeta. pose proof Hb as Hb'. apply bounded_spec in Hb'.
  destruct Hb' as (He & Hm & Hn).
  assert (P1074 : (0 < 2 ^ 1074)%Z) by reflexivity.
  assert (Pe : (0 < 2 ^ (e + 1074))%Z) by (apply Z.pow_pos_nonneg; lia).
  destruct (Z_le_gt_dec 0 e) as [L|L].
  - (* an integer: written in full, read back exactly *)
    pose proof (micro_units_exact m e L) as U.
    assert (Pu : (0 < Zpos m * 2 ^ e * 1000000)%Z).
    { assert (0 < 2 ^ e)%Z by (apply Z.pow_pos_nonneg; lia). nia. }
    destruct (micro_units m e) as [|p]; [cbn [Z.of_N] in U; lia|].
    cbn [Z.of_N] in U.
    assert (R : round_decimal neg (Npos p) (-6) = S754_finite neg m e).
    { unfold round_decimal. cbn [Z.leb Z.compare Z.opp].
      change (Z.to_pos (10 ^ 6)) with 1000000%positive.
      apply round_ratio_exact; [exact Hb|].
      unfold ratio_is. rewrite U, Z.pow_add_r by lia. ring. }
    rewrite R. cbn [units Z.of_N].
    split; [right; eexists _, _; reflexivity|].
    rewrite U, Z.pow_add_r by lia.
    replace (Zpos m * (2 ^ e * 2 ^ 1074) * 1000000
             - Zpos m * 2 ^ e * 1000000 * 2 ^ 1074)%Z with 0%Z by ring.
    rewrite Z.sub_diag. cbn [Z.abs]. lia.
  - (* a fraction: rounded to six decimals, then to the nearest number *)
    pose proof (micro_units_close m e ltac:(lia)) as C.
    assert (Pme : (0 < 2 ^ (- e))%Z) by (apply Z.pow_pos_nonneg; lia).
    assert (Eme : (2 ^ (- e) * 2 ^ (e + 1074) = 2 ^ 1074)%Z)
      by (rewrite <- Z.pow_add_r by lia; f_equal; lia).
    set (X := (Zpos m * 2 ^ (e + 1074) * 1000000)%Z).
    (* the decimal is within half a millionth of [m * 2^e] *)
    assert (CX : (2 * Z.abs (Z.of_N (micro_units m e) * 2 ^ 1074 - X)
                  <= 2 ^ 1074)%Z).
    { assert (E : (Z.of_N (micro_units m e) * 2 ^ 1074 - X
                   = (Z.of_N (micro_units m e) * 2 ^ (- e)
                      - Zpos m * 1000000) * 2 ^ (e + 1074))%Z).
      { unfold X. rewrite <- Eme. ring. }
      rewrite E, Z.abs_mul, (Z.abs_eq (2 ^ (e + 1074))) by lia.
      rewrite <- Eme.
      set (t := Z.abs (Z.of_N (micro_units m e) * 2 ^ (- e)
                       - Zpos m * 1000000)) in *.
      set (a := (2 ^ (e + 1074))%Z) in *. set (b := (2 ^ (- e))%Z) in *.
      nia. }
    destruct (micro_units m e) as [|p] eqn:Eu.
    + cbn [round_decimal units Z.of_N] in *.
      split; [now left|]. split; [lia|].
      replace (0 - Zpos m * 2 ^ (e + 1074))%Z
        with (- (Zpos m * 2 ^ (e + 1074)))%Z by ring.
      rewrite Z.abs_opp, Z.abs_eq by lia. fold X.
      replace (0 * 2 ^ 1074 - X)%Z with (- X)%Z in CX by ring.
      rewrite Z.abs_opp, Z.abs_eq in CX by (unfold X; lia). lia.
    + cbn [Z.of_N] in *.
      assert (R : round_decimal neg (Npos p) (-6)
                  = round_ratio neg p 1000000) by reflexivity.
      rewrite R. clear R.
      set (V := ratio_num p). set (G := ratio_den p 1000000).
      assert (HV : V = (Zpos p * 2 ^ 1074)%Z) by reflexivity.
      fold V in CX. rewrite <- HV in CX |- *.
      (* the decimal is below 2^53 + 1: no overflow *)
      assert (Hov : (2 * V < (2 ^ 54 - 1) * 2 ^ (971 + 1074) * 1000000)%Z).
      { assert (B1 : (X < 2 ^ 53 * 2 ^ 1074 * 1000000)%Z).
        { unfold X.
          assert (2 ^ (e + 1074) < 2 ^ 1074)%Z
            by (apply Z.pow_lt_mono_r; lia).
          set (a := (2 ^ (e + 1074))%Z) in *. set (b := (2 ^ 1074)%Z) in *.
          set (c := (2 ^ 53)%Z) in *. nia. }
        assert (B2 : (2 * (2 ^ 53 * 2 ^ 1074 * 1000000) + 2 ^ 1074
                      < (2 ^ 54 - 1) * 2 ^ (971 + 1074) * 1000000)%Z)
          by (vm_compute; reflexivity).
        lia. }
      destruct (round_ratio_units neg p 1000000 Hov) as [A B].
      split; [exact A|].
      fold G in B. fold V in Hov.
      pose proof (ratio_den_pos p 1000000) as HG. fold G in HG.
      set (m0 := ratio_mant p 1000000) in *.
      set (r := round_ratio neg p 1000000) in *.
      change (Zpos 1000000) with 1000000%Z in B.
      (* a multiple of the unit no farther from the decimal than [m * 2^e] *)
      assert (J : exists j, (Z.abs (j * G - V) <= Z.abs (X - V))%Z).
      { pose proof (ratio_exp_ge p 1000000) as Hge.
        destruct (Z_le_gt_dec (ratio_exp p 1000000) e) as [Le|Gt].
        - exists (Zpos m * 2 ^ (e - ratio_exp p 1000000))%Z.
          replace (Zpos m * 2 ^ (e - ratio_exp p 1000000) * G)%Z with X;
            [lia|].
          unfold X, G, ratio_den.
          replace (e + 1074)%Z
            with ((e - ratio_exp p 1000000)
                  + (ratio_exp p 1000000 + 1074))%Z by lia.
          rewrite Z.pow_add_r by lia. ring.
        - exists (2 ^ 52)%Z.
          assert (Lk : (-1022 <= ilog2_ratio p 1000000)%Z)
            by (unfold ratio_exp in Gt; lia).
          destruct (ratio_size_normal p 1000000 Lk) as (_ & S1 & _).
          fold G V in S1.
          assert (XG : (X < 2 ^ 52 * G)%Z).
          { unfold X, G, ratio_den.
            assert (Q : (2 * 2 ^ (e + 1074)
                         <= 2 ^ (ratio_exp p 1000000 + 1074))%Z).
            { change (2 * 2 ^ (e + 1074))%Z
                with (2 ^ 1 * 2 ^ (e + 1074))%Z.
              rewrite <- Z.pow_add_r by lia. apply Z.pow_le_mono_r; lia. }
            assert (C2 : (2 ^ 53 = 2 * 2 ^ 52)%Z) by reflexivity.
            rewrite C2 in Hm.
            set (a := (2 ^ (e + 1074))%Z) in *.
            set (b := (2 ^ (ratio_exp p 1000000 + 1074))%Z) in *.
            set (c := (2 ^ 52)%Z) in *.
            assert (0 < c)%Z by reflexivity. nia. }
          lia. }
      destruct J as [j Hj].
      pose proof (rne_div_nearest V G HG j) as N.
      assert (Em : m0 = rne_div V G) by reflexivity.
      rewrite <- Em, <- B in N.
      split; [lia|].
      assert (E : ((units r - Zpos m * 2 ^ (e + 1074)) * 1000000
                   = (units r * 1000000 - V) + (V - X))%Z)
        by (unfold X; ring).
      replace (Z.abs (units r - Zpos m * 2 ^ (e + 1074)) * 1000000)%Z
        with (Z.abs ((units r - Zpos m * 2 ^ (e + 1074)) * 1000000))%Z
        by (rewrite Z.abs_mul; reflexivity).
      rewrite E. lia.
Qed.

(* ================================================================= *)
(** ** Binary64 values as rational numbers *)

Definition Qsigned (neg : bool) (q : Q) : Q := if neg then Qopp q else q.

(** The rational number a finite binary64 value stands for; none for an
    infinity or a NaN. *)
Definition spec_number (r : spec_float) : option Q :=
  match r with
  | S754_zero _ => Some 0%Q
  | S754_finite neg m e => Some (Qsigned neg (inject_Z (Zpos m) * 2 ^ e)%Q)
  | _ => None
  end.

Definition number (x : float) : option Q := spec_number (Prim2SF x).

Lemma Qpow2_units (m e : Z) :
  (-1074 <= e)%Z ->
  (inject_Z m * 2 ^ e
   == inject_Z (m * 2 ^ (e + 1074)) / inject_Z (2 ^ 1074))%Q.
Proof.
  intros He.
  assert (N2 : ~ (2 == 0)%Q) by discriminate.
  replace e with ((e + 1074) + - (1074))%Z at 1 by lia.
  rewrite (Qpower_plus 2 _ _ N2), Qpower_opp.
  rewrite inject_Z_mult, !Zpower_Qpower by lia.
  change (inject_Z 2) with 2%Q.
  assert (P : ~ (2 ^ 1074 == 0)%Q).
  { apply Qpower_not_0. exact N2. }
  field; exact P.
Qed.

Lemma Qsigned_diff (neg : bool) (a b : Q) :
  (Qabs (Qsigned neg a - Qsigned neg b) == Qabs (a - b))%Q.
Proof.
  destruct neg; cbn [Qsigned]; [|reflexivity].
  setoid_replace (- a - - b)%Q with (- (a - b))%Q by ring.
  apply Qabs_opp.
Qed.

Lemma Qsigned_wd (neg : bool) (a b : Q) :
  (a == b)%Q -> (Qsigned neg a == Qsigned neg b)%Q.
Proof. intros E. destruct neg; cbn [Qsigned]; now rewrite E. Qed.

Lemma Qclose_signed (neg : bool) (p q a b tol : Q) :
  (p == Qsigned neg a)%Q -> (q == Qsigned neg b)%Q ->
  (Qabs (a - b) <= tol)%Q -> (Qabs (p - q) <= tol)%Q.
Proof. intros Hp Hq H. now rewrite Hp, Hq, Qsigned_diff. Qed.

(** Two numbers of units [u1] and [u2] differ by no more than a millionth
    when [|u1 - u2| * 10^6] is no more than [2^1074]. *)
Lemma Qclose_units (u1 u2 T : Z) :
  (0 < T)%Z -> (Z.abs (u1 - u2) * 1000000 <= T)%Z ->
  (Qabs (inject_Z u1 / inject_Z T - inject_Z u2 / inject_Z T)
   <= 1 # 1000000)%Q.
Proof.
  intros HT H.
  assert (PT : (0 < inject_Z T)%Q)
    by (unfold Qlt, inject_Z; cbn [Qnum Qden]; lia).
  assert (NT : ~ (inject_Z T == 0)%Q)
    by (intros E; rewrite E in PT; discriminate PT).
  setoid_replace (inject_Z u1 / inject_Z T - inject_Z u2 / inject_Z T)%Q
    with (inject_Z (u1 - u2) / inject_Z T)%Q
    by (unfold Z.sub; rewrite inject_Z_plus, inject_Z_opp; field; exact NT).
  apply Qabs_Qle_condition. split.
  - apply Qle_shift_div_l; [exact PT|].
    unfold Qle, Qmult, Qopp, inject_Z. cbn [Qnum Qden]. lia.
  - apply Qle_shift_div_r; [exact PT|].
    unfold Qle, Qmult, inject_Z. cbn [Qnum Qden]. lia.
Qed.

(** The number of a finite value of a given sign, from its units. *)
Lemma spec_number_units (neg : bool) (r : spec_float) :
  valid_binary r = true ->
  r = S754_zero neg \/ (exists p f, r = S754_finite neg p f) ->
  exists q, spec_number r = Some q
            /\ (q == Qsigned neg (inject_Z (units r) / inject_Z (2 ^ 1074)))%Q.
Proof.
  intros V [->|(p & f & ->)].
  - exists 0%Q. split; [reflexivity|].
    cbn [units]. destruct neg; cbn [Qsigned]; reflexivity.
  - apply bounded_spec in V. destruct V as (Hf & _).
    eexists. split; [reflexivity|]. cbn [units].
    destruct neg; cbn [Qsigned]; now rewrite Qpow2_units by lia.
Qed.

(* ================================================================= *)
(** ** The written file read back *)

(** X1. The frequency column survives the text: for every binary64 value
    [x] (a NaN and the infinities too), [float] applied to the text that
    [str] writes for [x] returns [x] itself.  This is how a row's frequency
    in Hz, written by [criar_media] (line 107) and read by [parse_s_param]
    (line 26), is the same number on both sides. *)
Theorem str_float_round_trip :
  forall x : float, float_of_str (float_str x) = Some x.
Proof.
  intros x. rewrite float_of_float_str. f_equal. apply read_str_id.
Qed.

(** What [float] reads in the six decimals written for [x]. *)
Lemma read_6f_close (x : float) :
  match number x with
  | Some q => exists p, number (read_6f x) = Some p
                        /\ (Qabs (p - q) <= 1 # 1000000)%Q
  | None => read_6f x = x
  end.
Proof.
  unfold number, read_6f. pose proof (Prim2SF_valid x) as V.
  pose proof (SF2Prim_Prim2SF x) as Ex.
  destruct (Prim2SF x) as [neg|neg| |neg m e]; cbn [spec_number].
  - exists 0%Q. split; [|discriminate].
    rewrite Prim2SF_SF2Prim by reflexivity. reflexivity.
  - rewrite <- Ex. now destruct neg.
  - rewrite <- Ex. reflexivity.
  - destruct (round_micro_close neg m e V) as (A & _ & C).
    pose proof (round_decimal_valid neg (micro_units m e) (-6)) as Vr.
    rewrite (Prim2SF_SF2Prim _ Vr).
    set (r := round_decimal neg (micro_units m e) (-6)) in *.
    destruct (spec_number_units neg r Vr A) as (p & Ep & Hp).
    exists p. split; [exact Ep|].
    apply bounded_spec in V. destruct V as (He & _).
    apply (Qclose_signed neg p _ _
             (inject_Z (Zpos m * 2 ^ (e + 1074)) / inject_Z (2 ^ 1074))%Q
             _ Hp).
    + apply Qsigned_wd. apply Qpow2_units. lia.
    + apply Qclose_units; [reflexivity|exact C].
Qed.

(** X2. Six decimals lose at most a millionth: [float] applied to the text
    that [format(x, '.6f')] writes returns a value [y]; when [x] is finite,
    [y] is finite and [|y - x| <= 1e-6] as rational numbers, and when [x] is
    an infinity or a NaN, [y] is [x].  This is what the real and imaginary
    columns written by [criar_media] (line 107) become when a parser reads
    them (lines 33-34). *)
Theorem six_decimals_round_trip :
  forall x : float,
  exists y : float,
    float_of_str (format_6f x) = Some y
    /\ match number x with
       | Some q => exists p, number y = Some p
                             /\ (Qabs (p - q) <= 1 # 1000000)%Q
       | None => y = x
       end.
Proof.
  intros x. exists (read_6f x). split.
  - apply float_of_format_6f.
  - apply read_6f_close.
Qed.

Lemma Forall2_map_read (g : float -> float) (P : float -> float -> Prop)
    (l : array) :
  (forall a, P a (g a)) -> Forall2 P l (List.map g l).
Proof.
  intros H. induction l as [|a l IH]; cbn [List.map]; constructor; auto.
Qed.

(** X3. The file [criar_media] writes parses back, under its own name, to
    one point per frequency of the first file, in order: the real and
    imaginary values are what [float] reads in the six decimals written for
    the two means, and each frequency [f] comes back as [(f * 1e9) / 1e9]
    (written in Hz in full, divided again by the parser).  No row is lost
    or skipped, whatever the values are (a NaN is written [nan] and read as
    a NaN), and the two header lines give no point. *)
Theorem criar_media_file_reads_back :
  forall (file1_content : bytes) (file1_name : str)
         (file2_content : bytes) (file2_name : str)
         (nome : str) (media_content : bytes),
    criar_media float_of_str file1_content file1_name file2_content file2_name
    = Ok (MediaFile nome media_content) ->
    exists t1 t2 re_mean im_mean,
      parse_s_param float_of_str file1_content file1_name = Ok t1
      /\ parse_s_param float_of_str file2_content file2_name = Ok t2
      /\ media_trace t1 t2 = Ok (trace_freq t1, re_mean, im_mean)
      /\ exists re' im',
          parse_s_param float_of_str media_content nome
          = Ok (List.map (fun f => (f * 1e9 / 1e9)%float) (trace_freq t1),
                re', im')
          /\ Forall2 (fun a a' => float_of_str (format_6f a) = Some a')
               re_mean re'
          /\ Forall2 (fun a a' => float_of_str (format_6f a) = Some a')
               im_mean im'.
Proof.
  intros c1 n1 c2 n2 nome content H.
  destruct (criar_media_cases float_of_str c1 n1 c2 n2)
    as (t1 & t2 & E1 & E2 & W1 & W2 & Hnone & Hfile).
  destruct (trace_freq t1) as [|x1 l1] eqn:F1.
  { rewrite Hnone in H by now left. discriminate H. }
  destruct (trace_freq t2) as [|x2 l2] eqn:F2.
  { rewrite Hnone in H by now right. discriminate H. }
  destruct Hfile as (re & im & M & [Wr Wi] & Hf); try discriminate.
  rewrite <- F1 in *. rewrite Hf in H.
  assert (En : nome = nome_media n1 n2) by congruence.
  assert (Ec : content
               = List.map byte_of_N (file_text (trace_freq t1) re im))
    by congruence.
  clear H. subst nome content.
  exists t1, t2, re, im.
  split; [exact E1|]. split; [exact E2|]. split; [exact M|].
  exists (List.map read_6f re), (List.map read_6f im).
  rewrite (parse_written_file _ _ _ _ Wr Wi (nome_media_two_port n1 n2)).
  split; [|split].
  - do 3 f_equal. apply map_ext. intros f. now rewrite read_str_id.
  - apply Forall2_map_read. intros a. apply float_of_format_6f.
  - apply Forall2_map_read. intros a. apply float_of_format_6f.
Qed.

(** Two one-line files, [a.s1p] with S11 = 0.25 + 0.5j and [b.s1p] with
    S11 = 0.75 + 0.5j at 1 GHz, and the file written for their mean. *)
Definition media_example : bytes :=
  bytes_of_string "!File created by Averaging App
# Hz S RI R 50
1000000000.0 0 0 0.500000 0.500000 0 0 0 0
".

Lemma criar_media_file_reads_back_witness :
  criar_media float_of_str
    (bytes_of_string "1000000000 0.25 0.5") (lit "a.s1p")
    (bytes_of_string "1e9 0.75 0.5") (lit "b.s1p")
  = Ok (MediaFile (nome_media (lit "a.s1p") (lit "b.s1p")) media_example)
  /\ exists t1 t2 re_mean im_mean,
      parse_s_param float_of_str
        (bytes_of_string "1000000000 0.25 0.5") (lit "a.s1p") = Ok t1
      /\ parse_s_param float_of_str
           (bytes_of_string "1e9 0.75 0.5") (lit "b.s1p") = Ok t2
      /\ media_trace t1 t2 = Ok (trace_freq t1, re_mean, im_mean)
      /\ exists re' im',
          parse_s_param float_of_str media_example
            (nome_media (lit "a.s1p") (lit "b.s1p"))
          = Ok (List.map (fun f => (f * 1e9 / 1e9)%float) (trace_freq t1),
                re', im')
          /\ Forall2 (fun a a' => float_of_str (format_6f a) = Some a')
               re_mean re'
          /\ Forall2 (fun a a' => float_of_str (format_6f a) = Some a')
               im_mean im'.
Proof.
  split; [vm_compute; reflexivity|].
  apply criar_media_file_reads_back. vm_compute. reflexivity.
Defined.

(* ================================================================= *)
(** ** Text files: line endings *)

(** The characters of a line of ASCII text: every ASCII character that is
    not a line boundary of [str.splitlines()]; the tab and the other
    control characters that end no line are among them. *)
Definition line_char (c : char) : bool :=
  (c <? 128)%N && negb (islinebreak c).

Lemma line_char_not_linebreak c : line_char c = true -> islinebreak c = false.
Proof.
  unfold line_char. intros H. apply Bool.andb_true_iff in H.
  now apply Bool.negb_true_iff.
Qed.

Lemma line_char_not_cr c : line_char c = true -> (c =? 13)%N = false.
Proof.
  intros H. apply line_char_not_linebreak in H.
  destruct (N.eqb_spec c 13) as [->|]; [discriminate H|reflexivity].
Qed.

Lemma line_char_ascii c : line_char c = true -> ascii_char c = true.
Proof.
  unfold line_char, ascii_char. intros H.
  now apply Bool.andb_true_iff in H.
Qed.

(** The characters the program writes in a row are such characters, and so
    is the tab. *)
Lemma row_char_line_char c : row_char c = true -> line_char c = true.
Proof.
  intros H. unfold line_char.
  now rewrite (row_char_ascii c H), (row_char_not_linebreak c H).
Qed.

Lemma tab_line_char : line_char 9%N = true.
Proof. reflexivity. Qed.

(** The text of [lines], each ended by CR LF. *)
Definition lines_text_crlf (lines : list str) : str :=
  flat_map (fun l => l ++ [13%N; 10%N]) lines.

Lemma splitlines_aux_line (s cur rest : str) :
  forallb line_char s = true ->
  splitlines_aux cur (s ++ 10%N :: rest)
  = (rev cur ++ s) :: splitlines_aux [] rest.
Proof.
  revert cur. induction s as [|c s IH]; intros cur H; simpl.
  - now rewrite app_nil_r.
  - simpl in H. apply Bool.andb_true_iff in H. destruct H as [Hc Hs].
    rewrite (line_char_not_cr c Hc), (line_char_not_linebreak c Hc).
    rewrite (IH (c :: cur) Hs). simpl. now rewrite <- app_assoc.
Qed.

Lemma splitlines_aux_line_crlf (s cur rest : str) :
  forallb line_char s = true ->
  splitlines_aux cur (s ++ 13%N :: 10%N :: rest)
  = (rev cur ++ s) :: splitlines_aux [] rest.
Proof.
  revert cur. induction s as [|c s IH]; intros cur H; simpl.
  - now rewrite app_nil_r.
  - simpl in H. apply Bool.andb_true_iff in H. destruct H as [Hc Hs].
    rewrite (line_char_not_cr c Hc), (line_char_not_linebreak c Hc).
    rewrite (IH (c :: cur) Hs). simpl. now rewrite <- app_assoc.
Qed.

Lemma splitlines_aux_line_end (s cur : str) :
  forallb line_char s = true -> rev cur ++ s <> [] ->
  splitlines_aux cur s = [rev cur ++ s].
Proof.
  revert cur. induction s as [|c s IH]; intros cur H Hne; simpl.
  - rewrite app_nil_r in *. destruct cur; [now elim Hne|reflexivity].
  - simpl in H. apply Bool.andb_true_iff in H. destruct H as [Hc Hs].
    rewrite (line_char_not_cr c Hc), (line_char_not_linebreak c Hc).
    rewrite (IH (c :: cur) Hs); simpl; rewrite <- app_assoc; [reflexivity|].
    destruct (rev cur); discriminate.
Qed.

Lemma line_chars_ascii (s : str) :
  forallb line_char s = true -> forallb ascii_char s = true.
Proof.
  intros H. eapply forallb_impl; [|exact H].
  intros c Hc. now apply line_char_ascii.
Qed.

Lemma lines_text_line_ascii (lines : list str) :
  Forall (fun l => forallb line_char l = true) lines ->
  forallb ascii_char (lines_text lines) = true.
Proof.
  induction 1 as [|l lines Hl _ IH]; [reflexivity|].
  cbn [lines_text flat_map]. apply forallb_app_intro; [|exact IH].
  apply forallb_app_intro; [now apply line_chars_ascii|reflexivity].
Qed.

Lemma lines_text_crlf_ascii (lines : list str) :
  Forall (fun l => forallb line_char l = true) lines ->
  forallb ascii_char (lines_text_crlf lines) = true.
Proof.
  induction 1 as [|l lines Hl _ IH]; [reflexivity|].
  cbn [lines_text_crlf flat_map]. apply forallb_app_intro; [|exact IH].
  apply forallb_app_intro; [now apply line_chars_ascii|reflexivity].
Qed.

Lemma splitlines_lines_text_line (lines : list str) :
  Forall (fun l => forallb line_char l = true) lines ->
  splitlines (lines_text lines) = lines.
Proof.
  unfold splitlines, lines_text.
  induction 1 as [|l lines Hl _ IH]; [reflexivity|].
  cbn [flat_map]. rewrite <- app_assoc. cbn [app].
  rewrite (splitlines_aux_line l [] _ Hl). cbn [rev app]. now rewrite IH.
Qed.

Lemma splitlines_lines_text_crlf (lines : list str) :
  Forall (fun l => forallb line_char l = true) lines ->
  splitlines (lines_text_crlf lines) = lines.
Proof.
  unfold splitlines, lines_text_crlf.
  induction 1 as [|l lines Hl _ IH]; [reflexivity|].
  cbn [flat_map]. rewrite <- app_assoc. cbn [app].
  rewrite (splitlines_aux_line_crlf l [] _ Hl). cbn [rev app].
  now rewrite IH.
Qed.

Lemma splitlines_aux_lines_text (lines : list str) (rest : str) :
  Forall (fun l => forallb line_char l = true) lines ->
  splitlines_aux [] (lines_text lines ++ rest)
  = lines ++ splitlines_aux [] rest.
Proof.
  unfold lines_text.
  induction 1 as [|l lines Hl _ IH]; [reflexivity|].
  cbn [flat_map]. rewrite <- !app_assoc. cbn [app].
  rewrite (splitlines_aux_line l [] _ Hl). cbn [rev app]. f_equal. exact IH.
Qed.

(** The lines of a file of ASCII text read by the parser. *)
Lemma splitlines_decode_ascii (s : str) :
  forallb ascii_char s = true ->
  splitlines (decode (List.map byte_of_N s)) = splitlines s.
Proof.
  intros A. unfold decode.
  now rewrite (map_to_N_byte_of_N _ A), (decode_ignore_ascii _ A).
Qed.

(** X4. Line endings do not matter: a file of lines of ASCII text, of any
    ASCII characters that are not line boundaries (tabs included), parses
    to the same trace whether its lines end in LF or in CR LF, and whether
    or not the last line is ended at all. *)
Theorem parse_s_param_line_endings :
  forall (to_float : str -> option float) (lines : list str) (last : str)
         (filename : str),
    Forall (fun l => forallb line_char l = true) lines ->
    forallb line_char last = true -> last <> [] ->
    parse_s_param to_float (List.map byte_of_N (lines_text_crlf lines))
      filename
    = parse_s_param to_float (List.map byte_of_N (lines_text lines)) filename
    /\ parse_s_param to_float
         (List.map byte_of_N (lines_text lines ++ last)) filename
       = parse_s_param to_float
           (List.map byte_of_N (lines_text (lines ++ [last]))) filename.
Proof.
  intros to_float lines last filename Hl Hlast Hne.
  rewrite !parse_s_param_points.
  assert (Hall : Forall (fun l => forallb line_char l = true)
                   (lines ++ [last]))
    by (apply Forall_app; split; [exact Hl|now constructor]).
  rewrite (splitlines_decode_ascii _ (lines_text_crlf_ascii _ Hl)).
  rewrite !(splitlines_decode_ascii _ (lines_text_line_ascii _ Hl)).
  rewrite (splitlines_decode_ascii _ (lines_text_line_ascii _ Hall)).
  rewrite (splitlines_lines_text_crlf _ Hl).
  rewrite (splitlines_lines_text_line _ Hl).
  rewrite (splitlines_lines_text_line _ Hall).
  split; [reflexivity|].
  rewrite splitlines_decode_ascii.
  - unfold splitlines. rewrite (splitlines_aux_lines_text _ _ Hl).
    now rewrite (splitlines_aux_line_end last [] Hlast Hne).
  - apply forallb_app_intro; [now apply lines_text_line_ascii|].
    now apply line_chars_ascii.
Qed.

(** A header and two rows, the first separated by tabs, the second by
    spaces and left without a line end. *)
Lemma parse_s_param_line_endings_witness :
  parse_s_param float_of_str
    (List.map byte_of_N
       (lines_text_crlf
          [lit "# Hz S RI R 50";
           lit "1e9" ++ [9%N] ++ lit "1" ++ [9%N] ++ lit "2"]))
    (lit "a.s1p")
  = parse_s_param float_of_str
      (List.map byte_of_N
         (lines_text
            [lit "# Hz S RI R 50";
             lit "1e9" ++ [9%N] ++ lit "1" ++ [9%N] ++ lit "2"]))
      (lit "a.s1p")
  /\ parse_s_param float_of_str
       (List.map byte_of_N
          (lines_text
             [lit "# Hz S RI R 50";
              lit "1e9" ++ [9%N] ++ lit "1" ++ [9%N] ++ lit "2"]
           ++ lit "2e9 3 4"))
       (lit "a.s1p")
     = parse_s_param float_of_str
         (List.map byte_of_N
            (lines_text
               ([lit "# Hz S RI R 50";
                 lit "1e9" ++ [9%N] ++ lit "1" ++ [9%N] ++ lit "2"]
                ++ [lit "2e9 3 4"])))
         (lit "a.s1p").
Proof.
  apply parse_s_param_line_endings.
  - repeat constructor.
  - reflexivity.
  - discriminate.
Defined.

(* ================================================================= *)
(** ** The two reading modes *)

(** X5. 1-port column selection: under a name whose lower-cased form ends
    in [.s1p] or [.cal] ([X.S1P] and [ref.Cal] are such names), a line that
    is not skipped and has at least 3 tokens, of which tokens 0, 1 and 2
    convert, appends frequency = token 0 / 1e9, real = token 1 and imag =
    token 2.  The tokens after the third are never converted: the outcome
    is the same under any conversion that agrees on the first three, so a
    row of nine columns is read as its S11 pair. *)
Theorem one_port_column_selection :
  forall (to_float : str -> option float) line t0 t1 t2 rest f re im st,
    split (strip line) = t0 :: t1 :: t2 :: rest ->
    startswith (strip line) (lit "#") = false ->
    startswith (strip line) (lit "!") = false ->
    to_float t0 = Some f ->
    to_float t1 = Some re ->
    to_float t2 = Some im ->
    loop_body to_float true line st
    = (Normal tt, push st ((f / 1e9)%float, re, im))
    /\ (forall to_float' : str -> option float,
          to_float' t0 = to_float t0 ->
          to_float' t1 = to_float t1 ->
          to_float' t2 = to_float t2 ->
          loop_body to_float' true line st = loop_body to_float true line st)
    /\ is_s1p_name (lit "X.S1P") = true
    /\ is_s1p_name (lit "ref.Cal") = true.
Proof.
  intros to_float line t0 t1 t2 rest f re im st
         Hsplit Hhash Hbang H0 H1 H2.
  assert (Hne : match strip line with [] => true | _ => false end = false).
  { destruct (strip line); [discriminate Hsplit|reflexivity]. }
  split; [|split; [|split; reflexivity]].
  - rewrite loop_body_data_point. unfold Spec.data_point.
    now rewrite Hsplit, Hhash, Hbang, H0, H1, H2, Hne.
  - intros to_float' E0 E1 E2.
    rewrite !loop_body_data_point. unfold Spec.data_point.
    now rewrite Hsplit, Hhash, Hbang, Hne, E0, E1, E2.
Qed.

Lemma one_port_column_selection_witness :
  loop_body float_of_str true
    (lit "1000000000 0.1 0.2 0.3 0.4 0.5 0.6 0.7 0.8") (mkLists [] [] [])
  = (Normal tt, mkLists [1%float] [0.1%float] [0.2%float]).
Proof.
  exact (proj1 (one_port_column_selection float_of_str
                  (lit "1000000000 0.1 0.2 0.3 0.4 0.5 0.6 0.7 0.8")
                  (lit "1000000000") (lit "0.1") (lit "0.2")
                  [lit "0.3"; lit "0.4"; lit "0.5"; lit "0.6"; lit "0.7";
                   lit "0.8"]
                  1e9%float 0.1%float 0.2%float (mkLists [] [] [])
                  eq_refl eq_refl eq_refl eq_refl eq_refl eq_refl)).
Defined.

Lemma data_points_short_rows (to_float : str -> option float)
    (lines : list str) :
  Forall (fun l => (List.length (split (strip l)) < 5)%nat) lines ->
  Spec.data_points to_float false lines = [].
Proof.
  induction 1 as [|l lines Hl _ IH]; [reflexivity|].
  cbn [Spec.data_points].
  replace (Spec.data_point to_float false l) with (@None Spec.point);
    [exact IH|].
  unfold Spec.data_point. destruct (_ || _ || _); [reflexivity|].
  destruct (split (strip l)) as [|? [|? [|? [|? [|? ?]]]]];
    try reflexivity.
  cbn [List.length] in Hl. lia.
Qed.

(** X6. Rows of fewer than five columns give nothing in 2-port mode: a file
    all of whose lines have fewer than five tokens (a 1-port file, say),
    read under a name that ends in neither [.s1p] nor [.cal], parses to the
    empty trace, and [criar_media] refuses it as empty, on either side. *)
Theorem two_port_short_rows :
  forall (to_float : str -> option float) (file_content : bytes)
         (filename : str),
    is_s1p_name filename = false ->
    Forall (fun l => (List.length (split (strip l)) < 5)%nat)
           (splitlines (decode file_content)) ->
    parse_s_param to_float file_content filename = Ok ([], [], [])
    /\ forall (other_content : bytes) (other_name : str),
        criar_media to_float file_content filename other_content other_name
        = Ok (MediaNone msg_vazio)
        /\ criar_media to_float other_content other_name file_content filename
           = Ok (MediaNone msg_vazio).
Proof.
  intros to_float c n Hn Hl.
  assert (P : parse_s_param to_float c n = Ok ([], [], [])).
  { rewrite parse_s_param_points, Hn. cbv zeta.
    now rewrite (data_points_short_rows to_float _ Hl). }
  split; [exact P|]. intros c2 n2. split.
  - destruct (criar_media_cases to_float c n c2 n2)
      as (t1 & t2 & E1 & _ & _ & _ & Hnone & _).
    apply Hnone. left. rewrite P in E1. injection E1 as <-. reflexivity.
  - destruct (criar_media_cases to_float c2 n2 c n)
      as (t1 & t2 & _ & E2 & _ & _ & Hnone & _).
    apply Hnone. right. rewrite P in E2. injection E2 as <-. reflexivity.
Qed.

Lemma two_port_short_rows_witness :
  parse_s_param float_of_str (bytes_of_string "1e9 0.1 0.2") (lit "a.s2p")
  = Ok ([], [], []).
Proof.
  refine (proj1 (two_port_short_rows float_of_str
                   (bytes_of_string "1e9 0.1 0.2") (lit "a.s2p") eq_refl _)).
  vm_compute. repeat constructor.
Defined.

(* ================================================================= *)
(** ** Baseline reduction: a reference of two lengths *)

Lemma take_out_of_range (a : array) (idx : list nat) :
  (exists i, In i idx /\ (List.length a <= i)%nat) ->
  take a idx = Raise IndexError.
Proof.
  induction idx as [|j idx IH]; intros (i & Hi & Hle); [now elim Hi|].
  cbn [take]. unfold index.
  destruct (nth_error a j) as [x|] eqn:E; [|reflexivity].
  cbn [rbind]. destruct Hi as [->|Hi].
  - apply nth_error_None in Hle. congruence.
  - rewrite IH by (exists i; now split). reflexivity.
Qed.

Lemma gather_firstn (a : array) (n : nat) (idx : list nat) :
  Forall (fun i => (i < n)%nat) idx ->
  gather (firstn n a) idx = gather a idx.
Proof.
  induction 1 as [|i idx Hi _ IH]; [reflexivity|].
  cbn [gather List.map]. f_equal; [|exact IH].
  rewrite <- (firstn_skipn n a) at 2.
  destruct (Nat.lt_ge_cases i (List.length (firstn n a))) as [L|G].
  - now rewrite app_nth1.
  - rewrite (nth_overflow (firstn n a)) by exact G.
    rewrite length_firstn in G.
    assert (La : (List.length a <= i)%nat) by lia.
    rewrite app_nth2 by (rewrite length_firstn; lia).
    symmetry. apply nth_overflow. rewrite length_skipn, length_firstn. lia.
Qed.

(** X7. A reference curve whose two sequences differ in length: when the
    magnitudes are fewer than the frequencies, [apply_reduction] raises
    [IndexError] (the sorted index reaches past them); when they are more,
    the surplus is never read, and the result is that for the magnitudes cut
    to the number of frequencies. *)
Theorem apply_reduction_reference_lengths :
  forall freq mag_db red_freq red_mag_db : array,
    red_freq <> [] -> red_mag_db <> [] ->
    ((List.length red_mag_db < List.length red_freq)%nat ->
     apply_reduction freq mag_db red_freq red_mag_db = Raise IndexError)
    /\ ((List.length red_freq <= List.length red_mag_db)%nat ->
        apply_reduction freq mag_db red_freq red_mag_db
        = apply_reduction freq mag_db red_freq
            (firstn (List.length red_freq) red_mag_db)).
Proof.
  intros freq mag_db rf rm Hf Hm.
  assert (Lf : (0 < List.length rf)%nat)
    by (destruct rf; [now elim Hf|simpl; lia]).
  assert (Lm : (0 < List.length rm)%nat)
    by (destruct rm; [now elim Hm|simpl; lia]).
  unfold apply_reduction.
  replace (List.length rf =? 0)%nat with false
    by (symmetry; apply Nat.eqb_neq; lia).
  replace (List.length rm =? 0)%nat with false
    by (symmetry; apply Nat.eqb_neq; lia).
  cbn [orb].
  rewrite (take_gather rf _ (argsort_bound rf)). cbn [rbind].
  split.
  - intros Hlt. rewrite take_out_of_range; [reflexivity|].
    exists (List.length rf - 1)%nat. split; [|lia].
    apply (Permutation_in _ (Permutation_sym (argsort_perm rf))).
    apply in_seq. lia.
  - intros Hle.
    replace (List.length (firstn (List.length rf) rm) =? 0)%nat with false
      by (symmetry; apply Nat.eqb_neq; rewrite length_firstn; lia).
    assert (B : Forall (fun i => (i < List.length rm)%nat) (argsort rf)).
    { eapply Forall_impl; [|apply argsort_bound]. cbv beta. intros; lia. }
    assert (B' : Forall (fun i => (i < List.length (firstn (List.length rf) rm))%nat)
                   (argsort rf)).
    { eapply Forall_impl; [|apply argsort_bound]. cbv beta.
      intros i Hi. rewrite length_firstn. lia. }
    rewrite (take_gather rm _ B), (take_gather _ _ B').
    now rewrite (gather_firstn rm _ _ (argsort_bound rf)).
Qed.

Lemma apply_reduction_reference_lengths_witness :
  apply_reduction [1]%float [5]%float [1; 2]%float [3]%float
  = Raise IndexError
  /\ apply_reduction [1]%float [5]%float [1; 2]%float [3; 4; 9]%float
     = apply_reduction [1]%float [5]%float [1; 2]%float [3; 4]%float.
Proof.
  split.
  - apply (proj1 (apply_reduction_reference_lengths
                    [1]%float [5]%float [1; 2]%float [3]%float
                    ltac:(discriminate) ltac:(discriminate))).
    cbn. lia.
  - apply (proj2 (apply_reduction_reference_lengths
                    [1]%float [5]%float [1; 2]%float [3; 4; 9]%float
                    ltac:(discriminate) ltac:(discriminate))).
    cbn. lia.
Defined.

(* ================================================================= *)
(** ** The grouping loop *)

Definition call_files (c : plot_call) : list file_data :=
  match c with PlotFiles f _ _ => f end.
Definition call_title (c : plot_call) : str :=
  match c with PlotFiles _ t _ => t end.
Definition call_flags (c : plot_call) : list bool :=
  match c with PlotFiles _ _ b => b end.

Lemma range_up_shape (fuel : nat) (i stop step : Z) :
  exists cnt,
    range_up fuel i stop step
    = List.map (fun k => (i + Z.of_nat k * step)%Z) (seq 0 cnt)
    /\ forall k, (k < cnt)%nat -> (i + Z.of_nat k * step < stop)%Z.
Proof.
  revert i. induction fuel as [|f IH]; intros i; cbn [range_up].
  - exists 0%nat. split; [reflexivity|]. intros k Hk. lia.
  - destruct (Z.ltb_spec i stop) as [L|L].
    + destruct (IH (i + step)%Z) as (cnt & E & B).
      exists (S cnt). split.
      * cbn [seq List.map]. rewrite E, <- seq_shift, map_map.
        f_equal; [lia|]. apply map_ext. intros k. lia.
      * intros [|k] Hk; [lia|]. specialize (B k ltac:(lia)). lia.
    + exists 0%nat. split; [reflexivity|]. intros k Hk. lia.
Qed.

Lemma concat_slices {A} (l : list A) (fuel : nat) (i step : Z) :
  (0 < step)%Z -> (0 <= i)%Z ->
  (Z.of_nat (List.length l) - i <= Z.of_nat fuel)%Z ->
  List.concat (List.map (fun j => slice l j step)
            (range_up fuel i (Z.of_nat (List.length l)) step))
  = skipn (Z.to_nat i) l.
Proof.
  intros Hs. revert i. induction fuel as [|f IH]; intros i Hi Hf;
    cbn [range_up].
  - cbn [List.map List.concat]. symmetry. apply skipn_all2. lia.
  - destruct (Z.ltb_spec i (Z.of_nat (List.length l))) as [L|L].
    + cbn [List.map List.concat]. rewrite IH by lia. unfold slice.
      replace (Z.to_nat (i + step)) with (Z.to_nat step + Z.to_nat i)%nat
        by lia.
      rewrite <- skipn_skipn. apply firstn_skipn.
    + cbn [List.map List.concat]. symmetry. apply skipn_all2. lia.
Qed.

(** X8. The grouping loop (lines 195-199), for a group size [max_por] of
    one or more: the groups are consecutive pieces of the file list, in
    order, that together make up the whole list, each of at least one and at
    most [max_por] files with as many flags, and the call for piece number
    [k] (from 0) is titled [<titulo> - Parte <k+1>]. *)
Theorem plot_groups_partition :
  forall (files : list file_data) (flags : list bool) (titulo : str)
         (max_por : Z),
    (0 < max_por)%Z -> List.length flags = List.length files ->
    let calls := plot_groups files flags titulo max_por in
    List.concat (List.map call_files calls) = files
    /\ List.concat (List.map call_flags calls) = flags
    /\ forall k c,
        nth_error calls k = Some c ->
        (1 <= List.length (call_files c) <= Z.to_nat max_por)%nat
        /\ List.length (call_flags c) = List.length (call_files c)
        /\ call_title c
           = titulo ++ lit " - Parte " ++ str_of_int (Z.of_nat k + 1).
Proof.
  intros files flags titulo step Hs Hlen calls.
  unfold calls, plot_groups, range0.
  replace (0 <? step)%Z with true by (symmetry; apply Z.ltb_lt; lia).
  rewrite !map_map. cbn [call_files call_flags].
  split; [|split].
  - rewrite (concat_slices files) by lia. reflexivity.
  - rewrite <- Hlen. rewrite (concat_slices flags) by lia. reflexivity.
  - intros k c Hk.
    destruct (range_up_shape (Z.to_nat (Z.of_nat (List.length files))) 0
                (Z.of_nat (List.length files)) step) as (cnt & E & B).
    rewrite E, map_map in Hk.
    rewrite nth_error_map in Hk.
    destruct (nth_error (seq 0 cnt) k) as [k'|] eqn:Ek; [|discriminate].
    assert (Hk' : (k < cnt)%nat).
    { rewrite <- (length_seq cnt 0). apply nth_error_Some.
      rewrite Ek. discriminate. }
    rewrite nth_error_seq in Ek.
    assert (k' = k).
    { destruct (Nat.ltb_spec k cnt); [|lia]. now injection Ek. }
    subst k'. cbn [option_map] in Hk. injection Hk as <-.
    specialize (B k Hk'). cbn [call_files call_flags call_title].
    unfold slice, titulo_grupo.
    rewrite !length_firstn, !length_skipn, Hlen.
    split; [lia|]. split; [reflexivity|].
    do 3 f_equal. cbn [Z.add]. rewrite Z.div_mul by lia. reflexivity.
Qed.

Lemma plot_groups_partition_witness :
  List.concat (List.map call_files
            (plot_groups (repeat (lit "a.s2p", []) 25) (repeat false 25)
               (lit "T") 10))
  = repeat (lit "a.s2p", []) 25.
Proof.
  exact (proj1 (plot_groups_partition (repeat (lit "a.s2p", []) 25)
                  (repeat false 25) (lit "T") 10 eq_refl eq_refl)).
Defined.

(* ================================================================= *)
(** ** plot_files *)

(** A reduction curve of one length. *)
Definition reduction_ok (red : reduction) : Prop :=
  match red with
  | Reduction red_freq red_mag_db =>
      List.length red_mag_db = List.length red_freq
  | _ => True
  end.

(** The file gives at least one point. *)
Definition has_points (to_float : str -> option float) (f : file_data)
    : bool :=
  match parse_s_param to_float (snd f) (fst f) with
  | Ok (freq, _, _) => negb (List.length freq =? 0)%nat
  | Raise _ => false
  end.

Definition curve_x (c : curve) : array := fst (fst c).
Definition curve_y (c : curve) : array := snd (fst c).
Definition curve_label (c : curve) : str := snd c.

Section PlotFacts.

Variable to_float : str -> option float.
Variable log10 : float -> float.

Lemma magnitude_db_ok (s_real s_imag : array) :
  List.length s_imag = List.length s_real ->
  exists m, magnitude_db log10 s_real s_imag = Ok m
            /\ List.length m = List.length s_real.
Proof.
  intros H. unfold magnitude_db, Np.add.
  rewrite elementwise_same_length by (now rewrite !length_map).
  cbn [rbind]. eexists. split; [reflexivity|].
  rewrite length_map, map2_length by (now rewrite !length_map).
  apply length_map.
Qed.

Lemma reduced_ok (red : reduction) (flag : bool) (freq mag_db : array) :
  reduction_ok red -> List.length freq = List.length mag_db ->
  exists m, reduced red flag freq mag_db = Ok m
            /\ List.length m = List.length mag_db.
Proof.
  intros Hr Hl. unfold reduced.
  destruct flag; [|now exists mag_db].
  destruct red as [| |rf rm]; try (now exists mag_db).
  cbn [reduction_ok] in Hr.
  destruct rf as [|x rf]; [now exists mag_db|].
  rewrite apply_reduction_value by (assumption || discriminate).
  eexists. split; [reflexivity|].
  apply map2_length. now rewrite length_map.
Qed.

(** The loop from any index, when no flag is missing. *)
Lemma plot_loop_curves (files_data : list file_data) (idx : nat)
    (red : reduction) (flags : list bool) :
  reduction_ok red ->
  (idx + List.length files_data <= List.length flags)%nat ->
  exists curves,
    plot_loop to_float log10 files_data idx red flags = Ok curves
    /\ Forall2
         (fun c f =>
            curve_label c = fst f
            /\ (exists re im,
                   parse_s_param to_float (snd f) (fst f)
                   = Ok (curve_x c, re, im))
            /\ List.length (curve_y c) = List.length (curve_x c))
         curves (filter (has_points to_float) files_data).
Proof.
  intros Hr. revert idx.
  induction files_data as [|[filename file_content] rest IH]; intros idx Hl.
  - exists []. split; [reflexivity|constructor].
  - cbn [List.length] in Hl. cbn [plot_loop filter].
    unfold has_points at 1. cbn [fst snd].
    destruct (parse_s_param_well_formed to_float file_content filename)
      as ([[fr re] im] & E & [Wr Wi]).
    rewrite E. cbn [rbind].
    destruct (IH (S idx) ltac:(lia)) as (cs & Ecs & Hcs).
    destruct (List.length fr =? 0)%nat eqn:E0; cbn [negb].
    + exists cs. split; assumption.
    + destruct (magnitude_db_ok re im ltac:(congruence)) as (m & Em & Lm).
      rewrite Em. cbn [rbind].
      unfold flag_at.
      destruct (nth_error flags idx) as [b|] eqn:Eb;
        [|apply nth_error_None in Eb; lia].
      cbn [rbind].
      destruct (reduced_ok red b fr m Hr ltac:(congruence))
        as (m' & Em' & Lm').
      rewrite Em'. cbn [rbind]. unfold ax_plot.
      replace (List.length fr =? List.length m')%nat with true
        by (symmetry; apply Nat.eqb_eq; congruence).
      cbn [rbind]. rewrite Ecs. cbn [rbind].
      eexists. split; [reflexivity|].
      constructor; [|exact Hcs].
      cbn [curve_label curve_x curve_y fst snd].
      split; [reflexivity|]. split; [now exists re, im|congruence].
Qed.

End PlotFacts.

(** X9. [plot_files] draws one curve for each file that gives at least one
    point, in the order of the files, labelled with the file's name, over
    the file's frequencies and with as many magnitudes as frequencies; a
    file that gives no point is passed over.  With a flag for every file
    and a reduction curve of one length it raises nothing, whatever the
    bytes of the files are. *)
Theorem plot_files_curves :
  forall (to_float : str -> option float) (log10 : float -> float)
         (files_data : list file_data) (titulo : str) (red : reduction)
         (apply_reduction_flags : list bool),
    reduction_ok red ->
    (List.length files_data <= List.length apply_reduction_flags)%nat ->
    exists curves,
      plot_files to_float log10 files_data titulo red apply_reduction_flags
      = Ok (titulo, curves)
      /\ List.map curve_label curves
         = List.map fst (filter (has_points to_float) files_data)
      /\ Forall2
           (fun c f =>
              (exists re im,
                  parse_s_param to_float (snd f) (fst f)
                  = Ok (curve_x c, re, im))
              /\ List.length (curve_y c) = List.length (curve_x c))
           curves (filter (has_points to_float) files_data).
Proof.
  intros to_float log10 files titulo red flags Hr Hl.
  destruct (plot_loop_curves to_float log10 files 0 red flags Hr Hl)
    as (curves & E & H).
  exists curves. unfold plot_files. rewrite E. cbn [rbind].
  split; [reflexivity|]. split.
  - clear E. set (fs := filter (has_points to_float) files) in *.
    clearbody fs.
    induction H as [|c f cs fs' (Hc & _) _ IH]; [reflexivity|].
    cbn [List.map]. now rewrite Hc, IH.
  - eapply Forall2_impl; [|exact H]. cbv beta. intros c f (_ & A & B).
    now split.
Qed.

Lemma plot_files_curves_witness :
  exists curves,
    plot_files float_of_str (fun x => x)
      [(lit "a.s1p", bytes_of_string "1e9 3 4");
       (lit "empty.s1p", bytes_of_string "# nothing")]
      (lit "T") NoReduction [false; false]
    = Ok (lit "T", curves)
    /\ List.map curve_label curves
       = List.map fst
           (filter (has_points float_of_str)
              [(lit "a.s1p", bytes_of_string "1e9 3 4");
               (lit "empty.s1p", bytes_of_string "# nothing")])
    /\ Forall2
         (fun c f =>
            (exists re im,
                parse_s_param float_of_str (snd f) (fst f)
                = Ok (curve_x c, re, im))
            /\ List.length (curve_y c) = List.length (curve_x c))
         curves
         (filter (has_points float_of_str)
            [(lit "a.s1p", bytes_of_string "1e9 3 4");
             (lit "empty.s1p", bytes_of_string "# nothing")]).
Proof.
  apply plot_files_curves; [exact I|]. cbn. lia.
Defined.

Lemma plot_loop_no_curve (to_float : str -> option float)
    (log10 : float -> float) (files_data : list file_data) (idx : nat)
    (red red' : reduction) (flags flags' : list bool) :
  red = NoReduction \/ red = EmptyReduction ->
  red' = NoReduction \/ red' = EmptyReduction ->
  (idx + List.length files_data <= List.length flags)%nat ->
  (idx + List.length files_data <= List.length flags')%nat ->
  plot_loop to_float log10 files_data idx red flags
  = plot_loop to_float log10 files_data idx red' flags'.
Proof.
  intros Hr Hr'. revert idx.
  induction files_data as [|[filename file_content] rest IH];
    intros idx Hl Hl'; [reflexivity|].
  cbn [List.length] in Hl, Hl'. cbn [plot_loop].
  destruct (parse_s_param to_float file_content filename)
    as [[[fr re] im]|e]; [|reflexivity].
  cbn [rbind]. rewrite (IH (S idx)) by lia.
  destruct (List.length fr =? 0)%nat; [reflexivity|].
  destruct (magnitude_db log10 re im) as [m|e]; [|reflexivity].
  cbn [rbind]. unfold flag_at.
  destruct (nth_error flags idx) as [b|] eqn:Eb;
    [|apply nth_error_None in Eb; lia].
  destruct (nth_error flags' idx) as [b'|] eqn:Eb';
    [|apply nth_error_None in Eb'; lia].
  cbn [rbind].
  assert (R : reduced red b fr m = Ok m)
    by (destruct Hr as [-> | ->], b; reflexivity).
  assert (R' : reduced red' b' fr m = Ok m)
    by (destruct Hr' as [-> | ->], b'; reflexivity).
  now rewrite R, R'.
Qed.

(** X10. Without a reduction curve the flags change nothing: when no
    reduction file is uploaded, or the one uploaded gives no point,
    [plot_files] shows the same figure whatever the "apply reduction" flags
    are (the plain magnitudes), and the two cases show the same figure. *)
Theorem plot_files_without_reduction :
  forall (to_float : str -> option float) (log10 : float -> float)
         (files_data : list file_data) (titulo : str)
         (flags flags' : list bool),
    (List.length files_data <= List.length flags)%nat ->
    (List.length files_data <= List.length flags')%nat ->
    plot_files to_float log10 files_data titulo NoReduction flags
    = plot_files to_float log10 files_data titulo NoReduction flags'
    /\ plot_files to_float log10 files_data titulo EmptyReduction flags
       = plot_files to_float log10 files_data titulo NoReduction flags'.
Proof.
  intros to_float log10 files titulo flags flags' Hl Hl'.
  unfold plot_files. split.
  - rewrite (plot_loop_no_curve to_float log10 files 0 NoReduction
               NoReduction flags flags'); auto.
  - rewrite (plot_loop_no_curve to_float log10 files 0 EmptyReduction
               NoReduction flags flags'); auto.
Qed.

Lemma plot_files_without_reduction_witness :
  plot_files float_of_str (fun x => x)
    [(lit "a.s1p", bytes_of_string "1e9 3 4")] (lit "T") NoReduction [true]
  = plot_files float_of_str (fun x => x)
      [(lit "a.s1p", bytes_of_string "1e9 3 4")] (lit "T") NoReduction [false]
  /\ plot_files float_of_str (fun x => x)
       [(lit "a.s1p", bytes_of_string "1e9 3 4")] (lit "T") EmptyReduction
       [true]
     = plot_files float_of_str (fun x => x)
         [(lit "a.s1p", bytes_of_string "1e9 3 4")] (lit "T") NoReduction
         [false].
Proof.
  apply plot_files_without_reduction; cbn; lia.
Defined.

(** X11. The reduction curve of the page (lines 147-152) is always well
    formed: loading never raises; nothing uploaded gives no curve, a file
    without points gives the empty curve, and any other file gives its
    frequencies with as many magnitudes.  With it, and a flag for every
    file, [plot_files] raises nothing. *)
Theorem load_reduction_plot_files :
  forall (to_float : str -> option float) (log10 : float -> float)
         (red_upload : option file_data)
         (files_data : list file_data) (titulo : str) (flags : list bool),
    List.length flags = List.length files_data ->
    exists red curves,
      load_reduction to_float log10 red_upload = Ok red
      /\ reduction_ok red
      /\ (red_upload = None -> red = NoReduction)
      /\ (forall f, red_upload = Some f ->
            if has_points to_float f
            then exists red_freq red_real red_imag red_mag_db,
                parse_s_param to_float (snd f) (fst f)
                = Ok (red_freq, red_real, red_imag)
                /\ magnitude_db log10 red_real red_imag = Ok red_mag_db
                /\ red = Reduction red_freq red_mag_db
            else red = EmptyReduction)
      /\ plot_files to_float log10 files_data titulo red flags
         = Ok (titulo, curves).
Proof.
  intros to_float log10 up files titulo flags Hl.
  assert (L : exists red,
             load_reduction to_float log10 up = Ok red
             /\ reduction_ok red
             /\ (up = None -> red = NoReduction)
             /\ (forall f, up = Some f ->
                   if has_points to_float f
                   then exists red_freq red_real red_imag red_mag_db,
                       parse_s_param to_float (snd f) (fst f)
                       = Ok (red_freq, red_real, red_imag)
                       /\ magnitude_db log10 red_real red_imag = Ok red_mag_db
                       /\ red = Reduction red_freq red_mag_db
                   else red = EmptyReduction)).
  { destruct up as [[name content]|].
    - cbn [load_reduction].
      destruct (parse_s_param_well_formed to_float content name)
        as ([[fr re] im] & E & [Wr Wi]).
      rewrite E. cbn [rbind].
      destruct (magnitude_db_ok log10 re im ltac:(congruence))
        as (m & Em & Lm).
      destruct fr as [|x fr].
      + exists EmptyReduction. cbn.
        split; [reflexivity|]. split; [exact I|]. split; [discriminate|].
        intros f Hf. injection Hf as <-. unfold has_points. cbn [fst snd].
        rewrite E. reflexivity.
      + exists (Reduction (x :: fr) m).
        replace (0 <? List.length (x :: fr))%nat with true by reflexivity.
        rewrite Em. cbn [rbind reduction_ok].
        split; [reflexivity|]. split; [congruence|]. split; [discriminate|].
        intros f Hf. injection Hf as <-. unfold has_points. cbn [fst snd].
        rewrite E. cbn [List.length Nat.eqb negb].
        now exists (x :: fr), re, im, m.
    - exists NoReduction. cbn.
      split; [reflexivity|]. split; [exact I|]. split; [reflexivity|].
      intros f Hf. discriminate Hf. }
  destruct L as (red & E & Hr & H1 & H2).
  destruct (plot_loop_curves to_float log10 files 0 red flags Hr
              ltac:(cbn; lia)) as (curves & Ec & _).
  exists red, curves. unfold plot_files. rewrite Ec.
  repeat (split; [assumption|]). reflexivity.
Qed.

Lemma load_reduction_plot_files_witness :
  exists red curves,
    load_reduction float_of_str (fun x => x)
      (Some (lit "ref.cal", bytes_of_string "1e9 1 0")) = Ok red
    /\ plot_files float_of_str (fun x => x)
         [(lit "a.s1p", bytes_of_string "1e9 3 4")] (lit "T") red [true]
       = Ok (lit "T", curves).
Proof.
  destruct (load_reduction_plot_files float_of_str (fun x => x)
              (Some (lit "ref.cal", bytes_of_string "1e9 1 0"))
              [(lit "a.s1p", bytes_of_string "1e9 3 4")] (lit "T") [true]
              eq_refl) as (red & curves & E & _ & _ & _ & P).
  exists red, curves. split; assumption.
Defined.

(* ================================================================= *)
(** ** The page: dictionaries *)

Import Page.

Lemma str_eqb_eq (a b : str) : str_eqb a b = true <-> a = b.
Proof.
  unfold str_eqb. destruct (list_eq_dec N.eq_dec a b); split;
    intros H; try reflexivity; try assumption; try discriminate.
  contradiction.
Qed.

Lemma str_eqb_refl (a : str) : str_eqb a a = true.
Proof. now apply str_eqb_eq. Qed.

Lemma str_eqb_neq (a b : str) : str_eqb a b = false <-> a <> b.
Proof.
  rewrite <- str_eqb_eq. destruct (str_eqb a b); split; intros H;
    try discriminate; try reflexivity; auto. now elim H.
Qed.

Section DictFacts.

Context {V : Type}.
Implicit Types (d : dict V) (k : str) (v : V).

Lemma get_In d k v : get d k = Some v -> In (k, v) d.
Proof.
  induction d as [|[k' v'] d IH]; cbn [get]; [discriminate|].
  destruct (str_eqb k k') eqn:E.
  - apply str_eqb_eq in E. subst k'. intros H. injection H as ->. now left.
  - intros H. right. now apply IH.
Qed.

Lemma mem_keys d k : mem d k = true <-> In k (keys d).
Proof.
  unfold mem, keys.
  induction d as [|[k' v'] d IH]; cbn [get List.map In fst].
  - split; [discriminate|contradiction].
  - destruct (str_eqb k k') eqn:E.
    + apply str_eqb_eq in E. subst k'. split; auto.
    + apply str_eqb_neq in E. rewrite IH. split; [now right|].
      intros [H|H]; [congruence|exact H].
Qed.

Lemma get_set_same d k v : get (set d k v) k = Some v.
Proof.
  induction d as [|[k' v'] d IH]; cbn [set get].
  - now rewrite str_eqb_refl.
  - destruct (str_eqb k k') eqn:E; cbn [get]; rewrite E; auto.
Qed.

Lemma get_set_other d k k' v : k' <> k -> get (set d k v) k' = get d k'.
Proof.
  intros Hne. induction d as [|[k0 v0] d IH]; cbn [set get].
  - now replace (str_eqb k' k) with false by (symmetry; now apply str_eqb_neq).
  - destruct (str_eqb k k0) eqn:E; cbn [get].
    + apply str_eqb_eq in E. subst k0.
      now replace (str_eqb k' k) with false
        by (symmetry; now apply str_eqb_neq).
    + now rewrite IH.
Qed.

Lemma mem_set d k k' v :
  mem (set d k v) k' = str_eqb k' k || mem d k'.
Proof.
  unfold mem. destruct (str_eqb k' k) eqn:E.
  - apply str_eqb_eq in E. subst k'. now rewrite get_set_same.
  - apply str_eqb_neq in E. now rewrite get_set_other.
Qed.

Lemma keys_set_old d k v : mem d k = true -> keys (set d k v) = keys d.
Proof.
  unfold mem, keys.
  induction d as [|[k' v'] d IH]; cbn [get set List.map fst]; [discriminate|].
  destruct (str_eqb k k') eqn:E; cbn [List.map fst]; [reflexivity|].
  intros H. now rewrite IH.
Qed.

Lemma keys_set_new d k v : mem d k = false -> keys (set d k v) = keys d ++ [k].
Proof.
  unfold mem, keys.
  induction d as [|[k' v'] d IH]; cbn [get set List.map fst app];
    [reflexivity|].
  destruct (str_eqb k k') eqn:E; [discriminate|].
  cbn [List.map fst]. intros H. now rewrite IH.
Qed.

Lemma NoDup_keys_set d k v : NoDup (keys d) -> NoDup (keys (set d k v)).
Proof.
  intros H. destruct (mem d k) eqn:E.
  - now rewrite keys_set_old.
  - rewrite keys_set_new by exact E.
    apply NoDup_app; [exact H|repeat constructor; intros []|].
    intros x Hx [<-|[]]. apply mem_keys in Hx. congruence.
Qed.

(** [del] on a key that is there: the entry goes, the others stay, in
    order. *)
Lemma del_spec d k :
  NoDup (keys d) -> mem d k = true ->
  del d k = Some (filter (fun kv => negb (str_eqb (fst kv) k)) d).
Proof.
  unfold mem, keys.
  induction d as [|[k' v'] d IH]; cbn [get del filter List.map fst];
    [discriminate|].
  intros Hnd. inversion Hnd as [|? ? Hnot Hnd']; subst.
  destruct (str_eqb k k') eqn:E.
  - apply str_eqb_eq in E. subst k'. intros _.
    rewrite str_eqb_refl. cbn [negb]. f_equal.
    symmetry. apply forallb_filter_id. apply forallb_forall.
    intros [k0 v0] Hin. cbn [fst]. apply Bool.negb_true_iff, str_eqb_neq.
    intros ->. apply Hnot. change k with (fst (k, v0)). now apply in_map.
  - intros H. rewrite (IH Hnd' H).
    replace (str_eqb k' k) with false; [reflexivity|].
    symmetry. apply str_eqb_neq. apply str_eqb_neq in E. congruence.
Qed.

Lemma del_missing d k : mem d k = false -> del d k = None.
Proof.
  unfold mem.
  induction d as [|[k' v'] d IH]; cbn [get del]; [reflexivity|].
  destruct (str_eqb k k'); [discriminate|]. intros H. now rewrite IH.
Qed.

Lemma keys_filter (p : str -> bool) d :
  keys (filter (fun kv => p (fst kv)) d) = filter p (keys d).
Proof.
  unfold keys. induction d as [|[k v] d IH]; cbn [filter List.map fst];
    [reflexivity|].
  destruct (p k); cbn [List.map fst]; now rewrite IH.
Qed.

Lemma get_filter (p : str -> bool) d k :
  get (filter (fun kv => p (fst kv)) d) k
  = if p k then get d k else None.
Proof.
  induction d as [|[k' v'] d IH]; cbn [filter get fst].
  - now destruct (p k).
  - destruct (p k') eqn:Ep; cbn [get].
    + destruct (str_eqb k k') eqn:E; [|exact IH].
      apply str_eqb_eq in E. subst k'. now rewrite Ep.
    + destruct (str_eqb k k') eqn:E; [|exact IH].
      apply str_eqb_eq in E. subst k'. rewrite IH. now rewrite Ep.
Qed.

End DictFacts.

(* ================================================================= *)
(** ** The page: the files uploaded *)

(** The dictionaries of a session hold each key once, and the flags are
    there whenever the files are. *)
Definition session_ok (s : session) : Prop :=
  match state_files_data s with
  | None => True
  | Some files_data =>
      NoDup (keys files_data)
      /\ exists flags, state_apply_reduction s = Some flags
                       /\ NoDup (keys flags)
  end.

Lemma all_false_NoDup (uploaded : list file_data) :
  NoDup (keys (all_false uploaded)).
Proof.
  unfold all_false.
  assert (G : forall (l : list file_data) (d : dict bool),
             NoDup (keys d)
             -> NoDup (keys (fold_left (fun d file => set d (fst file) false)
                                       l d))).
  { induction l as [|f l IH]; intros d H; cbn [fold_left]; [exact H|].
    apply IH. now apply NoDup_keys_set. }
  apply G. constructor.
Qed.

Lemma all_false_get (uploaded : list file_data) (k : str) :
  get (all_false uploaded) k
  = if existsb (fun f => str_eqb k (fst f)) uploaded then Some false
    else None.
Proof.
  unfold all_false.
  assert (G : forall (l : list file_data) (d : dict bool),
             get (fold_left (fun d file => set d (fst file) false) l d) k
             = if existsb (fun f => str_eqb k (fst f)) l then Some false
               else get d k).
  { induction l as [|f l IH]; intros d; cbn [fold_left existsb];
      [reflexivity|].
    rewrite IH.
    match goal with
    | |- context [existsb ?p l] => destruct (existsb p l)
    end; [now rewrite Bool.orb_true_r|].
    rewrite Bool.orb_false_r.
    destruct (str_eqb k (fst f)) eqn:E.
    - apply str_eqb_eq in E. subst k. apply get_set_same.
    - apply str_eqb_neq in E. now apply get_set_other. }
  apply G.
Qed.

Section UploadFacts.

Variable uploaded : list file_data.

Lemma upload_file_ok (s : session) (file : file_data) :
  session_ok s -> session_ok (upload_file uploaded s file).
Proof.
  intros H. unfold upload_file.
  destruct (mem (files_data_or_empty s) (fst file)); [exact H|].
  unfold session_ok. cbn [state_files_data state_apply_reduction].
  split.
  - apply NoDup_keys_set. unfold files_data_or_empty.
    unfold session_ok in H.
    destruct (state_files_data s); [apply H|constructor].
  - eexists. split; [reflexivity|apply all_false_NoDup].
Qed.

Lemma upload_file_keeps (s : session) (file : file_data) (k : str)
    (content : bytes) :
  get (files_data_or_empty s) k = Some content ->
  get (files_data_or_empty (upload_file uploaded s file)) k = Some content.
Proof.
  intros H. unfold upload_file.
  destruct (mem (files_data_or_empty s) (fst file)) eqn:E; [exact H|].
  unfold files_data_or_empty at 1. cbn [state_files_data].
  rewrite get_set_other; [exact H|].
  intros ->. unfold mem in E. now rewrite H in E.
Qed.

Lemma upload_loop_keeps (l : list file_data) (s : session) (k : str)
    (content : bytes) :
  get (files_data_or_empty s) k = Some content ->
  get (files_data_or_empty (fold_left (upload_file uploaded) l s)) k
  = Some content.
Proof.
  revert s. induction l as [|f l IH]; intros s H; cbn [fold_left];
    [exact H|].
  apply IH. now apply upload_file_keeps.
Qed.

Lemma upload_file_adds (s : session) (file : file_data) :
  exists content,
    get (files_data_or_empty (upload_file uploaded s file)) (fst file)
    = Some content
    /\ (mem (files_data_or_empty s) (fst file) = false ->
        content = snd file).
Proof.
  unfold upload_file.
  destruct (mem (files_data_or_empty s) (fst file)) eqn:E.
  - unfold mem in E.
    destruct (get (files_data_or_empty s) (fst file)) as [c|];
      [|discriminate].
    exists c. split; [reflexivity|discriminate].
  - exists (snd file). unfold files_data_or_empty at 1.
    cbn [state_files_data]. now rewrite get_set_same.
Qed.

Lemma upload_file_other (s : session) (file : file_data) (k : str) :
  fst file <> k ->
  mem (files_data_or_empty s) k = false ->
  mem (files_data_or_empty (upload_file uploaded s file)) k = false.
Proof.
  intros Hk H. unfold upload_file.
  destruct (mem (files_data_or_empty s) (fst file)) eqn:E; [exact H|].
  unfold files_data_or_empty at 1. cbn [state_files_data].
  unfold mem in *. rewrite get_set_other; [exact H|].
  intros ->. now apply Hk.
Qed.

Lemma upload_loop_other (l : list file_data) (s : session) (k : str) :
  (forall f, In f l -> fst f <> k) ->
  mem (files_data_or_empty s) k = false ->
  mem (files_data_or_empty (fold_left (upload_file uploaded) l s)) k = false.
Proof.
  revert s. induction l as [|f l IH]; intros s Hl H; cbn [fold_left];
    [exact H|].
  apply IH.
  - intros g Hg. apply Hl. now right.
  - apply upload_file_other; [|exact H]. apply Hl. now left.
Qed.

(** The first file of a new name is stored with its content. *)
Lemma upload_loop_first (before after : list file_data) (s : session)
    (name : str) (content : bytes) :
  mem (files_data_or_empty s) name = false ->
  (forall f, In f before -> fst f <> name) ->
  get (files_data_or_empty
         (fold_left (upload_file uploaded)
            (before ++ (name, content) :: after) s)) name
  = Some content.
Proof.
  intros Hm Hb. rewrite fold_left_app. cbn [fold_left].
  apply upload_loop_keeps.
  pose proof (upload_loop_other before s name Hb Hm) as Hm'.
  destruct (upload_file_adds
              (fold_left (upload_file uploaded) before s) (name, content))
    as (c & Hc & Hn).
  cbn [fst snd] in *. now rewrite Hc, (Hn Hm').
Qed.

Lemma upload_loop_unchanged (l : list file_data) (s : session) :
  forallb (fun f => mem (files_data_or_empty s) (fst f)) l = true ->
  fold_left (upload_file uploaded) l s = s.
Proof.
  revert s. induction l as [|f l IH]; intros s H; cbn [fold_left];
    [reflexivity|].
  cbn [forallb] in H. apply Bool.andb_true_iff in H. destruct H as [Hf Hl].
  unfold upload_file at 2. rewrite Hf. now apply IH.
Qed.

Lemma upload_loop_resets (l : list file_data) (s : session) :
  forallb (fun f => mem (files_data_or_empty s) (fst f)) l = false ->
  state_apply_reduction (fold_left (upload_file uploaded) l s)
  = Some (all_false uploaded).
Proof.
  assert (G : forall l s,
             state_apply_reduction s = Some (all_false uploaded) ->
             state_apply_reduction (fold_left (upload_file uploaded) l s)
             = Some (all_false uploaded)).
  { clear. induction l as [|f l IH]; intros s H; cbn [fold_left];
      [exact H|].
    apply IH. unfold upload_file.
    destruct (mem (files_data_or_empty s) (fst f)); [exact H|reflexivity]. }
  revert s. induction l as [|f l IH]; intros s H; cbn [fold_left];
    [discriminate H|].
  cbn [forallb] in H.
  destruct (mem (files_data_or_empty s) (fst f)) eqn:E.
  - cbn [andb] in H. unfold upload_file at 2. rewrite E. now apply IH.
  - apply G. unfold upload_file. now rewrite E.
Qed.

End UploadFacts.

(** X12. The upload block (lines 120-126): a file already in the session
    keeps its content (an upload of the same name does not replace it);
    every uploaded name is in the session afterwards, a new one with the
    content of the first uploaded file of that name, wherever it stands in
    the upload; when no uploaded name is new the session is left as it is,
    and as soon as one is new every flag is reset: the flags become [False]
    for the uploaded names and nothing else, so the flag of a file that is
    not in the upload (a mean created before, say) is dropped. *)
Theorem upload_block :
  forall (uploaded_files : list file_data) (s : session),
    let s' := upload uploaded_files s in
    (forall name content,
        get (files_data_or_empty s) name = Some content ->
        get (files_data_or_empty s') name = Some content)
    /\ (forall file, In file uploaded_files ->
          mem (files_data_or_empty s') (fst file) = true)
    /\ (forall before name content after,
          mem (files_data_or_empty s) name = false ->
          uploaded_files = before ++ (name, content) :: after ->
          (forall file, In file before -> fst file <> name) ->
          get (files_data_or_empty s') name = Some content)
    /\ (forallb (fun f => mem (files_data_or_empty s) (fst f)) uploaded_files
        = true -> s' = s)
    /\ (forallb (fun f => mem (files_data_or_empty s) (fst f)) uploaded_files
        = false ->
        state_apply_reduction s' = Some (all_false uploaded_files)
        /\ forall name,
            get (all_false uploaded_files) name
            = if existsb (fun f => str_eqb name (fst f)) uploaded_files
              then Some false else None).
Proof.
  intros U s s'. unfold s', upload.
  split; [|split; [|split; [|split]]].
  - intros name content H. now apply upload_loop_keeps.
  - intros file Hin.
    assert (G : forall l s0, In file l ->
               mem (files_data_or_empty (fold_left (upload_file U) l s0))
                   (fst file) = true).
    { induction l as [|f l IH]; intros s0 Hl; [now elim Hl|].
      cbn [fold_left]. destruct Hl as [->|Hl]; [|now apply IH].
      destruct (upload_file_adds U s0 file) as (c & Hc & _).
      unfold mem. now rewrite (upload_loop_keeps U l _ _ _ Hc). }
    now apply G.
  - intros before name content after Hm E Hb.
    assert (G : forall l, l = before ++ (name, content) :: after ->
               get (files_data_or_empty (fold_left (upload_file U) l s)) name
               = Some content).
    { intros l ->. now apply upload_loop_first. }
    now apply G.
  - apply upload_loop_unchanged.
  - intros H. split; [now apply upload_loop_resets|].
    apply all_false_get.
Qed.

(* ================================================================= *)
(** ** The page: the list of files *)

Section ListFacts.

Variable checkbox : str -> bool -> bool.
Variable remover : str -> bool.

(** The flag read for a name: [flags.get(name, False)]. *)
Definition flag_or_false (flags : dict bool) (name : str) : bool :=
  match get flags name with
  | Some b => b
  | None => false
  end.

(** The flags after the boxes of [names] have been read. *)
Definition boxes (names : list str) (flags : dict bool) : dict bool :=
  fold_left
    (fun fl name => set fl name (checkbox name (flag_or_false fl name)))
    names flags.

Lemma list_files_spec (names : list str) (files : option (dict bytes))
    (flags : dict bool) (acc : list str) :
  list_files checkbox remover names (mkSession files (Some flags)) acc
  = Done (mkSession files (Some (boxes names flags)),
          acc ++ filter remover names).
Proof.
  revert flags acc. induction names as [|n names IH]; intros flags acc.
  - cbn. now rewrite app_nil_r.
  - cbn [list_files state_apply_reduction state_files_data state_item
         run_bind boxes fold_left filter].
    fold (flag_or_false flags n). rewrite IH. unfold boxes.
    destruct (remover n); [|reflexivity].
    now rewrite <- app_assoc.
Qed.

Lemma boxes_get_other (names : list str) (flags : dict bool) (k : str) :
  ~ In k names -> get (boxes names flags) k = get flags k.
Proof.
  revert flags. induction names as [|n names IH]; intros flags H;
    [reflexivity|].
  cbn [boxes fold_left]. fold (boxes names).
  rewrite IH by (intros X; apply H; now right).
  apply get_set_other. intros ->. apply H. now left.
Qed.

Lemma boxes_get (names : list str) (flags : dict bool) (k : str) :
  NoDup names -> In k names ->
  get (boxes names flags) k = Some (checkbox k (flag_or_false flags k)).
Proof.
  revert flags. induction names as [|n names IH]; intros flags Hnd Hin;
    [now elim Hin|].
  inversion Hnd as [|? ? Hnot Hnd']; subst.
  cbn [boxes fold_left]. fold (boxes names).
  destruct Hin as [->|Hin].
  - rewrite boxes_get_other by exact Hnot. apply get_set_same.
  - rewrite (IH _ Hnd' Hin). do 2 f_equal. unfold flag_or_false.
    rewrite get_set_other; [reflexivity|]. intros ->. contradiction.
Qed.

Lemma boxes_NoDup (names : list str) (flags : dict bool) :
  NoDup (keys flags) -> NoDup (keys (boxes names flags)).
Proof.
  revert flags. induction names as [|n names IH]; intros flags H;
    [exact H|].
  cbn [boxes fold_left]. apply IH. now apply NoDup_keys_set.
Qed.

(** The names [names] taken out of a dictionary. *)
Definition without {V} (names : list str) (d : dict V) : dict V :=
  filter (fun kv => negb (existsb (str_eqb (fst kv)) names)) d.

Lemma without_NoDup {V} (names : list str) (d : dict V) :
  NoDup (keys d) -> NoDup (keys (without names d)).
Proof.
  intros H. unfold without.
  rewrite (keys_filter (fun k => negb (existsb (str_eqb k) names))).
  now apply NoDup_filter.
Qed.

Lemma without_get {V} (names : list str) (d : dict V) (k : str) :
  get (without names d) k
  = if existsb (str_eqb k) names then None else get d k.
Proof.
  unfold without.
  rewrite (get_filter (fun k => negb (existsb (str_eqb k) names))).
  now destruct (existsb (str_eqb k) names).
Qed.

Lemma without_cons {V} (n : str) (names : list str) (d : dict V) :
  without names (without [n] d) = without (n :: names) d.
Proof.
  unfold without. induction d as [|[k v] d IH]; [reflexivity|].
  cbn [filter fst existsb] in *. rewrite Bool.orb_false_r.
  destruct (str_eqb k n); cbn [negb orb filter fst]; [exact IH|].
  destruct (existsb (str_eqb k) names); cbn [negb]; now rewrite IH.
Qed.

Lemma del_without {V} (d : dict V) (n : str) :
  NoDup (keys d) -> mem d n = true -> del d n = Some (without [n] d).
Proof.
  intros Hnd Hm. rewrite (del_spec d n Hnd Hm). f_equal.
  unfold without. apply filter_ext. intros [k v]. cbn [fst existsb].
  now rewrite Bool.orb_false_r.
Qed.

Lemma remove_files_spec (names : list str) (files_data : dict bytes)
    (flags : dict bool) :
  NoDup names -> NoDup (keys files_data) -> NoDup (keys flags) ->
  (forall n, In n names -> mem files_data n = true /\ mem flags n = true) ->
  remove_files names (mkSession (Some files_data) (Some flags))
  = Done (mkSession (Some (without names files_data))
            (Some (without names flags))).
Proof.
  revert files_data flags.
  induction names as [|n names IH]; intros fd fl Hn Hfd Hfl Hin.
  - cbn [remove_files]. unfold without. cbn [existsb negb].
    now rewrite !filter_true.
  - inversion Hn as [|? ? Hnot Hn']; subst.
    destruct (Hin n (or_introl eq_refl)) as [M1 M2].
    cbn [remove_files state_files_data state_apply_reduction state_item
         run_bind].
    rewrite (del_without fd n Hfd M1). cbn [state_item run_bind].
    rewrite (del_without fl n Hfl M2). cbn [state_item run_bind].
    rewrite IH; try assumption.
    + now rewrite !without_cons.
    + now apply without_NoDup.
    + now apply without_NoDup.
    + intros k Hk. destruct (Hin k (or_intror Hk)) as [K1 K2].
      assert (E : existsb (str_eqb k) [n] = false).
      { cbn [existsb]. rewrite Bool.orb_false_r. apply str_eqb_neq.
        intros ->. contradiction. }
      unfold mem in *. now rewrite !without_get, E.
Qed.

End ListFacts.

Lemma existsb_str_eqb_In (k : str) (names : list str) :
  existsb (str_eqb k) names = true <-> In k names.
Proof.
  rewrite existsb_exists. split.
  - intros (x & Hx & E). apply str_eqb_eq in E. now subst.
  - intros H. exists k. split; [exact H|apply str_eqb_refl].
Qed.

Lemma existsb_filter_remover (remover : str -> bool) (names : list str)
    (k : str) :
  In k names ->
  existsb (str_eqb k) (filter remover names) = remover k.
Proof.
  intros Hin. destruct (remover k) eqn:R.
  - apply existsb_str_eqb_In, filter_In. now split.
  - apply Bool.not_true_iff_false. intros H.
    apply existsb_str_eqb_In, filter_In in H. destruct H as [_ H]. congruence.
Qed.

Lemma list_block_cases :
  forall (checkbox : str -> bool -> bool) (remover : str -> bool)
         (s : session),
    session_ok s ->
    exists s',
      list_block checkbox remover s = Done s'
      /\ session_ok s'
      /\ match state_files_data s with
         | None => s' = s
         | Some files_data =>
             state_files_data s'
             = Some (filter (fun kv => negb (remover (fst kv))) files_data)
             /\ exists flags flags',
                 state_apply_reduction s = Some flags
                 /\ state_apply_reduction s' = Some flags'
                 /\ forall name,
                     get flags' name
                     = if mem files_data name
                       then if remover name then None
                            else Some (checkbox name
                                         (flag_or_false flags name))
                       else get flags name
         end.
Proof.
  intros checkbox remover [files fl] Hok.
  unfold session_ok, list_block in *.
  cbn [state_files_data state_apply_reduction] in *.
  destruct files as [fd|]; [|exists (mkSession None fl); auto].
  destruct Hok as (Hfd & flags & -> & Hfl).
  rewrite list_files_spec. cbn [run_bind fst snd app].
  set (names := filter remover (keys fd)).
  assert (Hb : NoDup (keys (boxes checkbox (keys fd) flags)))
    by now apply boxes_NoDup.
  rewrite remove_files_spec; try assumption.
  - eexists. split; [reflexivity|].
    cbn [state_files_data state_apply_reduction].
    split; [|split].
    + split; [now apply without_NoDup|].
      eexists. split; [reflexivity|now apply without_NoDup].
    + f_equal. unfold without. apply filter_ext_in.
      intros [k v] Hin. cbn [fst]. f_equal. unfold names.
      apply existsb_filter_remover. change k with (fst (k, v)).
      now apply in_map.
    + exists flags, (without names (boxes checkbox (keys fd) flags)).
      split; [reflexivity|]. split; [reflexivity|].
      intros name. rewrite without_get.
      destruct (mem fd name) eqn:M.
      * apply mem_keys in M. unfold names.
        rewrite (existsb_filter_remover remover _ _ M).
        destruct (remover name); [reflexivity|].
        now apply boxes_get.
      * assert (N : ~ In name (keys fd)).
        { intros X. apply mem_keys in X. congruence. }
        replace (existsb (str_eqb name) names) with false.
        -- now apply boxes_get_other.
        -- symmetry. apply Bool.not_true_iff_false. intros X.
           apply existsb_str_eqb_In in X. unfold names in X.
           apply filter_In in X. now destruct X.
  - unfold names. now apply NoDup_filter.
  - intros n Hn. unfold names in Hn. apply filter_In in Hn.
    destruct Hn as [Hn _]. split; [now apply mem_keys|].
    unfold mem. now rewrite (boxes_get checkbox _ flags n Hfd Hn).
Qed.

(** X13. The list block (lines 130-141) on a session whose dictionaries
    are in order: it raises no [KeyError]; the files whose "Remover" button
    is pressed leave the session, the others stay in their order with their
    contents; each file that stays gets the flag its box returns (the box
    being shown with the flag the file had, or [False] if it had none), a
    file removed loses its flag, and the flag of a name that is not a file
    is left as it was. *)
Theorem list_block_spec :
  forall (checkbox : str -> bool -> bool) (remover : str -> bool)
         (s : session),
    session_ok s ->
    exists s',
      list_block checkbox remover s = Done s'
      /\ session_ok s'
      /\ match state_files_data s with
         | None => s' = s
         | Some files_data =>
             state_files_data s'
             = Some (filter (fun kv => negb (remover (fst kv))) files_data)
             /\ exists flags flags',
                 state_apply_reduction s = Some flags
                 /\ state_apply_reduction s' = Some flags'
                 /\ forall name,
                     get flags' name
                     = if mem files_data name
                       then if remover name then None
                            else Some (checkbox name
                                         (flag_or_false flags name))
                       else get flags name
         end.
Proof.
  intros checkbox remover s Hok.
  destruct (list_block_cases checkbox remover s Hok) as (s' & E & Hok' & H).
  exists s'. split; [exact E|]. split; [exact Hok'|exact H].
Qed.

Lemma list_block_spec_witness :
  exists s',
    list_block (fun _ b => negb b) (fun name => str_eqb name (lit "b.s1p"))
      (mkSession (Some [(lit "a.s1p", []); (lit "b.s1p", [])])
                 (Some [(lit "a.s1p", false); (lit "b.s1p", false)]))
    = Done s'
    /\ state_files_data s' = Some [(lit "a.s1p", [])].
Proof.
  destruct (list_block_spec (fun _ b => negb b)
              (fun name => str_eqb name (lit "b.s1p"))
              (mkSession (Some [(lit "a.s1p", []); (lit "b.s1p", [])])
                         (Some [(lit "a.s1p", false); (lit "b.s1p", false)])))
    as (s' & E & _ & F & _).
  - cbn. split.
    + repeat constructor; cbn; intuition discriminate.
    + eexists. split; [reflexivity|].
      repeat constructor; cbn; intuition discriminate.
  - exists s'. split; [exact E|exact F].
Defined.

(* ================================================================= *)
(** ** The page: the mean of the last two files *)

Lemma get_app_other {V} (front d : dict V) (k : str) :
  ~ In k (keys front) -> get (front ++ d) k = get d k.
Proof.
  induction front as [|[k' v'] front IH]; intros H; [reflexivity|].
  cbn [app get]. cbn [keys List.map fst In] in H.
  replace (str_eqb k k') with false
    by (symmetry; apply str_eqb_neq; intros ->; apply H; now left).
  apply IH. intros X. apply H. now right.
Qed.

Lemma criar_media_content (to_float : str -> option float)
    (c1 : bytes) (n1 : str) (c2 : bytes) (n2 : str) :
  match criar_media to_float c1 n1 c2 n2 with
  | Ok (MediaNone msg) => msg = msg_vazio
  | Ok (MediaFile nome content) =>
      nome = nome_media n1 n2 /\ content <> []
  | Raise _ => False
  end.
Proof.
  destruct (criar_media_cases to_float c1 n1 c2 n2)
    as (t1 & t2 & _ & _ & _ & _ & Hnone & Hfile).
  destruct (trace_freq t1) as [|x1 l1] eqn:F1.
  { rewrite Hnone by now left. reflexivity. }
  destruct (trace_freq t2) as [|x2 l2] eqn:F2.
  { rewrite Hnone by now right. reflexivity. }
  destruct Hfile as (re & im & _ & _ & ->); try discriminate.
  split; [reflexivity|]. unfold file_text, lines_text. discriminate.
Qed.

Lemma media_block_cases :
  forall (to_float : str -> option float) (s : session),
    session_ok s ->
    media_block to_float false s = Done (s, Nothing)
    /\ ((List.length (files_data_or_empty s) < 2)%nat ->
        media_block to_float true s = Done (s, Warning))
    /\ forall files_data front file1_name file1_content
              file2_name file2_content,
        state_files_data s = Some files_data ->
        files_data = front ++ [(file1_name, file1_content);
                               (file2_name, file2_content)] ->
        match criar_media to_float file1_content file1_name
                file2_content file2_name with
        | Ok (MediaNone msg) =>
            media_block to_float true s = Done (s, Error msg)
        | Ok (MediaFile nome content) =>
            exists flags,
              state_apply_reduction s = Some flags
              /\ media_block to_float true s
                 = Done (mkSession (Some (set files_data nome content))
                           (Some (set flags nome false)),
                         Success nome content)
              /\ session_ok
                   (mkSession (Some (set files_data nome content))
                      (Some (set flags nome false)))
        | Raise _ => False
        end.
Proof.
  intros to_float s Hok. split; [reflexivity|]. split.
  - intros Hl. unfold media_block.
    now replace (2 <=? List.length (files_data_or_empty s))%nat with false
      by (symmetry; apply Nat.leb_gt; exact Hl).
  - intros fd front n1 c1 n2 c2 Hfd ->.
    unfold session_ok in Hok. rewrite Hfd in Hok.
    destruct Hok as (Hnd & flags & Hfl & Hndf).
    pose proof (criar_media_content to_float c1 n1 c2 n2) as Hc.
    unfold media_block, files_data_or_empty. rewrite Hfd.
    replace (2 <=? List.length (front ++ [(n1, c1); (n2, c2)]))%nat with true
      by (symmetry; apply Nat.leb_le; rewrite length_app; cbn; lia).
    cbn [state_item run_bind].
    assert (K : keys (front ++ [(n1, c1); (n2, c2)])
                = keys front ++ [n1; n2])
      by (unfold keys; now rewrite map_app).
    rewrite K in *. rewrite length_app. cbn [List.length].
    replace (List.length (keys front) + 2 - 2)%nat
      with (List.length (keys front)) by lia.
    replace (List.length (keys front) + 2 - 1)%nat
      with (S (List.length (keys front))) by lia.
    rewrite !app_nth2 by lia.
    replace (List.length (keys front) - List.length (keys front))%nat
      with 0%nat by lia.
    replace (S (List.length (keys front)) - List.length (keys front))%nat
      with 1%nat by lia.
    cbn [nth].
    apply NoDup_app_remove_l in Hnd as Hlast.
    assert (N1 : ~ In n1 (keys front)).
    { intros X. apply NoDup_remove_2 in Hnd. apply Hnd.
      apply in_or_app. now left. }
    assert (N2 : ~ In n2 (keys front)).
    { intros X.
      replace (keys front ++ [n1; n2]) with ((keys front ++ [n1]) ++ [n2])
        in Hnd by (now rewrite <- app_assoc).
      apply NoDup_remove_2 in Hnd. apply Hnd. rewrite app_nil_r.
      apply in_or_app. now left. }
    assert (N12 : n2 <> n1).
    { intros ->. inversion Hlast as [|? ? Hx _]; subst. apply Hx. now left. }
    rewrite !get_app_other by assumption.
    cbn [get]. rewrite str_eqb_refl.
    replace (str_eqb n2 n1) with false
      by (symmetry; now apply str_eqb_neq).
    rewrite str_eqb_refl. cbn [state_item run_bind].
    destruct (criar_media to_float c1 n1 c2 n2) as [[msg|nome content]|e];
      [reflexivity| |exact Hc].
    destruct Hc as [_ Hne].
    destruct content as [|b content]; [now elim Hne|].
    exists flags. split; [exact Hfl|].
    cbn [state_apply_reduction state_files_data]. rewrite Hfl.
    cbn [state_item run_bind]. split; [reflexivity|].
    unfold session_ok. cbn [state_files_data state_apply_reduction].
    split.
    + apply NoDup_keys_set. now rewrite K.
    + eexists. split; [reflexivity|now apply NoDup_keys_set].
Qed.

(** X14. The "Criar Média" block (lines 156-178) on a session whose
    dictionaries are in order: it raises nothing; without the button it
    does nothing; with fewer than two files it warns and changes nothing;
    otherwise it averages the last two files in the order they entered the
    session, and either shows the error of [criar_media], the session
    unchanged, or stores the new file under its name (in place if the name
    is there already, at the end if not) with its flag [False]. *)
Theorem media_block_spec :
  forall (to_float : str -> option float) (s : session),
    session_ok s ->
    media_block to_float false s = Done (s, Nothing)
    /\ ((List.length (files_data_or_empty s) < 2)%nat ->
        media_block to_float true s = Done (s, Warning))
    /\ forall files_data front file1_name file1_content
              file2_name file2_content,
        state_files_data s = Some files_data ->
        files_data = front ++ [(file1_name, file1_content);
                               (file2_name, file2_content)] ->
        match criar_media to_float file1_content file1_name
                file2_content file2_name with
        | Ok (MediaNone msg) =>
            media_block to_float true s = Done (s, Error msg)
        | Ok (MediaFile nome content) =>
            exists flags,
              state_apply_reduction s = Some flags
              /\ media_block to_float true s
                 = Done (mkSession (Some (set files_data nome content))
                           (Some (set flags nome false)),
                         Success nome content)
              /\ session_ok
                   (mkSession (Some (set files_data nome content))
                      (Some (set flags nome false)))
        | Raise _ => False
        end.
Proof.
  intros to_float s Hok.
  destruct (media_block_cases to_float s Hok) as (A & B & C).
  split; [exact A|]. split; [exact B|exact C].
Qed.

Lemma media_block_spec_witness :
  media_block float_of_str true
    (mkSession (Some [(lit "a.s1p", bytes_of_string "1e9 1 2")])
               (Some [(lit "a.s1p", false)]))
  = Done (mkSession (Some [(lit "a.s1p", bytes_of_string "1e9 1 2")])
                    (Some [(lit "a.s1p", false)]),
          Warning).
Proof.
  refine (proj1 (proj2 (media_block_spec float_of_str
                          (mkSession
                             (Some [(lit "a.s1p", bytes_of_string "1e9 1 2")])
                             (Some [(lit "a.s1p", false)])) _)) _).
  - cbn. split.
    + repeat constructor. intros [].
    + eexists. split; [reflexivity|]. repeat constructor. intros [].
  - cbn. lia.
Defined.

(* ================================================================= *)
(** ** The page: the chart, and a whole run *)

(** Every file of the session has a flag. *)
Definition covered (s : session) : Prop :=
  forall files_data,
    state_files_data s = Some files_data ->
    exists flags,
      state_apply_reduction s = Some flags
      /\ forall name, mem files_data name = true -> mem flags name = true.

Lemma apply_flags_of_covered (flags : dict bool)
    (files_data_list : list file_data) :
  (forall name, In name (keys files_data_list) -> mem flags name = true) ->
  apply_flags_of flags files_data_list
  = Done (List.map (fun f => flag_or_false flags (fst f)) files_data_list).
Proof.
  induction files_data_list as [|[name content] rest IH]; intros H;
    [reflexivity|].
  cbn [apply_flags_of List.map fst].
  pose proof (H name (or_introl eq_refl)) as M. unfold mem in M.
  unfold flag_or_false at 1.
  destruct (get flags name) as [b|]; [|discriminate].
  cbn [state_item run_bind].
  rewrite IH by (intros n Hn; apply H; now right).
  reflexivity.
Qed.

Section ChartFacts.

Variable to_float : str -> option float.
Variable log10 : float -> float.

Lemma chart_block_cases (titulo agrupar : str) (red : reduction)
    (s : session) :
  covered s -> reduction_ok red ->
  chart_block to_float log10 false titulo agrupar red s = Done NoChart
  /\ (files_data_or_empty s = [] ->
      chart_block to_float log10 true titulo agrupar red s = Done NoFiles)
  /\ forall files_data flags,
      state_files_data s = Some files_data -> files_data <> [] ->
      state_apply_reduction s = Some flags ->
      let apply_flags :=
        List.map (fun f => flag_or_false flags (fst f)) files_data in
      if (LIMITE <? List.length files_data)%nat
         && str_eqb agrupar (lit "Sim")
      then chart_block to_float log10 true titulo agrupar red s
           = Failed NameError
      else exists curves,
          plot_files to_float log10 files_data titulo red apply_flags
          = Ok (titulo, curves)
          /\ chart_block to_float log10 true titulo agrupar red s
             = Done (Figures [(titulo, curves)]).
Proof.
  intros Hc Hr. split; [reflexivity|]. split.
  - unfold files_data_or_empty, chart_block.
    destruct (state_files_data s) as [fd|]; [|reflexivity].
    now intros ->.
  - intros fd flags Hfd Hne Hfl apply_flags.
    destruct (Hc fd Hfd) as (flags' & Hfl' & Hcov).
    assert (flags' = flags) by congruence. subst flags'.
    unfold chart_block. rewrite Hfd, Hfl.
    destruct fd as [|f0 fd0]; [now elim Hne|].
    cbv beta iota. cbn [state_item run_bind].
    set (fd := f0 :: fd0) in *.
    rewrite apply_flags_of_covered
      by (intros n Hn; apply Hcov; now apply mem_keys).
    cbn [run_bind]. fold apply_flags. unfold gerar_grafico.
    match goal with
    | |- if ?c' then _ else _ =>
        match goal with
        | |- context [if ?c then _ else Ok [PlotFiles _ _ _]] =>
            change c with c'
        end;
        destruct c'
    end; [reflexivity|].
    destruct (plot_loop_curves to_float log10 fd 0 red apply_flags Hr)
      as (curves & E & _).
    { unfold apply_flags. rewrite length_map. apply le_n. }
    exists curves. unfold plot_files at 1. rewrite E. cbn [rbind].
    split; [reflexivity|].
    cbn [plot_calls]. unfold plot_files. rewrite E. reflexivity.
Qed.

End ChartFacts.

(** X15. The "Gerar Gráfico" block (lines 184-204) on a session where
    every file has a flag, with a reduction curve of one length: without
    the button it does nothing; with no file it warns; with files it reads
    the flag of each file, in the order of the files, and shows one figure
    of all the files under the title given, except when more than ten files
    are to be grouped (answer "Sim"), where the run ends with [NameError].
    It raises no [KeyError] and no other exception. *)
Theorem chart_block_spec :
  forall (to_float : str -> option float) (log10 : float -> float)
         (titulo agrupar : str) (red : reduction) (s : session),
    covered s -> reduction_ok red ->
    chart_block to_float log10 false titulo agrupar red s = Done NoChart
    /\ (files_data_or_empty s = [] ->
        chart_block to_float log10 true titulo agrupar red s = Done NoFiles)
    /\ forall files_data flags,
        state_files_data s = Some files_data -> files_data <> [] ->
        state_apply_reduction s = Some flags ->
        let apply_flags :=
          List.map (fun f => flag_or_false flags (fst f)) files_data in
        if (LIMITE <? List.length files_data)%nat
           && str_eqb agrupar (lit "Sim")
        then chart_block to_float log10 true titulo agrupar red s
             = Failed NameError
        else exists curves,
            plot_files to_float log10 files_data titulo red apply_flags
            = Ok (titulo, curves)
            /\ chart_block to_float log10 true titulo agrupar red s
               = Done (Figures [(titulo, curves)]).
Proof.
  intros to_float log10 titulo agrupar red s Hc Hr.
  destruct (chart_block_cases to_float log10 titulo agrupar red s Hc Hr)
    as (A & B & C).
  split; [exact A|]. split; [exact B|exact C].
Qed.

Lemma chart_block_spec_witness :
  chart_block float_of_str (fun x => x) true (lit "T") (lit "Sim")
    NoReduction (mkSession None None)
  = Done NoFiles.
Proof.
  refine (proj1 (proj2 (chart_block_spec float_of_str (fun x => x)
                          (lit "T") (lit "Sim") NoReduction
                          (mkSession None None) _ I)) eq_refl).
  intros fd H. discriminate H.
Defined.

Lemma upload_ok (uploaded : list file_data) (s : session) :
  session_ok s -> session_ok (upload uploaded s).
Proof.
  unfold upload.
  assert (G : forall l s0, session_ok s0 ->
             session_ok (fold_left (upload_file uploaded) l s0)).
  { induction l as [|f l IH]; intros s0 H; cbn [fold_left]; [exact H|].
    apply IH. now apply upload_file_ok. }
  apply G.
Qed.

Lemma last_two {A} (l : list A) :
  (2 <= List.length l)%nat -> exists front a b, l = front ++ [a; b].
Proof.
  intros H. destruct (rev l) as [|b [|a r]] eqn:E.
  - apply (f_equal (@List.length _)) in E. rewrite length_rev in E.
    cbn in E. lia.
  - apply (f_equal (@List.length _)) in E. rewrite length_rev in E.
    cbn in E. lia.
  - exists (rev r), a, b. rewrite <- (rev_involutive l), E.
    cbn [rev]. now rewrite <- app_assoc.
Qed.

Lemma load_reduction_ok (to_float : str -> option float)
    (log10 : float -> float) (red_upload : option file_data) :
  exists red, load_reduction to_float log10 red_upload = Ok red
              /\ reduction_ok red.
Proof.
  destruct red_upload as [[name content]|]; [|now exists NoReduction].
  cbn [load_reduction].
  destruct (parse_s_param_well_formed to_float content name)
    as ([[fr re] im] & E & [Wr Wi]).
  rewrite E. cbn [rbind].
  destruct (magnitude_db_ok log10 re im ltac:(congruence)) as (m & Em & Lm).
  destruct (0 <? List.length fr)%nat; [|now exists EmptyReduction].
  rewrite Em. cbn [rbind]. exists (Reduction fr m).
  split; [reflexivity|]. cbn [reduction_ok]. congruence.
Qed.

Lemma covered_set (files_data : dict bytes) (flags : dict bool)
    (nome : str) (content : bytes) :
  covered (mkSession (Some files_data) (Some flags)) ->
  covered (mkSession (Some (set files_data nome content))
             (Some (set flags nome false))).
Proof.
  intros H fd Hfd. cbn [state_files_data state_apply_reduction] in *.
  injection Hfd as <-.
  destruct (H files_data eq_refl) as (fl & Hfl & Hcov).
  injection Hfl as <-.
  eexists. split; [reflexivity|]. intros name.
  rewrite !mem_set. destruct (str_eqb name nome); [reflexivity|].
  apply Hcov.
Qed.

(** X16. A run of the page keeps the session in order and never raises
    [KeyError]: from a session whose dictionaries hold each key once and
    whose flags are there whenever its files are (the empty session of a
    first visit is one), the upload, list and mean blocks end normally, in
    a session that is in order again and in which every file has a flag;
    on that session the chart block ends normally, or with the [NameError]
    of the grouping dialog, and with nothing else. *)
Theorem page_run_in_order :
  forall (to_float : str -> option float) (log10 : float -> float)
         (i : inputs) (s : session),
    session_ok s ->
    session_ok (mkSession None None)
    /\ exists s' shown,
        page_state to_float i s = Done (s', shown)
        /\ session_ok s' /\ covered s'
        /\ ((exists c, page_chart to_float log10 i s' = Done c)
            \/ page_chart to_float log10 i s' = Failed NameError).
Proof.
  intros to_float log10 i s Hok. split; [exact I|].
  unfold page_state.
  pose proof (upload_ok (uploaded_files i) s Hok) as H1.
  set (s1 := upload (uploaded_files i) s) in *.
  destruct (list_block_cases (checkbox i) (remover i) s1 H1)
    as (s2 & E2 & H2 & F2).
  rewrite E2. cbn [run_bind].
  assert (C2 : covered s2).
  { intros fd Hfd. destruct (state_files_data s1) as [fd1|] eqn:E1.
    - destruct F2 as (Ffd & flags & flags' & _ & Hfl' & Hget).
      exists flags'. split; [exact Hfl'|]. intros name Hm.
      rewrite Ffd in Hfd. injection Hfd as <-.
      unfold mem in *. rewrite Hget.
      rewrite (get_filter (fun k => negb (remover i k))) in Hm.
      destruct (remover i name); cbn [negb] in Hm; [discriminate|].
      unfold mem. now destruct (get fd1 name).
    - subst s2. congruence. }
  assert (M : exists s3 shown,
             media_block to_float (media_button i) s2 = Done (s3, shown)
             /\ session_ok s3 /\ covered s3).
  { destruct (media_block_cases to_float s2 H2) as (A & B & C).
    destruct (media_button i); [|now exists s2, Nothing].
    destruct (Nat.lt_ge_cases (List.length (files_data_or_empty s2)) 2)
      as [L|G]; [now exists s2, Warning; rewrite (B L)|].
    unfold files_data_or_empty in G.
    destruct (state_files_data s2) as [fd|] eqn:Efd; [|cbn in G; lia].
    destruct (last_two fd G) as (front & [n1 c1] & [n2 c2] & Efront).
    specialize (C fd front n1 c1 n2 c2 eq_refl Efront).
    destruct (criar_media to_float c1 n1 c2 n2) as [[msg|nome content]|e];
      [now exists s2, (Error msg)| |now elim C].
    destruct C as (flags & Hfl & Em & Hok3).
    eexists _, _. split; [exact Em|]. split; [exact Hok3|].
    apply covered_set. intros fd' Hfd'.
    cbn [state_files_data state_apply_reduction] in *.
    injection Hfd' as <-.
    destruct (C2 fd Efd) as (fl & Hfl2 & Hcov).
    exists fl. split; [congruence|exact Hcov]. }
  destruct M as (s3 & shown & E3 & H3 & C3).
  exists s3, shown. split; [exact E3|]. split; [exact H3|].
  split; [exact C3|].
  unfold page_chart.
  destruct (load_reduction_ok to_float log10 (red_upload i))
    as (red & Er & Hr).
  rewrite Er.
  destruct (chart_block_cases to_float log10 (titulo i) (agrupar i) red s3
              C3 Hr) as (A & B & C).
  destruct (chart_button i); [|left; now exists NoChart].
  destruct (state_files_data s3) as [fd|] eqn:Efd.
  - destruct fd as [|f0 fd0].
    + left. exists NoFiles. apply B. unfold files_data_or_empty.
      now rewrite Efd.
    + destruct (C3 _ Efd) as (flags & Hfl & _).
      specialize (C (f0 :: fd0) flags eq_refl ltac:(discriminate) Hfl).
      cbv zeta in C.
      destruct ((LIMITE <? List.length (f0 :: fd0))%nat
                && str_eqb (agrupar i) (lit "Sim")).
      * now right.
      * destruct C as (curves & _ & ->). left. now eexists.
  - left. exists NoFiles. apply B. unfold files_data_or_empty.
    now rewrite Efd.
Qed.

Lemma page_run_in_order_witness :
  exists s' shown,
    page_state float_of_str
      (mkInputs [(lit "a.s1p", bytes_of_string "1e9 1 2")]
         (fun _ b => b) (fun _ => false) None true (lit "T") true (lit "Sim"))
      (mkSession None None)
    = Done (s', shown)
    /\ session_ok s' /\ covered s'.
Proof.
  destruct (page_run_in_order float_of_str (fun x => x)
              (mkInputs [(lit "a.s1p", bytes_of_string "1e9 1 2")]
                 (fun _ b => b) (fun _ => false) None true (lit "T") true
                 (lit "Sim"))
              (mkSession None None) I)
    as (_ & s' & shown & E & H & C & _).
  exists s', shown. repeat split; assumption.
Defined.

(* ================================================================= *)
(** ** The mean of two traces of different lengths *)

Lemma interp_values_nth (x xp fp : array) (k : nat) :
  (k < List.length x)%nat ->
  nth k (interp_values x xp fp) nan
  = interp_point xp fp (nth 0 fp nan) (nth (List.length fp - 1) fp nan)
      (nth k x nan).
Proof.
  intros Hk. unfold interp_values.
  rewrite (nth_indep _ nan
             (interp_point xp fp (nth 0 fp nan)
                (nth (List.length fp - 1) fp nan) nan))
    by (now rewrite length_map).
  apply map_nth.
Qed.

(** X17. The mean of two traces with different numbers of points (lines
    91-96): the result is on the first trace's frequencies, and the second
    trace is not extrapolated.  At a frequency of the first trace above
    every frequency of the second, the value averaged in is the second
    trace's last value; below every frequency of the second, its first
    value; whatever the order of the second trace's points. *)
Theorem media_outside_range :
  forall (f1 r1 i1 f2 r2 i2 : array) (k : nat),
    List.length r1 = List.length f1 ->
    List.length i1 = List.length f1 ->
    List.length r2 = List.length f2 ->
    List.length i2 = List.length f2 ->
    List.length f1 <> List.length f2 ->
    f2 <> [] ->
    (k < List.length f1)%nat ->
    exists re im,
      media_trace (f1, r1, i1) (f2, r2, i2) = Ok (f1, re, im)
      /\ List.length re = List.length f1
      /\ List.length im = List.length f1
      /\ ((forall y, In y f2 -> (y <? nth k f1 nan)%float = true) ->
          nth k re nan
          = ((nth k r1 nan + nth (List.length r2 - 1) r2 nan) / 2)%float
          /\ nth k im nan
             = ((nth k i1 nan + nth (List.length i2 - 1) i2 nan) / 2)%float)
      /\ ((forall y, In y f2 -> (nth k f1 nan <? y)%float = true) ->
          nth k re nan = ((nth k r1 nan + nth 0 r2 nan) / 2)%float
          /\ nth k im nan = ((nth k i1 nan + nth 0 i2 nan) / 2)%float).
Proof.
  intros f1 r1 i1 f2 r2 i2 k Hr1 Hi1 Hr2 Hi2 Hne Hf2 Hk.
  rewrite media_trace_other_length by assumption.
  eexists _, _. split; [reflexivity|].
  assert (Lr : List.length r1 = List.length (interp_values f1 f2 r2))
    by (now rewrite interp_values_length).
  assert (Li : List.length i1 = List.length (interp_values f1 f2 i2))
    by (now rewrite interp_values_length).
  split; [rewrite map2_length; congruence|].
  split; [rewrite map2_length; congruence|].
  rewrite !map2_nth by (assumption || lia).
  rewrite !interp_values_nth by exact Hk.
  unfold mean. split; intros H.
  - now rewrite !interp_point_above by assumption.
  - now rewrite !interp_point_below by assumption.
Qed.

(** A trace of three points and one of a single point at 2 GHz: at 1 GHz
    and at 3 GHz, and at 2 GHz, the single value is averaged in. *)
Lemma media_outside_range_witness :
  exists re im,
    media_trace ([1; 2; 3], [10; 20; 30], [0; 0; 0])%float
      ([2], [4], [8])%float
    = Ok ([1; 2; 3]%float, re, im)
    /\ nth 2 re nan = ((30 + 4) / 2)%float
    /\ nth 0 re nan = ((10 + 4) / 2)%float.
Proof.
  destruct (media_outside_range
              [1; 2; 3]%float [10; 20; 30]%float [0; 0; 0]%float
              [2]%float [4]%float [8]%float 2
              eq_refl eq_refl eq_refl eq_refl ltac:(discriminate)
              ltac:(discriminate) ltac:(cbn; lia))
    as (re & im & E & _ & _ & A & _).
  destruct (media_outside_range
              [1; 2; 3]%float [10; 20; 30]%float [0; 0; 0]%float
              [2]%float [4]%float [8]%float 0
              eq_refl eq_refl eq_refl eq_refl ltac:(discriminate)
              ltac:(discriminate) ltac:(cbn; lia))
    as (re' & im' & E' & _ & _ & _ & B).
  rewrite E in E'. injection E' as <- <-.
  exists re, im. split; [exact E|]. split.
  - apply A. intros y [<-|[]]. reflexivity.
  - apply B. intros y [<-|[]]. reflexivity.
Defined.

(* ================================================================= *)
(** ** Binary64 multiplication and division: the rounding *)

(** Where [rest / den] lies in the unit interval: at its start, in its
    lower half, in the middle or in its upper half. *)
Definition loc_of (rest den : Z) : location :=
  if (rest =? 0)%Z then loc_Exact else loc_Inexact (2 * rest ?= den)%Z.

(** The record [mrs] places [num / den]: its integer part, the bit that
    tells whether the fraction is a half or more, and the bit that tells
    whether it is neither nothing nor a half. *)
Definition placed (mrs : shr_record) (num den : Z) : Prop :=
  (0 <= shr_m mrs)%Z
  /\ (0 <= num - shr_m mrs * den < den)%Z
  /\ shr_r mrs = (den <=? 2 * (num - shr_m mrs * den))%Z
  /\ shr_s mrs = negb ((num - shr_m mrs * den =? 0)%Z
                       || (2 * (num - shr_m mrs * den) =? den)%Z).

Lemma placed_of_loc (m num den : Z) :
  (0 <= m)%Z -> (0 <= num - m * den < den)%Z ->
  placed (shr_record_of_loc m (loc_of (num - m * den) den)) num den.
Proof.
  intros Hm Hr. unfold placed, loc_of.
  set (rest := (num - m * den)%Z) in *.
  destruct (Z.eqb_spec rest 0) as [E|E].
  - cbn [shr_record_of_loc shr_m shr_r shr_s]. fold rest.
    split; [exact Hm|]. split; [exact Hr|]. split; lia.
  - destruct (Z.compare_spec (2 * rest) den) as [C|C|C];
      cbn [shr_record_of_loc shr_m shr_r shr_s]; fold rest;
      (split; [exact Hm|]); (split; [exact Hr|]); split; lia.
Qed.

(** One shift to the right halves the scale. *)
Lemma shr_1_placed (mrs : shr_record) (num den : Z) :
  (0 < den)%Z -> placed mrs num den -> placed (shr_1 mrs) num (2 * den).
Proof.
  intros Hden. destruct mrs as [m r s]. unfold placed.
  cbn [shr_m shr_r shr_s]. intros (Hm & Hr & Er & Es).
  assert (Hors : orb r s = negb (num - m * den =? 0)%Z).
  { subst r s.
    destruct (Z.leb_spec den (2 * (num - m * den)));
      destruct (Z.eqb_spec (num - m * den) 0);
      destruct (Z.eqb_spec (2 * (num - m * den)) den);
      try reflexivity; lia. }
  clear Er Es.
  destruct m as [|p|p]; [| |lia].
  - cbn [shr_1 shr_m shr_r shr_s]. rewrite Hors.
    repeat split; lia.
  - destruct p as [p|p|]; cbn [shr_1 shr_m shr_r shr_s]; rewrite Hors;
      repeat split; try lia.
    + f_equal.
      destruct (Z.eqb_spec (num - Z.pos p~1 * den) 0);
        destruct (Z.eqb_spec (num - Z.pos p * (2 * den)) 0);
        destruct (Z.eqb_spec (2 * (num - Z.pos p * (2 * den))) (2 * den));
        try reflexivity; lia.
    + f_equal.
      destruct (Z.eqb_spec (num - Z.pos p~0 * den) 0);
        destruct (Z.eqb_spec (num - Z.pos p * (2 * den)) 0);
        destruct (Z.eqb_spec (2 * (num - Z.pos p * (2 * den))) (2 * den));
        try reflexivity; lia.
Qed.

Lemma iter_pos_shr_placed (p : positive) (mrs : shr_record) (num den : Z) :
  (0 < den)%Z -> placed mrs num den ->
  placed (SpecFloat.iter_pos shr_1 p mrs) num (den * 2 ^ Zpos p).
Proof.
  revert mrs den. induction p as [p IH|p IH|]; intros mrs den Hden H;
    cbn [SpecFloat.iter_pos].
  - assert (P : (0 < 2 ^ Zpos p)%Z) by (apply Z.pow_pos_nonneg; lia).
    replace (den * 2 ^ Zpos p~1)%Z
      with (2 * den * 2 ^ Zpos p * 2 ^ Zpos p)%Z.
    + apply IH; [nia|]. apply IH; [lia|]. now apply shr_1_placed.
    + rewrite (Pos2Z.inj_xI p), Z.pow_add_r, Z.pow_mul_r by lia.
      rewrite Z.pow_2_r. change (2 ^ 1)%Z with 2%Z.
      rewrite Z.pow_mul_l. ring.
  - assert (P : (0 < 2 ^ Zpos p)%Z) by (apply Z.pow_pos_nonneg; lia).
    replace (den * 2 ^ Zpos p~0)%Z with (den * 2 ^ Zpos p * 2 ^ Zpos p)%Z.
    + apply IH; [nia|]. now apply IH.
    + rewrite (Pos2Z.inj_xO p), Z.pow_mul_r by lia.
      rewrite Z.pow_2_r, Z.pow_mul_l. ring.
  - replace (den * 2 ^ 1)%Z with (2 * den)%Z
      by (change (2 ^ 1)%Z with 2%Z; ring).
    now apply shr_1_placed.
Qed.

(** Rounding a placed quotient to nearest, ties to even, is [rne_div]. *)
Lemma round_nearest_even_placed (mrs : shr_record) (num den : Z) :
  (0 < den)%Z -> placed mrs num den ->
  round_nearest_even (shr_m mrs) (loc_of_shr_record mrs) = rne_div num den.
Proof.
  intros Hden. destruct mrs as [m r s]. unfold placed.
  cbn [shr_m shr_r shr_s]. intros (Hm & Hr & Er & Es).
  assert (Q : (num / den = m)%Z)
    by (symmetry; apply (Z.div_unique num den m (num - m * den)); lia).
  assert (R : (num mod den = num - m * den)%Z)
    by (symmetry; apply (Z.mod_unique num den m (num - m * den)); lia).
  unfold rne_div. rewrite Q, R.
  subst r s.
  destruct (Z.compare_spec (2 * (num - m * den)) den) as [C|C|C];
    destruct (Z.leb_spec den (2 * (num - m * den)));
    destruct (Z.eqb_spec (num - m * den) 0);
    destruct (Z.eqb_spec (2 * (num - m * den)) den);
    try lia; reflexivity.
Qed.

(** The place of a remainder, as division computes it. *)
Lemma new_location_loc_of (den rest : Z) :
  new_location den rest = loc_of rest den.
Proof.
  unfold new_location. change IntDef.Z.even with Z.even.
  destruct (Z.even den) eqn:Ev;
    unfold new_location_even, new_location_odd, loc_of;
    destruct (Z.eqb_spec rest 0) as [E|E]; try reflexivity.
  f_equal.
  assert (O : Z.odd den = true) by (rewrite <- Z.negb_even, Ev; reflexivity).
  apply Z.odd_spec in O. destruct O as [k O].
  destruct (Z.compare_spec (2 * rest + 1) den) as [C|C|C];
    destruct (Z.compare_spec (2 * rest) den) as [C'|C'|C'];
    try reflexivity; lia.
Qed.

Lemma fexp_eq (e : Z) : fexp prec emax e = Z.max (e - 53) (-1074).
Proof. reflexivity. Qed.

Lemma Zdigits2_bounds (m : Z) :
  (0 < m)%Z ->
  (0 < Zdigits2 m)%Z /\ (2 ^ (Zdigits2 m - 1) <= m < 2 ^ Zdigits2 m)%Z.
Proof.
  destruct m as [|p|p]; try lia. intros _. cbn [Zdigits2].
  rewrite digits2_pos_log2.
  pose proof (Z.log2_spec (Zpos p) ltac:(lia)) as L.
  pose proof (Z.log2_nonneg (Zpos p)) as L0.
  replace (Z.log2 (Zpos p) + 1 - 1)%Z with (Z.log2 (Zpos p)) by ring.
  replace (Z.log2 (Zpos p) + 1)%Z with (Z.succ (Z.log2 (Zpos p))) by ring.
  lia.
Qed.

(** The first shift of a rounding brings the mantissa to the exponent of
    the format and keeps the place of the quotient. *)
Lemma shr_fexp_placed (m e : Z) (l : location) (num den : Z) :
  (0 < den)%Z -> (0 <= m)%Z -> (0 <= num - m * den < den)%Z ->
  l = loc_of (num - m * den) den ->
  (e <= fexp prec emax (Zdigits2 m + e))%Z ->
  exists mrs,
    shr_fexp prec emax m e l = (mrs, fexp prec emax (Zdigits2 m + e))
    /\ placed mrs num (den * 2 ^ (fexp prec emax (Zdigits2 m + e) - e)).
Proof.
  intros Hden Hm Hr -> He. unfold shr_fexp.
  set (e1 := fexp prec emax (Zdigits2 m + e)) in *.
  pose proof (placed_of_loc m num den Hm Hr) as P.
  destruct (e1 - e)%Z as [|p|p] eqn:En; [| |lia].
  - eexists. split.
    + cbn [shr]. f_equal. lia.
    + now rewrite Z.pow_0_r, Z.mul_1_r.
  - eexists. split.
    + cbn [shr]. f_equal. lia.
    + now apply iter_pos_shr_placed.
Qed.

(** The second shift and the final test of a rounding. *)
Lemma shr_fexp_normalise (sx : bool) (m e : Z) :
  (0 <= m <= 2 ^ 53)%Z -> (-1074 <= e)%Z ->
  ((2 ^ 52 <= m)%Z \/ e = (-1074)%Z) ->
  (let '(mrs, e') := shr_fexp prec emax m e loc_Exact in
   match shr_m mrs with
   | 0%Z => S754_zero sx
   | Zpos p =>
       if (e' <=? emax - prec)%Z then S754_finite sx p e'
       else S754_infinity sx
   | Zneg _ => S754_nan
   end) = normalise sx m e.
Proof.
  intros Hm He Hn. unfold normalise.
  destruct (Z.eqb_spec m (2 ^ 53)) as [E|E].
  - subst m. unfold shr_fexp.
    change (Zdigits2 (2 ^ 53)) with 54%Z. rewrite fexp_eq.
    replace (Z.max (54 + e - 53) (-1074) - e)%Z with 1%Z by lia.
    cbn [shr SpecFloat.iter_pos].
    change (shr_1 (shr_record_of_loc (2 ^ 53) loc_Exact))
      with (Build_shr_record (2 ^ 52) false false).
    cbn [shr_m]. change (emax - prec)%Z with 971%Z.
    change (2 ^ 52)%Z with (Zpos (2 ^ 52)).
    destruct (Z.leb_spec (e + 1) 971); destruct (Z.ltb_spec 971 (e + 1));
      try reflexivity; lia.
  - unfold shr_fexp. rewrite fexp_eq.
    assert (D : (Z.max (Zdigits2 m + e - 53) (-1074) - e <= 0)%Z).
    { destruct (Z.eq_dec m 0) as [->|N0]; [cbn [Zdigits2]; lia|].
      destruct (Zdigits2_bounds m ltac:(lia)) as [D0 [D1 D2]].
      assert (Zdigits2 m - 1 < 53)%Z; [|lia].
      apply (Z.pow_lt_mono_r_iff 2); lia. }
    assert (S : shr (shr_record_of_loc m loc_Exact) e
                  (Z.max (Zdigits2 m + e - 53) (-1074) - e)
                = (shr_record_of_loc m loc_Exact, e)).
    { destruct (Z.max (Zdigits2 m + e - 53) (-1074) - e)%Z; try reflexivity.
      lia. }
    rewrite S. cbn [shr_record_of_loc shr_m].
    change (emax - prec)%Z with 971%Z.
    destruct m as [|p|p]; [| |lia].
    + destruct (Z.ltb_spec 971 e); [lia|reflexivity].
    + destruct (Z.leb_spec e 971); destruct (Z.ltb_spec 971 e);
        try reflexivity; lia.
Qed.

(** The exponent at which a placed quotient is rounded is the one
    [round_ratio] chooses. *)
Lemma ratio_exp_placed (mz ez num den B : Z) (N D : positive) :
  (0 < den)%Z -> (0 <= mz)%Z -> (0 <= num - mz * den < den)%Z ->
  (0 < num)%Z ->
  (ez <= fexp prec emax (Zdigits2 mz + ez))%Z ->
  (0 <= B)%Z -> (0 <= ez + B)%Z ->
  Zpos N = (num * 2 ^ (ez + B))%Z -> Zpos D = (den * 2 ^ B)%Z ->
  ratio_exp N D = fexp prec emax (Zdigits2 mz + ez).
Proof.
  intros Hden Hm Hr Hnum He HB HB' EN ED. rewrite fexp_eq in *.
  assert (PB : (0 < 2 ^ B)%Z) by (apply Z.pow_pos_nonneg; lia).
  assert (PE : (0 < 2 ^ (ez + B))%Z) by (apply Z.pow_pos_nonneg; lia).
  assert (PT : (0 < 2 ^ 1074)%Z) by (apply Z.pow_pos_nonneg; lia).
  assert (Sub : forall d : Z,
             (0 <= d)%Z -> (num < 2 ^ d * den)%Z -> (d + ez <= -1022)%Z ->
             ratio_exp N D = (-1074)%Z).
  { intros d Hd Hlt Hde. apply ratio_exp_subnormal.
    unfold ratio_num. rewrite EN, ED.
    assert (P1 : (2 ^ d * 2 ^ (ez + B) * 2 ^ 1074 <= 2 ^ 52 * 2 ^ B)%Z).
    { rewrite <- !Z.pow_add_r by lia. apply Z.pow_le_mono_r; lia. }
    assert (Pd : (0 < 2 ^ d)%Z) by (apply Z.pow_pos_nonneg; lia).
    set (a := (2 ^ d)%Z) in *. set (b := (2 ^ (ez + B))%Z) in *.
    set (c := (2 ^ 1074)%Z) in *. set (f := (2 ^ B)%Z) in *.
    set (g := (2 ^ 52)%Z) in *.
    assert (num * (b * c) < a * den * (b * c))%Z by nia.
    assert (den * (a * b * c) <= den * (g * f))%Z by nia.
    nia. }
  destruct (Z.eq_dec mz 0) as [->|N0].
  - cbn [Zdigits2] in *.
    rewrite (Sub 0%Z); [lia|lia| |lia].
    rewrite Z.pow_0_r. lia.
  - destruct (Zdigits2_bounds mz ltac:(lia)) as [D0 [D1 D2]].
    set (d := Zdigits2 mz) in *.
    destruct (Z_le_gt_dec (-1074) (d + ez - 53)) as [L|G].
    + rewrite Z.max_l by lia.
      apply (ratio_exp_normal N D (d + ez - 53) L).
      unfold ratio_num. rewrite EN, ED.
      assert (P1 : (2 ^ 52 * (2 ^ B * 2 ^ (d + ez - 53 + 1074))
                    = 2 ^ (d - 1) * (2 ^ (ez + B) * 2 ^ 1074))%Z).
      { rewrite <- !Z.pow_add_r by lia. f_equal. lia. }
      assert (P2 : (2 ^ 53 * (2 ^ B * 2 ^ (d + ez - 53 + 1074))
                    = 2 ^ d * (2 ^ (ez + B) * 2 ^ 1074))%Z).
      { rewrite <- !Z.pow_add_r by lia. f_equal. lia. }
      replace (2 ^ 52 * (den * 2 ^ B * 2 ^ (d + ez - 53 + 1074)))%Z
        with (den * (2 ^ 52 * (2 ^ B * 2 ^ (d + ez - 53 + 1074))))%Z by ring.
      replace (2 ^ 53 * (den * 2 ^ B * 2 ^ (d + ez - 53 + 1074)))%Z
        with (den * (2 ^ 53 * (2 ^ B * 2 ^ (d + ez - 53 + 1074))))%Z by ring.
      rewrite P1, P2.
      assert (Pd : (0 < 2 ^ (d - 1))%Z) by (apply Z.pow_pos_nonneg; lia).
      set (a := (2 ^ (d - 1))%Z) in *. set (a' := (2 ^ d)%Z) in *.
      set (b := (2 ^ (ez + B))%Z) in *. set (c := (2 ^ 1074)%Z) in *.
      assert (0 < b * c)%Z by nia.
      split.
      * assert (den * a <= num)%Z by nia.
        replace (den * (a * (b * c)))%Z with (den * a * (b * c))%Z by ring.
        replace (num * b * c)%Z with (num * (b * c))%Z by ring.
        apply Z.mul_le_mono_nonneg_r; lia.
      * assert (num < den * a')%Z by nia.
        replace (den * (a' * (b * c)))%Z with (den * a' * (b * c))%Z by ring.
        replace (num * b * c)%Z with (num * (b * c))%Z by ring.
        apply Z.mul_lt_mono_pos_r; lia.
    + rewrite Z.max_r by lia.
      apply (Sub d); [lia| |lia]. nia.
Qed.

(** A rounding of the binary64 operations is [round_ratio] of the exact
    result: [num / den] is the exact mantissa at the exponent [ez], [mz] its
    integer part and [lz] the place of the rest. *)
Lemma binary_round_aux_ratio (sx : bool) (mz ez : Z) (lz : location)
    (num den B : Z) (N D : positive) :
  (0 < den)%Z -> (0 <= mz)%Z -> (0 <= num - mz * den < den)%Z ->
  (0 < num)%Z ->
  lz = loc_of (num - mz * den) den ->
  (ez <= fexp prec emax (Zdigits2 mz + ez))%Z ->
  (0 <= B)%Z -> (0 <= ez + B)%Z ->
  Zpos N = (num * 2 ^ (ez + B))%Z -> Zpos D = (den * 2 ^ B)%Z ->
  binary_round_aux prec emax sx mz ez lz = round_ratio sx N D.
Proof.
  intros Hden Hm Hr Hnum El He HB HB' EN ED.
  pose proof (ratio_exp_placed mz ez num den B N D Hden Hm Hr Hnum He HB HB'
                EN ED) as Ee.
  destruct (shr_fexp_placed mz ez lz num den Hden Hm Hr El He)
    as (mrs & Es & P).
  unfold binary_round_aux. rewrite Es.
  assert (P2 : (0 < 2 ^ (fexp prec emax (Zdigits2 mz + ez) - ez))%Z)
    by (apply Z.pow_pos_nonneg; lia).
  rewrite (round_nearest_even_placed mrs num
             (den * 2 ^ (fexp prec emax (Zdigits2 mz + ez) - ez))
             ltac:(nia) P).
  rewrite <- Ee in *.
  pose proof (ratio_exp_ge N D) as Ge.
  assert (Em : rne_div num (den * 2 ^ (ratio_exp N D - ez)) = ratio_mant N D).
  { unfold ratio_mant. apply rne_div_equiv; [nia|apply ratio_den_pos|].
    unfold ratio_num, ratio_den. rewrite EN, ED.
    assert (Q : (2 ^ B * 2 ^ (ratio_exp N D + 1074)
                 = 2 ^ (ez + B) * 2 ^ 1074 * 2 ^ (ratio_exp N D - ez))%Z).
    { rewrite <- !Z.pow_add_r by lia. f_equal. lia. }
    replace (num * (den * 2 ^ B * 2 ^ (ratio_exp N D + 1074)))%Z
      with (num * den * (2 ^ B * 2 ^ (ratio_exp N D + 1074)))%Z by ring.
    rewrite Q. ring. }
  rewrite Em, (round_ratio_eq sx N D).
  apply shr_fexp_normalise.
  - apply ratio_mant_le.
  - exact Ge.
  - destruct (Z_le_gt_dec (-1022) (ilog2_ratio N D)) as [L|G].
    + left. now apply ratio_mant_ge.
    + right. apply ratio_size_subnormal. lia.
Qed.

(* ================================================================= *)
(** ** Multiplying and dividing by [1e9] *)

(** [1e9] as a binary64 number: mantissa [10^9 * 2^23], exponent [-23]. *)
Definition giga : Z := 1000000000.
Definition giga_mant : positive := 8388608000000000.

Lemma giga_float : Prim2SF 1e9 = S754_finite false giga_mant (-23).
Proof. reflexivity. Qed.

Lemma giga_mant_eq : Zpos giga_mant = (giga * 2 ^ 23)%Z.
Proof. reflexivity. Qed.

(** A finite binary64 number in units of [2^-1074]. *)
Lemma units_pos (s : bool) (m : positive) (e : Z) :
  (-1074 <= e)%Z -> (0 < units (S754_finite s m e))%Z.
Proof.
  intros He. cbn [units].
  assert (0 < 2 ^ (e + 1074))%Z by (apply Z.pow_pos_nonneg; lia). lia.
Qed.

(** [x * 1e9] is the exact product, rounded. *)
Lemma mul_giga_ratio (sx : bool) (mx : positive) (ex : Z) :
  bounded prec emax mx ex = true ->
  SFmul prec emax (S754_finite sx mx ex) (S754_finite false giga_mant (-23))
  = round_ratio sx (Z.to_pos (units (S754_finite sx mx ex) * giga))
      (Z.to_pos (2 ^ 1074)).
Proof.
  intros Hb. apply bounded_spec in Hb. destruct Hb as (He & Hm & Hn).
  cbn [SFmul units]. rewrite Bool.xorb_false_r.
  assert (PU : (0 < 2 ^ (ex + 1074))%Z) by (apply Z.pow_pos_nonneg; lia).
  assert (PT : (0 < 2 ^ 1074)%Z) by (apply Z.pow_pos_nonneg; lia).
  assert (P97 : (0 < 2 ^ 1097)%Z) by (apply Z.pow_pos_nonneg; lia).
  set (num := Zpos (mx * giga_mant)).
  assert (En : num = (Zpos mx * (giga * 2 ^ 23))%Z)
    by (unfold num; rewrite Pos2Z.inj_mul, giga_mant_eq; reflexivity).
  assert (G0 : (0 < giga * 2 ^ 23)%Z) by reflexivity.
  assert (Hnum : (0 < num)%Z) by (unfold num; lia).
  rewrite (binary_round_aux_ratio sx num (ex + -23) loc_Exact num 1 1097
             (Z.to_pos (num * 2 ^ (ex + -23 + 1097)))
             (Z.to_pos (1 * 2 ^ 1097))).
  - apply round_ratio_equiv. apply Pos2Z.inj.
    replace (ex + -23 + 1097)%Z with (ex + 1074)%Z by ring.
    rewrite !Pos2Z.inj_mul, !Z2Pos.id by nia.
    rewrite En. change (2 ^ 1097)%Z with (2 ^ 23 * 2 ^ 1074)%Z at 1.
    unfold giga. ring.
  - lia.
  - lia.
  - lia.
  - exact Hnum.
  - unfold loc_of. replace (num - num * 1)%Z with 0%Z by ring. reflexivity.
  - rewrite fexp_eq.
    destruct (Zdigits2_bounds num Hnum) as [D0 [D1 D2]].
    assert (52 < Zdigits2 num)%Z; [|lia].
    apply (Z.pow_lt_mono_r_iff 2); [lia|lia|].
    assert (2 ^ 52 <= giga * 2 ^ 23)%Z by (vm_compute; discriminate).
    nia.
  - lia.
  - lia.
  - replace (ex + -23 + 1097)%Z with (ex + 1074)%Z by ring.
    rewrite Z2Pos.id by nia. reflexivity.
  - rewrite Z2Pos.id by lia. reflexivity.
Qed.

(** [x / 1e9] is the exact quotient, rounded. *)
Lemma div_giga_ratio (sx : bool) (mx : positive) (ex : Z) :
  bounded prec emax mx ex = true ->
  SFdiv prec emax (S754_finite sx mx ex) (S754_finite false giga_mant (-23))
  = round_ratio sx (Z.to_pos (units (S754_finite sx mx ex)))
      (Z.to_pos (giga * 2 ^ 1074)).
Proof.
  intros Hb. apply bounded_spec in Hb. destruct Hb as (He & Hm & Hn).
  cbn [SFdiv units]. rewrite Bool.xorb_false_r.
  assert (PU : (0 < 2 ^ (ex + 1074))%Z) by (apply Z.pow_pos_nonneg; lia).
  assert (PT : (0 < 2 ^ 1074)%Z) by (apply Z.pow_pos_nonneg; lia).
  unfold SFdiv_core_binary.
  change (Zdigits2 (Zpos giga_mant)) with 53%Z.
  change IntDef.Z.min with Z.min. change IntDef.Z.shiftl with Z.shiftl.
  change IntDef.Z.div_eucl with Z.div_eucl.
  rewrite fexp_eq.
  destruct (Zdigits2_bounds (Zpos mx) ltac:(lia)) as [D0 [D1 D2]].
  set (d1 := Zdigits2 (Zpos mx)) in *.
  set (e' := Z.min (Z.max (d1 + ex - (53 + -23) - 53) (-1074)) (ex - -23)).
  assert (Ge : (-1074 <= e')%Z) by (unfold e'; lia).
  assert (Le : (e' <= ex + 23)%Z) by (unfold e'; lia).
  set (s := (ex - -23 - e')%Z).
  assert (Hs : (0 <= s)%Z) by (unfold s; lia).
  assert (Em : match s with
               | 0%Z => Zpos mx
               | Zpos _ => Z.shiftl (Zpos mx) s
               | Zneg _ => 0%Z
               end = (Zpos mx * 2 ^ s)%Z).
  { destruct s as [|p|p] eqn:Es; [cbn; lia| |lia].
    rewrite <- Es, Z.shiftl_mul_pow2 by lia. reflexivity. }
  rewrite Em.
  assert (PS : (0 < 2 ^ s)%Z) by (apply Z.pow_pos_nonneg; lia).
  set (num := (Zpos mx * 2 ^ s)%Z).
  assert (Hnum : (0 < num)%Z) by (unfold num; nia).
  pose proof (Z_div_mod num (Zpos giga_mant) ltac:(lia)) as DM.
  pose proof (Z.div_pos num (Zpos giga_mant) ltac:(lia) ltac:(lia)) as Q0.
  assert (Eq : (num / Zpos giga_mant)%Z = fst (Z.div_eucl num (Zpos giga_mant)))
    by reflexivity.
  destruct (Z.div_eucl num (Zpos giga_mant)) as [q r].
  cbn [fst] in Eq. rewrite Eq in Q0. destruct DM as [DM Hr].
  rewrite (binary_round_aux_ratio sx q e' (new_location (Zpos giga_mant) r)
             num (Zpos giga_mant) 1074
             (Z.to_pos (num * 2 ^ (e' + 1074)))
             (Z.to_pos (Zpos giga_mant * 2 ^ 1074))).
  - apply round_ratio_equiv. apply Pos2Z.inj.
    assert (PE : (0 < 2 ^ (e' + 1074))%Z) by (apply Z.pow_pos_nonneg; lia).
    rewrite !Pos2Z.inj_mul, !Z2Pos.id by (unfold giga; nia).
    rewrite giga_mant_eq. unfold num.
    assert (X : (2 ^ s * 2 ^ (e' + 1074) = 2 ^ (ex + 1074) * 2 ^ 23)%Z).
    { rewrite <- !Z.pow_add_r by lia. f_equal. unfold s. lia. }
    replace (Zpos mx * 2 ^ s * 2 ^ (e' + 1074) * (giga * 2 ^ 1074))%Z
      with (Zpos mx * (2 ^ s * 2 ^ (e' + 1074)) * (giga * 2 ^ 1074))%Z
      by ring.
    rewrite X. ring.
  - lia.
  - exact Q0.
  - lia.
  - exact Hnum.
  - rewrite new_location_loc_of. f_equal. lia.
  - rewrite fexp_eq.
    destruct (Z_le_gt_dec e' (-1074)) as [L|G]; [lia|].
    assert (Ed : (e' <= d1 + ex - 83)%Z) by (unfold e'; lia).
    assert (Hq : (2 ^ (d1 + s - 54) <= q)%Z).
    { rewrite <- Eq. apply Z.div_le_lower_bound; [lia|].
      assert (Zpos giga_mant <= 2 ^ 53)%Z by (vm_compute; discriminate).
      assert (P3 : (2 ^ 53 * 2 ^ (d1 + s - 54) = 2 ^ (d1 - 1) * 2 ^ s)%Z).
      { rewrite <- !Z.pow_add_r by (unfold s; lia). f_equal. lia. }
      assert (P4 : (0 < 2 ^ (d1 + s - 54))%Z)
        by (apply Z.pow_pos_nonneg; unfold s; lia).
      unfold num. set (a := (2 ^ (d1 + s - 54))%Z) in *.
      set (b := (2 ^ (d1 - 1))%Z) in *. set (c := (2 ^ s)%Z) in *.
      set (g := (2 ^ 53)%Z) in *.
      assert (Zpos giga_mant * a <= g * a)%Z by nia.
      nia. }
    assert (P4 : (0 < 2 ^ (d1 + s - 54))%Z)
      by (apply Z.pow_pos_nonneg; unfold s; lia).
    destruct (Zdigits2_bounds q ltac:(lia)) as [Q1 [Q2 Q3]].
    assert (d1 + s - 54 < Zdigits2 q)%Z.
    { apply (Z.pow_lt_mono_r_iff 2); lia. }
    unfold s in *. lia.
  - lia.
  - lia.
  - rewrite Z2Pos.id; [reflexivity|].
    assert (0 < 2 ^ (e' + 1074))%Z by (apply Z.pow_pos_nonneg; lia). nia.
  - rewrite Z2Pos.id by lia. reflexivity.
Qed.

(** The denominators of the two exact results, in units of [2^-1074]. *)
Definition giga_den : positive := Z.to_pos (giga * 2 ^ 1074).
Definition unit_den : positive := Z.to_pos (2 ^ 1074).

Lemma giga_den_eq : Zpos giga_den = (giga * 2 ^ 1074)%Z.
Proof.
  unfold giga_den. apply Z2Pos.id.
  assert (0 < 2 ^ 1074)%Z by (apply Z.pow_pos_nonneg; lia).
  unfold giga. lia.
Qed.

Lemma unit_den_eq : Zpos unit_den = (2 ^ 1074)%Z.
Proof. unfold unit_den. apply Z2Pos.id, Z.pow_pos_nonneg; lia. Qed.

(** The quotient by [1e9]: its mantissa, its size and its bound. *)
Lemma giga_quotient_mant (n : positive) :
  ratio_mant n giga_den
  = rne_div (Zpos n) (giga * 2 ^ (ratio_exp n giga_den + 1074)).
Proof.
  unfold ratio_mant, ratio_num, ratio_den. rewrite giga_den_eq.
  pose proof (ratio_exp_ge n giga_den) as Ge.
  assert (0 < 2 ^ 1074)%Z by (apply Z.pow_pos_nonneg; lia).
  assert (0 < 2 ^ (ratio_exp n giga_den + 1074))%Z
    by (apply Z.pow_pos_nonneg; lia).
  apply rne_div_equiv; [unfold giga; nia|unfold giga; nia|ring].
Qed.

Lemma giga_quotient_size (n : positive) :
  ((2 ^ 52 * (giga * 2 ^ (ratio_exp n giga_den + 1074)) <= Zpos n
    < 2 ^ 53 * (giga * 2 ^ (ratio_exp n giga_den + 1074)))%Z
   /\ (2 ^ 52 <= ratio_mant n giga_den)%Z)
  \/ (ratio_exp n giga_den = (-1074)%Z
      /\ (Zpos n < 2 ^ 52 * giga)%Z
      /\ (ratio_mant n giga_den <= 2 ^ 52)%Z).
Proof.
  assert (PT : (0 < 2 ^ 1074)%Z) by (apply Z.pow_pos_nonneg; lia).
  destruct (Z_le_gt_dec (-1022) (ilog2_ratio n giga_den)) as [L|G].
  - left. split; [|now apply ratio_mant_ge].
    destruct (ratio_size_normal n giga_den L) as [_ S].
    unfold ratio_num, ratio_den in S. rewrite giga_den_eq in S.
    set (U := (2 ^ (ratio_exp n giga_den + 1074))%Z) in *.
    set (T := (2 ^ 1074)%Z) in *.
    replace (2 ^ 52 * (giga * T * U))%Z
      with (2 ^ 52 * (giga * U) * T)%Z in S by ring.
    replace (2 ^ 53 * (giga * T * U))%Z
      with (2 ^ 53 * (giga * U) * T)%Z in S by ring.
    split.
    + apply (Z.mul_le_mono_pos_r _ _ T PT). lia.
    + apply (Z.mul_lt_mono_pos_r T _ _ PT). lia.
  - right. assert (G' : (ilog2_ratio n giga_den < -1022)%Z) by lia.
    destruct (ratio_size_subnormal n giga_den G') as (E & D & S).
    split; [exact E|]. split; [|now apply ratio_mant_subnormal].
    rewrite D in S. unfold ratio_num in S. rewrite giga_den_eq in S.
    set (T := (2 ^ 1074)%Z) in *.
    replace (2 ^ 52 * (giga * T))%Z with (2 ^ 52 * giga * T)%Z in S by ring.
    apply (Z.mul_lt_mono_pos_r T _ _ PT). lia.
Qed.

(** The largest mantissa a quotient by [1e9] takes at the largest
    exponent it reaches. *)
Definition giga_top : Z := 4835703278458516.

Lemma giga_top_eq : rne_div ((2 ^ 53 - 1) * 2 ^ 29) giga = giga_top.
Proof. reflexivity. Qed.

(** The quotient by [1e9] of a binary64 number, multiplied again by
    [1e9], stays below the overflow threshold. *)
Lemma giga_quotient_bound (n : positive) :
  (Zpos n <= (2 ^ 53 - 1) * 2 ^ 2045)%Z ->
  (2 * (ratio_mant n giga_den * 2 ^ (ratio_exp n giga_den + 1074) * giga)
   < (2 ^ 54 - 1) * 2 ^ 2045)%Z.
Proof.
  intros Hn.
  pose proof (ratio_exp_ge n giga_den) as Ge.
  pose proof (ratio_mant_le n giga_den) as Hm.
  pose proof (giga_quotient_mant n) as Em.
  assert (P29 : (2 ^ 2045 = 2 ^ 29 * 2 ^ 2016)%Z)
    by (rewrite <- Z.pow_add_r by lia; reflexivity).
  assert (P16 : (0 < 2 ^ 2016)%Z) by (apply Z.pow_pos_nonneg; lia).
  destruct (giga_quotient_size n) as [[S M]|(E & S & M)].
  - set (e := ratio_exp n giga_den) in *.
    set (m0 := ratio_mant n giga_den) in *.
    assert (Le : (e <= 942)%Z).
    { destruct (Z_le_gt_dec e 942) as [L|G]; [exact L|exfalso].
      assert (2 ^ 2017 <= 2 ^ (e + 1074))%Z
        by (apply Z.pow_le_mono_r; lia).
      assert (P17 : (2 ^ 2017 = 2 * 2 ^ 2016)%Z)
        by (rewrite <- (Z.pow_succ_r 2 2016) by lia; reflexivity).
      set (U := (2 ^ (e + 1074))%Z) in *.
      set (V := (2 ^ 2016)%Z) in *. set (V' := (2 ^ 2017)%Z) in *.
      set (W := (2 ^ 2045)%Z) in *.
      unfold giga in *. lia. }
    destruct (Z.eq_dec e 942) as [E|NE].
    + rewrite E in *. change (942 + 1074)%Z with 2016%Z in *.
      assert (Mt : (m0 <= giga_top)%Z).
      { rewrite Em, <- giga_top_eq.
        rewrite <- (rne_div_scale ((2 ^ 53 - 1) * 2 ^ 29) giga
                      ltac:(unfold giga; lia) (2 ^ 2016) P16).
        apply rne_div_mono; [unfold giga; lia|].
        replace ((2 ^ 53 - 1) * 2 ^ 29 * 2 ^ 2016)%Z
          with ((2 ^ 53 - 1) * (2 ^ 29 * 2 ^ 2016))%Z by ring.
        rewrite <- P29. exact Hn. }
      rewrite P29. set (V := (2 ^ 2016)%Z) in *.
      unfold giga_top, giga in *. nia.
    + assert (2 ^ (e + 1074) <= 2 ^ 2015)%Z
        by (apply Z.pow_le_mono_r; lia).
      assert (P15 : (2 ^ 2045 = 2 ^ 30 * 2 ^ 2015)%Z)
        by (rewrite <- Z.pow_add_r by lia; reflexivity).
      assert (0 < 2 ^ 2015)%Z by (apply Z.pow_pos_nonneg; lia).
      assert (0 < 2 ^ (e + 1074))%Z by (apply Z.pow_pos_nonneg; lia).
      rewrite P15.
      set (U := (2 ^ (e + 1074))%Z) in *. set (V := (2 ^ 2015)%Z) in *.
      assert (m0 * U <= 2 ^ 53 * V)%Z by nia.
      unfold giga. lia.
  - rewrite E. change (-1074 + 1074)%Z with 0%Z. rewrite Z.pow_0_r.
    assert (P30 : (2 ^ 30 <= 2 ^ 2045)%Z) by (apply Z.pow_le_mono_r; lia).
    set (W := (2 ^ 2045)%Z) in *. unfold giga. lia.
Qed.

(** The product by [1e9]: its mantissa and its size. *)
Lemma unit_ratio_mant (n : positive) :
  ratio_mant n unit_den
  = rne_div (Zpos n) (2 ^ (ratio_exp n unit_den + 1074)).
Proof.
  unfold ratio_mant, ratio_num, ratio_den. rewrite unit_den_eq.
  pose proof (ratio_exp_ge n unit_den) as Ge.
  assert (0 < 2 ^ 1074)%Z by (apply Z.pow_pos_nonneg; lia).
  assert (0 < 2 ^ (ratio_exp n unit_den + 1074))%Z
    by (apply Z.pow_pos_nonneg; lia).
  apply rne_div_equiv; [nia|lia|ring].
Qed.

Lemma unit_ratio_size (n : positive) :
  (2 ^ 52 * 2 ^ (ratio_exp n unit_den + 1074) <= Zpos n)%Z
  \/ ratio_exp n unit_den = (-1074)%Z.
Proof.
  assert (PT : (0 < 2 ^ 1074)%Z) by (apply Z.pow_pos_nonneg; lia).
  destruct (Z_le_gt_dec (-1022) (ilog2_ratio n unit_den)) as [L|G].
  - left. destruct (ratio_size_normal n unit_den L) as [_ [S _]].
    unfold ratio_num, ratio_den in S. rewrite unit_den_eq in S.
    set (W := (2 ^ (ratio_exp n unit_den + 1074))%Z) in *.
    set (T := (2 ^ 1074)%Z) in *.
    replace (2 ^ 52 * (T * W))%Z with (2 ^ 52 * W * T)%Z in S by ring.
    apply (Z.mul_le_mono_pos_r _ _ T PT). exact S.
  - right. apply ratio_size_subnormal. lia.
Qed.

Lemma unit_ratio_mant_pos (n : positive) : (0 < ratio_mant n unit_den)%Z.
Proof.
  rewrite unit_ratio_mant.
  pose proof (ratio_exp_ge n unit_den) as Ge.
  assert (PW : (0 < 2 ^ (ratio_exp n unit_den + 1074))%Z)
    by (apply Z.pow_pos_nonneg; lia).
  destruct (unit_ratio_size n) as [S|E].
  - pose proof (rne_div_ge (Zpos n) _ PW (2 ^ 52) S). lia.
  - rewrite E. change (-1074 + 1074)%Z with 0%Z. rewrite Z.pow_0_r.
    replace (Zpos n) with (Zpos n * 1)%Z at 1 by ring.
    rewrite rne_div_exact by lia. lia.
Qed.

(** The rounded product is at least as near to the exact product as any
    binary64 number is. *)
Lemma product_nearer (n : positive) (mx : positive) (ex : Z) :
  (-1074 <= ex)%Z -> (Zpos mx < 2 ^ 53)%Z ->
  (Z.abs (ratio_mant n unit_den * 2 ^ (ratio_exp n unit_den + 1074) - Zpos n)
   <= Z.abs (Zpos mx * 2 ^ (ex + 1074) - Zpos n))%Z.
Proof.
  intros He Hm. rewrite unit_ratio_mant.
  pose proof (ratio_exp_ge n unit_den) as Ge.
  set (e2 := ratio_exp n unit_den) in *.
  assert (PW : (0 < 2 ^ (e2 + 1074))%Z) by (apply Z.pow_pos_nonneg; lia).
  assert (PX : (0 < 2 ^ (ex + 1074))%Z) by (apply Z.pow_pos_nonneg; lia).
  destruct (Z_le_gt_dec e2 ex) as [L|G].
  - replace (Zpos mx * 2 ^ (ex + 1074))%Z
      with (Zpos mx * 2 ^ (ex - e2) * 2 ^ (e2 + 1074))%Z.
    + apply rne_div_nearest; lia.
    + rewrite <- Z.mul_assoc, <- Z.pow_add_r by lia. do 2 f_equal. lia.
  - destruct (unit_ratio_size n) as [S|E]; [|fold e2 in E; lia].
    fold e2 in S.
    pose proof (rne_div_nearest (Zpos n) (2 ^ (e2 + 1074)) PW (2 ^ 52))
      as Hn.
    assert (P1 : (2 * 2 ^ (ex + 1074) <= 2 ^ (e2 + 1074))%Z).
    { rewrite <- Z.pow_succ_r by lia. apply Z.pow_le_mono_r; lia. }
    set (W := (2 ^ (e2 + 1074))%Z) in *. set (V := (2 ^ (ex + 1074))%Z) in *.
    assert (Zpos mx * V < 2 ^ 52 * W)%Z by nia.
    lia.
Qed.

(** Dividing the product again: the exponent and the mantissa are those
    of the first quotient, unless that quotient is a power of two. *)
Lemma scale_back_mant (n n2 ny mx : positive) (ex : Z) :
  Zpos n = (Zpos mx * 2 ^ (ex + 1074))%Z ->
  (-1074 <= ex)%Z -> (Zpos mx < 2 ^ 53)%Z ->
  Zpos n2 = (ratio_mant n giga_den * 2 ^ (ratio_exp n giga_den + 1074)
             * giga)%Z ->
  Zpos ny = (ratio_mant n2 unit_den * 2 ^ (ratio_exp n2 unit_den + 1074))%Z ->
  ratio_mant n giga_den <> (2 ^ 52)%Z ->
  ratio_mant n giga_den <> (2 ^ 53)%Z ->
  ratio_exp ny giga_den = ratio_exp n giga_den
  /\ ratio_mant ny giga_den = ratio_mant n giga_den.
Proof.
  intros En He Hm E2 Ey N52 N53.
  pose proof (ratio_exp_ge n giga_den) as Ge.
  pose proof (ratio_mant_le n giga_den) as Hm0.
  pose proof (giga_quotient_mant n) as Em.
  pose proof (product_nearer n2 mx ex He Hm) as Near.
  rewrite <- Ey, <- En, E2 in Near.
  assert (PU : (0 < 2 ^ (ratio_exp n giga_den + 1074))%Z)
    by (apply Z.pow_pos_nonneg; lia).
  assert (PT : (0 < 2 ^ 1074)%Z) by (apply Z.pow_pos_nonneg; lia).
  assert (PD : (0 < giga * 2 ^ (ratio_exp n giga_den + 1074))%Z)
    by (unfold giga; lia).
  pose proof (rne_div_half (Zpos n) _ PD) as Half.
  rewrite <- Em in Half.
  pose proof (rne_div_tie_even (Zpos n) _ PD) as Tie.
  rewrite <- Em in Tie.
  pose proof (giga_quotient_size n) as Size.
  set (e := ratio_exp n giga_den) in *.
  set (m0 := ratio_mant n giga_den) in *.
  set (U := (2 ^ (e + 1074))%Z) in *.
  set (X := Zpos n) in *. set (Y := Zpos ny) in *.
  assert (Star : (Z.abs (2 * (m0 * (giga * U) - Y)) <= giga * U)%Z).
  { replace (m0 * (giga * U))%Z with (m0 * U * giga)%Z in * by ring. lia. }
  assert (Ee : ratio_exp ny giga_den = e).
  { destruct Size as [[S M]|(E & S & M)].
    - apply (ratio_exp_normal ny giga_den e Ge).
      unfold ratio_num. rewrite giga_den_eq. fold Y. fold U.
      set (T := (2 ^ 1074)%Z) in *.
      assert (B : (2 ^ 52 * (giga * U) <= Y < 2 ^ 53 * (giga * U))%Z).
      { assert (2 ^ 52 + 1 <= m0 <= 2 ^ 53 - 1)%Z by lia.
        set (gU := (giga * U)%Z) in *. nia. }
      replace (2 ^ 52 * (giga * T * U))%Z
        with (2 ^ 52 * (giga * U) * T)%Z by ring.
      replace (2 ^ 53 * (giga * T * U))%Z
        with (2 ^ 53 * (giga * U) * T)%Z by ring.
      split.
      + apply Z.mul_le_mono_nonneg_r; lia.
      + apply Z.mul_lt_mono_pos_r; lia.
    - assert (EU : U = 1%Z) by (unfold U; rewrite E; reflexivity).
      rewrite EU, Z.mul_1_r in *.
      assert (B : (Y < 2 ^ 53 * giga)%Z) by (unfold giga in *; nia).
      rewrite E.
      destruct (Z_lt_le_dec Y (2 ^ 52 * giga)) as [Lo|Hi].
      + apply ratio_exp_subnormal. unfold ratio_num.
        rewrite giga_den_eq. fold Y. set (T := (2 ^ 1074)%Z) in *.
        replace (2 ^ 52 * (giga * T))%Z with (2 ^ 52 * giga * T)%Z by ring.
        apply Z.mul_lt_mono_pos_r; lia.
      + apply (ratio_exp_normal ny giga_den (-1074) ltac:(lia)).
        unfold ratio_num. rewrite giga_den_eq. fold Y.
        change (-1074 + 1074)%Z with 0%Z. rewrite Z.pow_0_r, Z.mul_1_r.
        set (T := (2 ^ 1074)%Z) in *.
        replace (2 ^ 52 * (giga * T))%Z with (2 ^ 52 * giga * T)%Z by ring.
        replace (2 ^ 53 * (giga * T))%Z with (2 ^ 53 * giga * T)%Z by ring.
        split.
        * apply Z.mul_le_mono_nonneg_r; lia.
        * apply Z.mul_lt_mono_pos_r; lia. }
  split; [exact Ee|].
  rewrite (giga_quotient_mant ny), Ee. fold U. fold Y.
  apply rne_div_unique; [exact PD|].
  destruct (Z.eq_dec (2 * Z.abs (m0 * (giga * U) - Y)) (giga * U))
    as [Q|Q].
  - right. split; [exact Q|]. apply Tie.
    replace (m0 * (giga * U))%Z with (m0 * U * giga)%Z in * by ring. lia.
  - left. lia.
Qed.

Definition giga_spec : spec_float := S754_finite false giga_mant (-23).

(** A power of two divided by, multiplied by and divided again by [1e9]:
    the product is exact. *)
Lemma scale_back_power (s : bool) (f : Z) :
  (-1074 <= f <= 942)%Z ->
  SFdiv prec emax (SFmul prec emax (S754_finite s (2 ^ 52) f) giga_spec)
    giga_spec
  = S754_finite s (2 ^ 52) f.
Proof.
  intros Hf.
  assert (PT : (0 < 2 ^ 1074)%Z) by (apply Z.pow_pos_nonneg; lia).
  assert (PF : (0 < 2 ^ (f + 1074))%Z) by (apply Z.pow_pos_nonneg; lia).
  assert (P29 : (2 ^ (f + 29 + 1074) = 2 ^ 29 * 2 ^ (f + 1074))%Z).
  { rewrite <- Z.pow_add_r by lia. f_equal. lia. }
  assert (B1 : bounded prec emax (2 ^ 52) f = true).
  { apply bounded_spec. change (Zpos (2 ^ 52)) with (2 ^ 52)%Z. lia. }
  assert (B2 : bounded prec emax giga_mant (f + 29) = true).
  { apply bounded_spec. rewrite giga_mant_eq. unfold giga. lia. }
  unfold giga_spec. rewrite (mul_giga_ratio s _ f B1).
  fold unit_den. cbn [units].
  rewrite (round_ratio_exact s _ unit_den giga_mant (f + 29) B2).
  - rewrite (div_giga_ratio s giga_mant (f + 29) B2). fold giga_den.
    apply (round_ratio_exact s _ giga_den _ f B1).
    unfold ratio_is. cbn [units]. rewrite giga_den_eq, giga_mant_eq, P29.
    rewrite Z2Pos.id by (unfold giga; lia).
    change (Zpos (2 ^ 52)) with (2 ^ 23 * 2 ^ 29)%Z. ring.
  - unfold ratio_is. rewrite unit_den_eq, giga_mant_eq, P29.
    rewrite Z2Pos.id by (unfold giga; lia).
    change (Zpos (2 ^ 52)) with (2 ^ 23 * 2 ^ 29)%Z. ring.
Qed.

(** A finite binary64 number divided by [1e9], multiplied by [1e9] and
    divided by [1e9] again gives the first quotient. *)
Lemma scale_back_finite (s : bool) (mx : positive) (ex : Z) :
  bounded prec emax mx ex = true ->
  SFdiv prec emax
    (SFmul prec emax (SFdiv prec emax (S754_finite s mx ex) giga_spec)
       giga_spec) giga_spec
  = SFdiv prec emax (S754_finite s mx ex) giga_spec.
Proof.
  intros Hb. pose proof (proj1 (bounded_spec mx ex) Hb) as (He & Hm & _).
  unfold giga_spec. rewrite (div_giga_ratio s mx ex Hb). fold giga_spec.
  cbn [units]. fold giga_den.
  assert (PT : (0 < 2 ^ 1074)%Z) by (apply Z.pow_pos_nonneg; lia).
  assert (PX : (0 < 2 ^ (ex + 1074))%Z) by (apply Z.pow_pos_nonneg; lia).
  assert (PW : (0 < 2 ^ 2045)%Z) by (apply Z.pow_pos_nonneg; lia).
  set (n := Z.to_pos (Zpos mx * 2 ^ (ex + 1074))).
  assert (En : Zpos n = (Zpos mx * 2 ^ (ex + 1074))%Z)
    by (unfold n; apply Z2Pos.id; lia).
  assert (Xmax : (Zpos n <= (2 ^ 53 - 1) * 2 ^ 2045)%Z).
  { rewrite En.
    assert (2 ^ (ex + 1074) <= 2 ^ 2045)%Z by (apply Z.pow_le_mono_r; lia).
    apply Z.mul_le_mono_nonneg; lia. }
  pose proof (giga_quotient_bound n Xmax) as Bound.
  pose proof (ratio_exp_ge n giga_den) as Ge.
  destruct (round_ratio_units s n giga_den) as [Shape Un].
  { unfold ratio_num. rewrite giga_den_eq.
    change (971 + 1074)%Z with 2045%Z.
    set (T := (2 ^ 1074)%Z) in *. set (W := (2 ^ 2045)%Z) in *.
    replace ((2 ^ 54 - 1) * W * (giga * T))%Z
      with ((2 ^ 54 - 1) * W * giga * T)%Z by ring.
    replace (2 * (Zpos n * T))%Z with (2 * Zpos n * T)%Z by ring.
    apply Z.mul_lt_mono_pos_r; [exact PT|]. unfold giga. lia. }
  pose proof (round_ratio_valid s n giga_den) as Vg.
  pose proof (round_ratio_eq s n giga_den) as Eg.
  unfold ratio_den in Un.
  destruct Shape as [Z0|(p & f & Ef)].
  { rewrite Z0. cbn. rewrite !Bool.xorb_false_r. reflexivity. }
  rewrite Ef in Vg, Eg, Un |- *. cbn [SpecFloat.valid_binary] in Vg.
  cbn [units] in Un.
  pose proof (proj1 (bounded_spec p f) Vg) as (Hf & Hp & _).
  set (e := ratio_exp n giga_den) in *.
  set (m0 := ratio_mant n giga_den) in *.
  assert (PU : (0 < 2 ^ (e + 1074))%Z) by (apply Z.pow_pos_nonneg; lia).
  assert (PF : (0 < 2 ^ (f + 1074))%Z) by (apply Z.pow_pos_nonneg; lia).
  assert (EG : (Zpos p * 2 ^ (f + 1074) = m0 * 2 ^ (e + 1074))%Z).
  { apply (Z.mul_reg_r _ _ (Zpos giga_den)); [lia|]. rewrite Un. ring. }
  destruct (Pos.eq_dec p (2 ^ 52)) as [->|Np].
  { apply scale_back_power. split; [lia|].
    destruct (Z_le_gt_dec f 942) as [L|G]; [exact L|exfalso].
    rewrite <- EG in Bound.
    assert (2 ^ 2017 <= 2 ^ (f + 1074))%Z by (apply Z.pow_le_mono_r; lia).
    assert (P28 : (2 ^ 2045 = 2 ^ 28 * 2 ^ 2017)%Z)
      by (rewrite <- Z.pow_add_r by lia; reflexivity).
    assert (0 < 2 ^ 2017)%Z by (apply Z.pow_pos_nonneg; lia).
    rewrite P28 in Bound. change (Zpos (2 ^ 52)) with (2 ^ 52)%Z in Bound.
    set (F := (2 ^ (f + 1074))%Z) in *. set (V := (2 ^ 2017)%Z) in *.
    unfold giga in Bound. lia. }
  assert (Nm : m0 <> (2 ^ 53)%Z /\ m0 = Zpos p).
  { unfold normalise in Eg.
    destruct (Z.eqb_spec m0 (2 ^ 53)) as [E53|N53].
    - exfalso. destruct (971 <? e + 1)%Z; [discriminate Eg|].
      change (2 ^ 52)%Z with (Zpos (2 ^ 52)) in Eg.
      apply Np. congruence.
    - split; [exact N53|].
      destruct (971 <? e)%Z; [discriminate Eg|].
      destruct m0; try discriminate Eg. congruence. }
  destruct Nm as [N53 Em0].
  assert (N52 : m0 <> (2 ^ 52)%Z).
  { rewrite Em0. intros C. apply Np.
    apply Pos2Z.inj. rewrite C. reflexivity. }
  unfold giga_spec at 1. rewrite (mul_giga_ratio s p f Vg).
  cbn [units]. fold unit_den.
  set (n2 := Z.to_pos (Zpos p * 2 ^ (f + 1074) * giga)).
  assert (En2 : Zpos n2 = (m0 * 2 ^ (e + 1074) * giga)%Z).
  { unfold n2. rewrite Z2Pos.id by (unfold giga; lia). now rewrite EG. }
  destruct (round_ratio_units s n2 unit_den) as [Shape2 Un2].
  { unfold ratio_num. rewrite unit_den_eq, En2.
    change (971 + 1074)%Z with 2045%Z.
    replace (2 * (m0 * 2 ^ (e + 1074) * giga * 2 ^ 1074))%Z
      with (2 * (m0 * 2 ^ (e + 1074) * giga) * 2 ^ 1074)%Z by ring.
    apply Z.mul_lt_mono_pos_r; [exact PT|exact Bound]. }
  pose proof (round_ratio_valid s n2 unit_den) as Vy.
  pose proof (unit_ratio_mant_pos n2) as Mp.
  pose proof (ratio_den_pos n2 unit_den) as Dp.
  pose proof (ratio_exp_ge n2 unit_den) as Ge2.
  destruct Shape2 as [Z2|(q & h & Ey)].
  { exfalso. rewrite Z2 in Un2. cbn [units] in Un2. nia. }
  rewrite Ey in Vy, Un2 |- *. cbn [SpecFloat.valid_binary] in Vy.
  cbn [units] in Un2.
  pose proof (proj1 (bounded_spec q h) Vy) as (Hh & Hq & _).
  unfold giga_spec. rewrite (div_giga_ratio s q h Vy).
  cbn [units]. fold giga_den.
  assert (PH : (0 < 2 ^ (h + 1074))%Z) by (apply Z.pow_pos_nonneg; lia).
  set (ny := Z.to_pos (Zpos q * 2 ^ (h + 1074))).
  assert (Eny : Zpos ny = (ratio_mant n2 unit_den
                           * 2 ^ (ratio_exp n2 unit_den + 1074))%Z).
  { unfold ny. rewrite Z2Pos.id by lia.
    apply (Z.mul_reg_r _ _ (Zpos unit_den)); [lia|]. rewrite Un2.
    unfold ratio_den. ring. }
  destruct (scale_back_mant n n2 ny mx ex En ltac:(lia) Hm En2 Eny N52 N53)
    as [Ee Em].
  rewrite (round_ratio_eq s ny giga_den), Ee, Em. symmetry. exact Eg.
Qed.

(** [((x / 1e9) * 1e9) / 1e9 = x / 1e9] for every binary64 number [x]:
    what the parser makes of a frequency in Hz survives being written in Hz
    and parsed again. *)
Lemma scale_back (x : float) : ((x / 1e9) * 1e9 / 1e9 = x / 1e9)%float.
Proof.
  apply Prim2SF_inj.
  rewrite (div_spec (x / 1e9 * 1e9)), mul_spec, !(div_spec x), giga_float.
  fold giga_spec. pose proof (Prim2SF_valid x) as V.
  unfold SF64div, SF64mul.
  destruct (Prim2SF x) as [sx|sx| |sx mx ex].
  - cbn. now rewrite !Bool.xorb_false_r.
  - cbn. now rewrite !Bool.xorb_false_r.
  - reflexivity.
  - apply scale_back_finite. exact V.
Qed.

(** Every frequency the parser keeps is a quotient by [1e9]. *)
Lemma data_points_freq_quotient (to_float : str -> option float)
    (one_port : bool) (lines : list str) :
  Forall (fun p => exists x : float, Spec.freq_of p = (x / 1e9)%float)
    (Spec.data_points to_float one_port lines).
Proof.
  induction lines as [|l rest IH]; cbn [Spec.data_points]; [constructor|].
  destruct (Spec.data_point to_float one_port l) as [p|] eqn:E;
    [|exact IH].
  constructor; [|exact IH].
  unfold Spec.data_point in E.
  destruct (_ || _ || _); [discriminate E|].
  destruct one_port.
  - destruct (split (strip l)) as [|t0 [|t1 [|t2 ts]]]; try discriminate E.
    destruct (to_float t0) as [f|]; [|discriminate E].
    destruct (to_float t1) as [re|]; [|discriminate E].
    destruct (to_float t2) as [im|]; [|discriminate E].
    injection E as <-. now exists f.
  - destruct (split (strip l)) as [|t0 [|t1 [|t2 [|t3 [|t4 ts]]]]];
      try discriminate E.
    destruct (to_float t0) as [f|]; [|discriminate E].
    destruct (to_float t3) as [re|]; [|discriminate E].
    destruct (to_float t4) as [im|]; [|discriminate E].
    injection E as <-. now exists f.
Qed.

Lemma parse_s_param_freq_quotient (to_float : str -> option float)
    (file_content : bytes) (filename : str) (t : trace) :
  parse_s_param to_float file_content filename = Ok t ->
  Forall (fun f => exists x : float, f = (x / 1e9)%float) (trace_freq t).
Proof.
  rewrite parse_s_param_points. cbv zeta. intros E.
  injection E as <-. cbn [trace_freq fst].
  apply Forall_map. apply data_points_freq_quotient.
Qed.

Lemma map_scale_back (F : array) :
  Forall (fun f => exists x : float, f = (x / 1e9)%float) F ->
  List.map (fun f => (read_str (f * 1e9) / 1e9)%float) F = F.
Proof.
  intros Q. induction Q as [|f fs [x ->] _ IH]; cbn [List.map];
    [reflexivity|].
  rewrite read_str_id, scale_back, IH. reflexivity.
Qed.

(** X18. The file [criar_media] writes gives back, when it is parsed
    under its own name, exactly the frequencies of the first file: each was
    obtained as a quotient by [1e9], is written multiplied by [1e9] with all
    its digits and is divided by [1e9] again, and in binary64 arithmetic
    that returns the same number. *)
Theorem criar_media_frequencies_read_back :
  forall (file1_content : bytes) (file1_name : str)
         (file2_content : bytes) (file2_name : str)
         (nome : str) (media_content : bytes),
    criar_media float_of_str file1_content file1_name file2_content file2_name
    = Ok (MediaFile nome media_content) ->
    exists t1 re' im',
      parse_s_param float_of_str file1_content file1_name = Ok t1
      /\ parse_s_param float_of_str media_content nome
         = Ok (trace_freq t1, re', im').
Proof.
  intros c1 n1 c2 n2 nome content H.
  destruct (criar_media_cases float_of_str c1 n1 c2 n2)
    as (t1 & t2 & E1 & E2 & W1 & W2 & Hnone & Hfile).
  destruct (trace_freq t1) as [|x1 l1] eqn:F1.
  { rewrite Hnone in H by now left. discriminate H. }
  destruct (trace_freq t2) as [|x2 l2] eqn:F2.
  { rewrite Hnone in H by now right. discriminate H. }
  destruct Hfile as (re & im & M & [Wr Wi] & Hf); try discriminate.
  rewrite <- F1 in *. rewrite Hf in H.
  assert (En : nome = nome_media n1 n2) by congruence.
  assert (Ec : content
               = List.map byte_of_N (file_text (trace_freq t1) re im))
    by congruence.
  clear H. subst nome content.
  exists t1, (List.map read_6f re), (List.map read_6f im).
  split; [exact E1|].
  rewrite (parse_written_file _ _ _ _ Wr Wi (nome_media_two_port n1 n2)).
  rewrite (map_scale_back _ (parse_s_param_freq_quotient _ _ _ _ E1)).
  reflexivity.
Qed.

(** A frequency of 15 Hz: the quotient [1.5e-08] times [1e9] is not 15,
    so the file written for the mean holds another number of Hz, and it
    parses to the same quotient. *)
Lemma criar_media_frequencies_read_back_witness :
  criar_media float_of_str
    (bytes_of_string "15 0.25 0.5") (lit "a.s1p")
    (bytes_of_string "15 0.75 0.5") (lit "b.s1p")
  = Ok (MediaFile (nome_media (lit "a.s1p") (lit "b.s1p"))
          (bytes_of_string "!File created by Averaging App
# Hz S RI R 50
14.999999999999998 0 0 0.500000 0.500000 0 0 0 0
"))
  /\ exists t1 re' im',
      parse_s_param float_of_str
        (bytes_of_string "15 0.25 0.5") (lit "a.s1p") = Ok t1
      /\ parse_s_param float_of_str
           (bytes_of_string "!File created by Averaging App
# Hz S RI R 50
14.999999999999998 0 0 0.500000 0.500000 0 0 0 0
") (nome_media (lit "a.s1p") (lit "b.s1p"))
         = Ok (trace_freq t1, re', im').
Proof.
  split; [vm_compute; reflexivity|].
  apply (criar_media_frequencies_read_back _ _
           (bytes_of_string "15 0.75 0.5") (lit "b.s1p")).
  vm_compute. reflexivity.
Defined.

(* ================================================================= *)
(** ** The round trip of the averaged file *)

(** A value read back from the file against the value written: within a
    millionth of it, as rational numbers, when it is finite; the same
    infinity or NaN when it is not. *)
Definition recovered (a a' : float) : Prop :=
  match number a with
  | Some q => exists p : Q, number a' = Some p
                            /\ (Qabs (p - q) <= 1 # 1000000)%Q
  | None => a' = a
  end.

(** C1. Round trip: for two files whose traces are not empty,
    [criar_media] writes a file under a name that selects 2-port mode, and
    parsing that file under that name gives back the frequencies of the
    first trace, each the very number it was, and real and imaginary
    values within [1e-6] of the two means wherever a mean is finite; a mean
    that is an infinity or a NaN is written by name and read back as
    itself.  This holds whatever [float] makes of the tokens of the two
    input files ([to_float]); the file written is ASCII text, and what
    [float] reads in it is [float_of_str]. *)
Theorem media_file_round_trip :
  forall (to_float : str -> option float)
         (file1_content : bytes) (file1_name : str)
         (file2_content : bytes) (file2_name : str) (t1 t2 : trace),
    parse_s_param to_float file1_content file1_name = Ok t1 ->
    parse_s_param to_float file2_content file2_name = Ok t2 ->
    trace_freq t1 <> [] -> trace_freq t2 <> [] ->
    exists (re_mean im_mean : array) (media_content : bytes)
           (re' im' : array),
      media_trace t1 t2 = Ok (trace_freq t1, re_mean, im_mean)
      /\ criar_media to_float file1_content file1_name
           file2_content file2_name
         = Ok (MediaFile (nome_media file1_name file2_name) media_content)
      /\ is_s1p_name (nome_media file1_name file2_name) = false
      /\ parse_s_param float_of_str media_content
           (nome_media file1_name file2_name)
         = Ok (trace_freq t1, re', im')
      /\ Forall2 recovered re_mean re'
      /\ Forall2 recovered im_mean im'.
Proof.
  intros to_float c1 n1 c2 n2 t1 t2 P1 P2 N1 N2.
  destruct (criar_media_cases to_float c1 n1 c2 n2)
    as (t1' & t2' & E1 & E2 & W1 & W2 & _ & Hfile).
  assert (T1 : t1' = t1) by congruence.
  assert (T2 : t2' = t2) by congruence.
  subst t1' t2'.
  destruct (Hfile N1 N2) as (re & im & M & [Wr Wi] & Hf).
  exists re, im, (List.map byte_of_N (file_text (trace_freq t1) re im)),
    (List.map read_6f re), (List.map read_6f im).
  split; [exact M|]. split; [exact Hf|].
  split; [apply nome_media_two_port|].
  split; [|split].
  - rewrite (parse_written_file _ _ _ _ Wr Wi (nome_media_two_port n1 n2)).
    rewrite (map_scale_back _ (parse_s_param_freq_quotient _ _ _ _ P1)).
    reflexivity.
  - apply Forall2_map_read. intros a. apply read_6f_close.
  - apply Forall2_map_read. intros a. apply read_6f_close.
Qed.

(** Two one-line files at 15 Hz, with S11 = 0.1234567 + 1j and
    S11 = 0.3 + 3j: the mean 0.21172835 + 2j is written [0.211728] and
    [2.000000], the frequency [14.999999999999998] Hz. *)
Lemma media_file_round_trip_witness :
  exists (re_mean im_mean : array) (media_content : bytes)
         (re' im' : array),
    media_trace ([1.5e-08], [0.1234567], [1])%float
      ([1.5e-08], [0.3], [3])%float
    = Ok (trace_freq ([1.5e-08], [0.1234567], [1])%float, re_mean, im_mean)
    /\ criar_media float_of_str
         (bytes_of_string "15 0.1234567 1") (lit "a.s1p")
         (bytes_of_string "15 0.3 3") (lit "b.s1p")
       = Ok (MediaFile (nome_media (lit "a.s1p") (lit "b.s1p"))
               media_content)
    /\ is_s1p_name (nome_media (lit "a.s1p") (lit "b.s1p")) = false
    /\ parse_s_param float_of_str media_content
         (nome_media (lit "a.s1p") (lit "b.s1p"))
       = Ok (trace_freq ([1.5e-08], [0.1234567], [1])%float, re', im')
    /\ Forall2 recovered re_mean re'
    /\ Forall2 recovered im_mean im'.
Proof.
  apply (media_file_round_trip float_of_str
           (bytes_of_string "15 0.1234567 1") (lit "a.s1p")
           (bytes_of_string "15 0.3 3") (lit "b.s1p")
           ([1.5e-08], [0.1234567], [1])%float
           ([1.5e-08], [0.3], [3])%float).
  - vm_compute. reflexivity.
  - vm_compute. reflexivity.
  - discriminate.
  - discriminate.
Defined.
